(** * Event-based image retrieval: rank fusion, boosting and the search pipeline

    A shallow embedding of the retrieval core of the repository:
    - [rrf_rerank.py]: the standalone reciprocal-rank-fusion reranker
      (normal and adaptive modes);
    - [search_pipeline.py]: configuration, the sigmoid booster, the
      per-family and cross-family aggregators, the two query branches and
      the stage-2 CSV writer;
    - [entity_search_system.py]: the entity-weighted article search, the
      scroll over the queries index and the stage-1 writer, with the
      caller of the writer in [search_pipeline.py].

    Conventions.  Python dictionaries are association lists in insertion
    order (iteration order and the tie-break of [sorted] depend on it).
    Exceptions are values of [result].  The scores summed by the fusion
    code are Python floats; they are modelled by exact rationals [Q].  The
    booster, whose claim is about IEEE comparisons and additions, is
    modelled on binary64 floats. *)

From Stdlib Require Import List String Ascii Bool Arith ZArith QArith Lia.
From Stdlib Require Import Permutation Sorted.
From Stdlib Require Import Floats Uint63 DecimalString.
From Stdlib Require OrdersEx.
Import ListNotations.

Set Warnings "-inexact-float".

Close Scope Q_scope.
Open Scope string_scope.
Open Scope list_scope.
Open Scope nat_scope.

(** ** Exceptions *)

Inductive exn : Type :=
| ZeroDivisionError
| ValueError
| KeyError
| IndexError
| OverflowError
| AttributeError
| TransportError.

Inductive result (A : Type) : Type :=
| Ok (a : A)
| Raise (e : exn).

Arguments Ok {A} a.
Arguments Raise {A} e.

Definition bind {A B : Type} (m : result A) (f : A -> result B) : result B :=
  match m with
  | Ok a => f a
  | Raise e => Raise e
  end.

Notation "x <- m ;; f" := (bind m (fun x => f))
  (at level 61, m at next level, right associativity).

(** ** Python strings *)

Module PyStr.

(** [str.isspace] on the ASCII range: TAB, LF, VT, FF, CR, the four
    separators 0x1c-0x1f and the blank. *)
Definition is_space (c : ascii) : bool :=
  let n := nat_of_ascii c in
  ((9 <=? n) && (n <=? 13)) || ((28 <=? n) && (n <=? 32)).

Fixpoint lstrip (s : string) : string :=
  match s with
  | EmptyString => EmptyString
  | String c s' => if is_space c then lstrip s' else s
  end.

Fixpoint rstrip (s : string) : string :=
  match s with
  | EmptyString => EmptyString
  | String c s' =>
      match rstrip s' with
      | EmptyString => if is_space c then EmptyString else String c EmptyString
      | r => String c r
      end
  end.

Definition strip (s : string) : string := rstrip (lstrip s).

Definition startswith (s pre : string) : bool := String.prefix pre s.

(** [s.replace(pat, "")] for a non-empty [pat]: every (leftmost,
    non-overlapping) occurrence of [pat] is dropped.  [skip] counts the
    characters of an occurrence still to drop. *)
Fixpoint remove_from (pat : string) (skip : nat) (s : string) : string :=
  match s with
  | EmptyString => EmptyString
  | String c s' =>
      match skip with
      | S n => remove_from pat n s'
      | O => if String.prefix pat s
             then remove_from pat (String.length pat - 1) s'
             else String c (remove_from pat 0 s')
      end
  end.

Definition remove_all (pat s : string) : string := remove_from pat 0 s.

End PyStr.

(** ** Insertion-ordered dictionaries with float values *)

Module Dict.

Section Generic.
Context {V : Type}.

Fixpoint get (d : list (string * V)) (key : string) : option V :=
  match d with
  | [] => None
  | (k', v) :: rest => if String.eqb k' key then Some v else get rest key
  end.

(** [d[key] = v]: an existing key keeps its position. *)
Fixpoint set (d : list (string * V)) (key : string) (v : V) : list (string * V) :=
  match d with
  | [] => [(key, v)]
  | (k', x) :: rest =>
      if String.eqb k' key then (k', v) :: rest else (k', x) :: set rest key v
  end.

Definition mem (d : list (string * V)) (key : string) : bool :=
  match get d key with Some _ => true | None => false end.

Definition keys (d : list (string * V)) : list string := map fst d.
Definition values (d : list (string * V)) : list V := map snd d.

(** [d.update(e)] *)
Definition update (d e : list (string * V)) : list (string * V) :=
  fold_left (fun acc kv => set acc (fst kv) (snd kv)) e d.

End Generic.

(** [defaultdict(float)]: [d[key] += v]. *)
Fixpoint add (d : list (string * Q)) (key : string) (v : Q) : list (string * Q) :=
  match d with
  | [] => [(key, (0 + v)%Q)]
  | (k', x) :: rest =>
      if String.eqb k' key then (k', (x + v)%Q) :: rest else (k', x) :: add rest key v
  end.

Definition score (d : list (string * Q)) (key : string) : Q :=
  match get d key with Some v => v | None => 0%Q end.

(** [sorted(d.items(), key=lambda x: x[1], reverse=True)]: a stable sort,
    equal scores keep their insertion order. *)
Fixpoint insert_desc (x : string * Q) (l : list (string * Q)) : list (string * Q) :=
  match l with
  | [] => [x]
  | y :: r => if Qle_bool (snd y) (snd x) then x :: l else y :: insert_desc x r
  end.

Definition sorted_desc (l : list (string * Q)) : list (string * Q) :=
  fold_right insert_desc [] l.

End Dict.

(** ** Ranked lists *)

Definition sentinel : string := "#".

(** [top_n] cells: the items in order, then the sentinel. *)
Definition fill (top_n : nat) (items : list string) : list string :=
  firstn top_n items ++ repeat sentinel (top_n - List.length items).

(** ** rrf_rerank.py: the standalone reranker *)

Module RRF.

(** A cell of a submission file as [pandas.read_csv] gives it: [NaN] for an
    empty field, otherwise a value, identified with its text
    ([str(article_id)]). *)
Inductive cell : Type :=
| NaN
| Str (s : string).

(** [pd.isna(article_id) or str(article_id).strip() == '#'
     or str(article_id).strip() == ''] *)
Definition is_missing (c : cell) : bool :=
  match c with
  | NaN => true
  | Str s => String.eqb (PyStr.strip s) "#" || String.eqb (PyStr.strip s) ""
  end.

(** A submission file: the number of its [article_id_*]/[image_id_*]
    columns and its rows, each a [query_id] with one cell per item column,
    in the order of the column numbers. *)
Record DataFrame : Type := {
  n_cols : nat;
  rows : list (string * list cell)
}.

(** [df[df['query_id'] == query_id]], then [.iloc[0]] *)
Definition find_row (df : DataFrame) (query_id : string) : option (list cell) :=
  match find (fun r => String.eqb (fst r) query_id) (rows df) with
  | Some r => Some (snd r)
  | None => None
  end.

Definition rrf_score (rank : nat) (k : Z) : result Q :=
  if rank =? 0 then Ok 0%Q
  else if (k + Z.of_nat rank =? 0)%Z then Raise ZeroDivisionError
  else Ok (1 / inject_Z (k + Z.of_nat rank))%Q.

(** [sorted(list(set(ids)))]; the order of [String.compare], on the bytes
    of the identifiers, is the code-point order of Python. *)
Fixpoint insert_uniq (x : string) (l : list string) : list string :=
  match l with
  | [] => [x]
  | y :: r =>
      match String.compare x y with
      | Lt => x :: l
      | Eq => l
      | Gt => y :: insert_uniq x r
      end
  end.

Definition all_query_ids (dfs : list DataFrame) : list string :=
  fold_right insert_uniq [] (flat_map (fun df => map fst (rows df)) dfs).

(** [result_df.sort_values('query_id')] *)
Fixpoint insert_row (x : string * list string) (l : list (string * list string))
  : list (string * list string) :=
  match l with
  | [] => [x]
  | y :: r => if String.leb (fst x) (fst y) then x :: l else y :: insert_row x r
  end.

Definition sort_values (l : list (string * list string)) : list (string * list string) :=
  fold_right insert_row [] l.

(** [top_n = max(article_col_counts)] when no size is given *)
Definition output_size (dfs : list DataFrame) (top_n : option nat) : result nat :=
  match top_n with
  | Some n => Ok n
  | None =>
      match dfs with
      | [] => Raise ValueError
      | _ => Ok (list_max (map n_cols dfs))
      end
  end.

(** *** Normal (anti-bias) mode *)

Definition has_valid_articles (cells : list cell) : bool :=
  existsb (fun c => negb (is_missing c)) cells.

Definition file_has_valid_articles (query_id : string) (df : DataFrame) : bool :=
  match find_row df query_id with
  | None => false
  | Some cells => has_valid_articles cells
  end.

Definition query_has_results_in_all_files (dfs : list DataFrame) (query_id : string) : bool :=
  forallb (file_has_valid_articles query_id) dfs.

(** The inner loop [for rank, col in enumerate(article_cols, 1)]. *)
Fixpoint collect (k : Z) (rank : nat) (cells : list cell) (scores : list (string * Q))
  : result (list (string * Q)) :=
  match cells with
  | [] => Ok scores
  | NaN :: rest => collect k (S rank) rest scores
  | Str s :: rest =>
      if is_missing (Str s) then collect k (S rank) rest scores
      else v <- rrf_score rank k ;; collect k (S rank) rest (Dict.add scores s v)
  end.

(** The loop [for df in dfs] around it. *)
Fixpoint collect_files (k : Z) (query_id : string) (dfs : list DataFrame)
  (scores : list (string * Q)) : result (list (string * Q)) :=
  match dfs with
  | [] => Ok scores
  | df :: rest =>
      match find_row df query_id with
      | None => Raise IndexError
      | Some cells =>
          scores' <- collect k 1 cells scores ;;
          collect_files k query_id rest scores'
      end
  end.

(** One turn of [for idx, query_id in enumerate(all_query_ids, 1)]: the
    row's cells and whether the query was skipped. *)
Definition rerank_query (k : Z) (top_n : nat) (dfs : list DataFrame) (query_id : string)
  : result (list string * bool) :=
  if negb (query_has_results_in_all_files dfs query_id)
  then Ok (repeat sentinel top_n, true)
  else
    article_scores <- collect_files k query_id dfs [] ;;
    Ok (fill top_n (map fst (Dict.sorted_desc article_scores)), false).

Section Loop.
Variable body : string -> result (list string * bool).

Fixpoint rerank_loop (ids : list string) (reranked_results : list (string * list string))
  (skipped_queries : nat) : result (list (string * list string) * nat) :=
  match ids with
  | [] => Ok (reranked_results, skipped_queries)
  | query_id :: rest =>
      r <- body query_id ;;
      rerank_loop rest (reranked_results ++ [(query_id, fst r)])
        (if snd r then S skipped_queries else skipped_queries)
  end.

(** With no query at all, sorting the empty frame by ['query_id'] fails. *)
Definition rerank_all (ids : list string) : result (list (string * list string) * nat) :=
  out <- rerank_loop ids [] 0 ;;
  match ids with
  | [] => Raise KeyError
  | _ => Ok (sort_values (fst out), snd out)
  end.
End Loop.

Definition perform_rrf_reranking (dfs : list DataFrame) (k : Z) (top_n : option nat)
  : result (list (string * list string) * nat) :=
  n <- output_size dfs top_n ;;
  rerank_all (rerank_query k n dfs) (all_query_ids dfs).

(** *** Adaptive mode *)

(** The first pass: the count of leading consecutive valid cells. *)
Fixpoint valid_article_count (cells : list cell) : nat :=
  match cells with
  | [] => 0
  | c :: rest => if is_missing c then 0 else S (valid_article_count rest)
  end.

Definition query_article_count (query_id : string) (df : DataFrame) : nat :=
  match find_row df query_id with
  | None => 0
  | Some cells => valid_article_count cells
  end.

Definition query_article_counts (dfs : list DataFrame) (query_id : string) : list nat :=
  map (query_article_count query_id) dfs.

Definition valid_files (dfs : list DataFrame) (query_id : string) : list bool :=
  map (fun df => 0 <? query_article_count query_id df) dfs.

Definition list_min (l : list nat) : result nat :=
  match l with
  | [] => Raise ValueError
  | x :: r => Ok (fold_left Nat.min r x)
  end.

(** [min(min_article_count * 2, max(query_article_counts))] *)
Definition dynamic_limit (counts : list nat) : result nat :=
  min_article_count <- list_min counts ;;
  Ok (Nat.min (min_article_count * 2) (list_max counts)).

(** The second pass over one row; [articles_used] counts the valid cells
    consumed so far. *)
Fixpoint collect_adaptive (k : Z) (limit articles_used rank : nat) (cells : list cell)
  (scores : list (string * Q)) : result (list (string * Q)) :=
  match cells with
  | [] => Ok scores
  | c :: rest =>
      if limit <=? articles_used then Ok scores
      else
        match c with
        | NaN => collect_adaptive k limit articles_used (S rank) rest scores
        | Str s =>
            if is_missing c then collect_adaptive k limit articles_used (S rank) rest scores
            else
              v <- rrf_score rank k ;;
              collect_adaptive k limit (S articles_used) (S rank) rest (Dict.add scores s v)
        end
  end.

Fixpoint collect_files_adaptive (k : Z) (limit : nat) (query_id : string)
  (dfs : list DataFrame) (scores : list (string * Q)) : result (list (string * Q)) :=
  match dfs with
  | [] => Ok scores
  | df :: rest =>
      match find_row df query_id with
      | None => Raise IndexError
      | Some cells =>
          scores' <- collect_adaptive k limit 0 1 cells scores ;;
          collect_files_adaptive k limit query_id rest scores'
      end
  end.

Definition rerank_query_adaptive (k : Z) (top_n : nat) (dfs : list DataFrame)
  (query_id : string) : result (list string * bool) :=
  if negb (forallb (fun b => b) (valid_files dfs query_id))
  then Ok (repeat sentinel top_n, true)
  else
    limit <- dynamic_limit (query_article_counts dfs query_id) ;;
    article_scores <- collect_files_adaptive k limit query_id dfs [] ;;
    Ok (fill top_n (map fst (Dict.sorted_desc article_scores)), false).

Definition perform_rrf_reranking_adaptive (dfs : list DataFrame) (k : Z)
  (top_n : option nat) : result (list (string * list string) * nat) :=
  n <- output_size dfs top_n ;;
  rerank_all (rerank_query_adaptive k n dfs) (all_query_ids dfs).

End RRF.

(** ** search_pipeline.py: the image-search pipeline *)

Module Pipeline.

(** *** Configuration *)

Record family_config : Type := {
  query_collections : list string;
  search_collection : string;
  family_weight : Q
}.

(** One database entry of the JSON configuration:
    [{"weight": w, "query_collections": [{name: w}, ...]}], either key
    possibly absent. *)
Record db_config : Type := {
  db_weight : option Q;
  db_query_collections : option (list (list (string * Q)))
}.

(** The attributes of [self] the image search reads.  An attribute that
    [__init__] did not set ([hasattr] is false) is [None]. *)
Record pipeline : Type := {
  use_voting : bool;
  enable_multi_model : bool;
  private_test_mode : bool;
  primary_checkpoint : string;
  model_weights : list (string * Q);
  model_families : option (list (string * family_config));
  active_families : option (list (string * family_config));
  active_model_weights : option (list (string * Q));
  article_to_images : list (string * list string);
  rrf_k : Z;
  multi_model_rrf_k : Z;
  use_sigmoid_boosting : bool;
  article_ranking_boost : float;
  similarity_weight : float;
  rank_weight : float;
  sigmoid_bias : float;
  max_boost_factor : float
}.

(** The arguments of [ProfessionalSearchPipeline.__init__] other than the
    JSON configuration; [mapping] is the content of the article mapping
    file. *)
Record init_args : Type := {
  arg_private_test_mode : bool;
  arg_primary_checkpoint : string;
  arg_enable_h14_laion : bool;
  arg_enable_multi_model : bool;
  primary_query_large_weight : Q;
  primary_summary_large_weight : Q;
  primary_concise_large_weight : Q;
  primary_query_base_weight : Q;
  primary_summary_base_weight : Q;
  primary_concise_base_weight : Q;
  h14_query_weight : Q;
  h14_summary_weight : Q;
  h14_concise_weight : Q;
  primary_large_family_weight : Q;
  primary_base_family_weight : Q;
  h14_laion_family_weight : Q;
  mapping : list (string * list string);
  arg_rrf_k : Z;
  arg_multi_model_rrf_k : Z;
  arg_use_voting : bool;
  arg_use_sigmoid_boosting : bool;
  arg_article_ranking_boost : float;
  arg_similarity_weight : float;
  arg_rank_weight : float;
  arg_sigmoid_bias : float;
  arg_max_boost_factor : float
}.

Definition valid_checkpoints : list string := ["Initialized"; "Flickr30k"; "OpenEvents_v1"].

Definition database_mapping : list (string * string) :=
  [("Initialized", "Initialized"); ("Flickr30k", "Flickr30k"); ("OpenEvents_v1", "Flickr30k")].

Definition private_name (private : bool) (name : string) : string :=
  if private then String.append "Private_" name else name.

Definition gt0 (w : Q) : bool := negb (Qle_bool w 0).

(** [build_config_from_json]: the families and the flat weight table. *)
Definition add_query_collection (private : bool)
  (acc : list string * list (string * Q)) (entry : string * Q)
  : list string * list (string * Q) :=
  let full_col_name := private_name private (fst entry) in
  (fst acc ++ [full_col_name], Dict.set (snd acc) full_col_name (snd entry)).

Definition add_database (private : bool)
  (acc : list (string * family_config) * list (string * Q)) (db : string * db_config)
  : list (string * family_config) * list (string * Q) :=
  let db_name := fst db in
  let weight := match db_weight (snd db) with Some w => w | None => 1%Q end in
  let cols := match db_query_collections (snd db) with Some l => l | None => [] end in
  let r := fold_left (add_query_collection private) (List.concat cols) ([], snd acc) in
  let family := {| query_collections := fst r;
                   search_collection := db_name;
                   family_weight := weight |} in
  (Dict.set (fst acc) (PyStr.remove_all "Database_" db_name) family, snd r).

Definition build_config_from_json (private : bool) (config_data : list (string * db_config))
  : list (string * family_config) * list (string * Q) :=
  fold_left (add_database private) config_data ([], []).

(** [_build_legacy_config]: the families (absent in single-model mode) and
    the weight table. *)
Definition from_list {V : Type} (l : list (string * V)) : list (string * V) :=
  Dict.update [] l.

Definition _build_legacy_config (a : init_args)
  : result (option (list (string * family_config)) * list (string * Q)) :=
  let cp := arg_primary_checkpoint a in
  let private := arg_private_test_mode a in
  let name (view size : string) :=
    String.append view (String.append "_" (String.append cp (String.append "_" size))) in
  let prefixed (l : list (string * Q)) :=
    from_list (map (fun e => (private_name private (fst e), snd e)) l) in
  if arg_enable_multi_model a then
    let base_model_weights :=
      from_list
        ([ (name "Query" "Large", primary_query_large_weight a);
           (name "Summary" "Large", primary_summary_large_weight a);
           (name "Concise" "Large", primary_concise_large_weight a);
           (name "Query" "Base", primary_query_base_weight a);
           (name "Summary" "Base", primary_summary_base_weight a);
           (name "Concise" "Base", primary_concise_base_weight a) ]
         ++ (if arg_enable_h14_laion a
             then [ ("Query_Laion_H14", h14_query_weight a);
                    ("Summary_Laion_H14", h14_summary_weight a);
                    ("Concise_Laion_H14", h14_concise_weight a) ]
             else [])) in
    match Dict.get database_mapping cp with
    | None => Raise KeyError
    | Some database_name =>
        let db size := String.append "Database_" (String.append database_name (String.append "_" size)) in
        let base_families :=
          from_list
            ([ (String.append cp "-Large",
                {| query_collections := [name "Query" "Large"; name "Summary" "Large"; name "Concise" "Large"];
                   search_collection := db "Large";
                   family_weight := primary_large_family_weight a |});
               (String.append cp "-Base",
                {| query_collections := [name "Query" "Base"; name "Summary" "Base"; name "Concise" "Base"];
                   search_collection := db "Base";
                   family_weight := primary_base_family_weight a |}) ]
             ++ (if arg_enable_h14_laion a
                 then [ ("H14-Laion",
                         {| query_collections := ["Query_Laion_H14"; "Summary_Laion_H14"; "Concise_Laion_H14"];
                            search_collection := "Database_Laion_H14";
                            family_weight := h14_laion_family_weight a |}) ]
                 else [])) in
        let families :=
          from_list
            (map (fun e =>
                    (fst e,
                     {| query_collections := map (private_name private) (query_collections (snd e));
                        search_collection := search_collection (snd e);
                        family_weight := family_weight (snd e) |}))
               base_families) in
        Ok (Some families, prefixed base_model_weights)
    end
  else
    Ok (None,
        prefixed (from_list [ (name "Query" "Large", primary_query_large_weight a);
                              (name "Summary" "Large", primary_summary_large_weight a);
                              (name "Concise" "Large", primary_concise_large_weight a) ])).

(** [__init__]: checkpoint validation, configuration, the active sets and
    their validation.  [json_config] is the content of the JSON file when
    one is given. *)
Definition init (json_config : option (list (string * db_config))) (a : init_args)
  : result pipeline :=
  if negb (existsb (String.eqb (arg_primary_checkpoint a)) valid_checkpoints)
  then Raise ValueError
  else
    let config_data :=
      match json_config with
      | Some (e :: l) => Some (e :: l)
      | _ => None
      end in
    built <-
      match config_data with
      | Some c =>
          let r := build_config_from_json (arg_private_test_mode a) c in
          Ok (Some (fst r), snd r, true)
      | None =>
          r <- _build_legacy_config a ;;
          Ok (fst r, snd r, arg_enable_multi_model a)
      end ;;
    let families := fst (fst built) in
    let weights := snd (fst built) in
    active <-
      (if arg_enable_multi_model a then
         match families with
         | None => Raise AttributeError
         | Some f =>
             let act := filter (fun e => gt0 (family_weight (snd e))) f in
             match act with
             | [] => Raise ValueError
             | _ => Ok (Some act, None)
             end
         end
       else
         let act := filter (fun e => gt0 (snd e)) weights in
         match act with
         | [] => Raise ValueError
         | _ => Ok (None, Some act)
         end) ;;
    Ok {| use_voting := arg_use_voting a;
          enable_multi_model := snd built;
          private_test_mode := arg_private_test_mode a;
          primary_checkpoint := arg_primary_checkpoint a;
          model_weights := weights;
          model_families := families;
          active_families := fst active;
          active_model_weights := snd active;
          article_to_images := mapping a;
          rrf_k := arg_rrf_k a;
          multi_model_rrf_k := arg_multi_model_rrf_k a;
          use_sigmoid_boosting := arg_use_sigmoid_boosting a;
          article_ranking_boost := arg_article_ranking_boost a;
          similarity_weight := arg_similarity_weight a;
          rank_weight := arg_rank_weight a;
          sigmoid_bias := arg_sigmoid_bias a;
          max_boost_factor := arg_max_boost_factor a |}.

(** *** The vector store and the booster *)

(** A point returned by a nearest-neighbour search: the [image_id] of its
    payload, when it has one, and its similarity. *)
Record hit : Type := {
  payload_image_id : option string;
  hit_score : float
}.

(** An entry of a view's result list.  [boost_detail] holds [base_score],
    [ranking_boost] and [article_rank] on the article-filtered path. *)
Record image_result : Type := {
  image_id : string;
  score : float;
  boost_detail : option (float * float * Z)
}.

Definition int_to_float (z : Z) : float := PrimFloat.of_uint63 (Uint63.of_Z z).

Fixpoint map_result {A B : Type} (f : A -> result B) (l : list A) : result (list B) :=
  match l with
  | [] => Ok []
  | x :: r => y <- f x ;; ys <- map_result f r ;; Ok (y :: ys)
  end.

(** [results.sort(key=lambda x: x["score"], reverse=True)] *)
Fixpoint insert_by_score (x : image_result) (l : list image_result) : list image_result :=
  match l with
  | [] => [x]
  | y :: r => if PrimFloat.leb (score y) (score x) then x :: l else y :: insert_by_score x r
  end.

Definition sort_by_score (l : list image_result) : list image_result :=
  fold_right insert_by_score [] l.

Section Search.

(** The collaborators: the vector store ([client.scroll] restricted to one
    [image_id], giving the vectors of the points found, and
    [client.search] with an optional [image_id] membership filter and a
    limit) and the two functions of [math] the booster calls. *)
Variable client_scroll : string -> string -> result (list (option (list float))).
Variable client_search : string -> list float -> option (list string) -> nat -> result (list hit).
Variable math_log : Z -> float.
Variable math_exp : float -> result float.

Definition calculate_sigmoid_boost (self : pipeline) (similarity_score : float)
  (article_rank : Z) : result float :=
  if negb (use_sigmoid_boosting self) then
    if (article_rank =? 0)%Z then Raise ZeroDivisionError
    else Ok (article_ranking_boost self / int_to_float article_rank)%float
  else if (similarity_score <? 0.5)%float then Ok 0%float
  else
    let sigmoid_input :=
      (similarity_weight self * similarity_score
       - rank_weight self * math_log article_rank
       + sigmoid_bias self)%float in
    sigmoid_output <-
      match math_exp (- sigmoid_input)%float with
      | Ok e =>
          if (1 + e =? 0)%float then Raise ZeroDivisionError
          else Ok (1 / (1 + e))%float
      | Raise OverflowError => Ok (if (0 <? sigmoid_input)%float then 1 else 0)%float
      | Raise e => Raise e
      end ;;
    Ok (sigmoid_output * max_boost_factor self)%float.

(** The body of [for hit in search_result]. *)
Definition boosted_result (self : pipeline) (article_rank_map : list (string * Z)) (h : hit)
  : result image_result :=
  let image_id := match payload_image_id h with Some i => i | None => "unknown" end in
  let base_score := hit_score h in
  let article_rank :=
    match Dict.get article_rank_map image_id with Some r => r | None => 999%Z end in
  ranking_boost <- calculate_sigmoid_boost self base_score article_rank ;;
  let final_score := (base_score + ranking_boost)%float in
  Ok {| image_id := image_id;
        score := final_score;
        boost_detail := Some (base_score, ranking_boost, article_rank) |}.

(** Any exception inside the [try] gives the empty list. *)
Definition search_similar_images_with_ranking_boost (self : pipeline)
  (collection_name : string) (query_vector : list float)
  (candidate_image_ids : list string) (article_rank_map : list (string * Z))
  (top_k : nat) : list image_result :=
  match
    (search_result <- client_search collection_name query_vector
                        (Some candidate_image_ids) top_k ;;
     results <- map_result (boosted_result self article_rank_map) search_result ;;
     Ok (sort_by_score results))
  with
  | Ok results => results
  | Raise _ => []
  end.

Definition search_similar_images_no_filter (collection_name : string)
  (query_vector : list float) (top_k : nat) : list image_result :=
  match client_search collection_name query_vector None top_k with
  | Ok search_result =>
      map (fun h =>
             {| image_id := match payload_image_id h with Some i => i | None => "unknown" end;
                score := hit_score h;
                boost_detail := None |})
          search_result
  | Raise _ => []
  end.

Definition get_query_embedding (collection_name query_id : string) : option (list float) :=
  match client_scroll collection_name query_id with
  | Ok (point :: _) => point
  | _ => None
  end.

(** *** Stage-1 input *)

(** The cells [article_id_1], [article_id_2], ... of one CSV row (each a
    string, as [csv.DictReader] gives them for a full row), read until
    [max_articles] identifiers were kept. *)
Fixpoint extract_articles (max_articles : nat) (cells : list string)
  (article_ids : list string) : list string :=
  match cells with
  | [] => article_ids
  | c :: rest =>
      let article_id := PyStr.strip c in
      let article_ids' :=
        if negb (String.eqb article_id "") && negb (String.eqb article_id "#")
        then article_ids ++ [article_id]
        else article_ids in
      if max_articles <=? List.length article_ids' then article_ids'
      else extract_articles max_articles rest article_ids'
  end.

(** [load_and_classify_queries]: [query_to_articles], the queries with
    articles and those without. *)
Definition classify_row (max_articles : nat)
  (acc : list (string * list string) * list string * list string)
  (row : string * list string)
  : list (string * list string) * list string * list string :=
  let '(query_to_articles, queries_with_articles, queries_without_articles) := acc in
  let query_id := fst row in
  let article_ids := extract_articles max_articles (snd row) [] in
  (Dict.set query_to_articles query_id article_ids,
   match article_ids with
   | [] => queries_with_articles
   | _ => queries_with_articles ++ [query_id]
   end,
   match article_ids with
   | [] => queries_without_articles ++ [query_id]
   | _ => queries_without_articles
   end).

Definition load_and_classify_queries (csv : list (string * list string)) (max_articles : nat)
  : list (string * list string) * list string * list string :=
  fold_left (classify_row max_articles) csv ([], [], []).

(** *** Queries with articles *)

(** The candidate images of the ranked articles and the rank of the
    article of each image (a later article overwrites an earlier rank). *)
Fixpoint candidate_loop (a2i : list (string * list string)) (rank : nat)
  (article_ids : list string) (candidate_images : list string)
  (article_rank_map : list (string * Z)) : list string * list (string * Z) :=
  match article_ids with
  | [] => (candidate_images, article_rank_map)
  | article_id :: rest =>
      match Dict.get a2i article_id with
      | Some images =>
          candidate_loop a2i (S rank) rest (candidate_images ++ images)
            (fold_left (fun m image_id => Dict.set m image_id (Z.of_nat rank))
               images article_rank_map)
      | None => candidate_loop a2i (S rank) rest candidate_images article_rank_map
      end
  end.

(** Duplicates removed, the first occurrence kept. *)
Fixpoint unique (seen : list string) (l : list string) : list string :=
  match l with
  | [] => []
  | x :: r =>
      if existsb (String.eqb x) seen then unique seen r
      else x :: unique (x :: seen) r
  end.

Definition contains (l : list string) (x : string) : bool := existsb (String.eqb x) l.

Definition active_collections_with (self : pipeline) (query_collections' : list string)
  : list string :=
  match active_model_weights self with
  | Some w => filter (Dict.mem w) query_collections'
  | None =>
      match active_families self with
      | Some families =>
          flat_map (fun family_config =>
                      filter (contains query_collections') (query_collections family_config))
            (Dict.values families)
      | None => query_collections'
      end
  end.

Definition search_with_articles_collection (self : pipeline) (query_id search_collection' : string)
  (unique_candidates : list string) (article_rank_map : list (string * Z)) (top_k : nat)
  (query_results : list (string * list image_result)) (collection_name : string)
  : list (string * list image_result) :=
  match get_query_embedding collection_name query_id with
  | Some (x :: v) =>
      Dict.set query_results collection_name
        (search_similar_images_with_ranking_boost self search_collection' (x :: v)
           unique_candidates article_rank_map (top_k * 2))
  | _ => Dict.set query_results collection_name []
  end.

Fixpoint search_queries_with_articles_loop (self : pipeline) (queries : list string)
  (query_to_articles : list (string * list string)) (query_collections' : list string)
  (search_collection' : string) (top_k : nat)
  (all_results : list (string * list (string * list image_result)))
  : result (list (string * list (string * list image_result))) :=
  match queries with
  | [] => Ok all_results
  | query_id :: rest =>
      match Dict.get query_to_articles query_id with
      | None => Raise KeyError
      | Some article_ids =>
          let '(candidate_images, article_rank_map) :=
            candidate_loop (article_to_images self) 1 article_ids [] [] in
          match candidate_images with
          | [] =>
              search_queries_with_articles_loop self rest query_to_articles
                query_collections' search_collection' top_k all_results
          | _ =>
              let unique_candidates := unique [] candidate_images in
              let query_results :=
                fold_left
                  (search_with_articles_collection self query_id search_collection'
                     unique_candidates article_rank_map top_k)
                  (active_collections_with self query_collections') [] in
              search_queries_with_articles_loop self rest query_to_articles
                query_collections' search_collection' top_k
                (Dict.set all_results query_id query_results)
          end
      end
  end.

Definition search_queries_with_articles (self : pipeline) (queries : list string)
  (query_to_articles : list (string * list string)) (query_collections' : list string)
  (search_collection' : string) (top_k : nat)
  : result (list (string * list (string * list image_result))) :=
  search_queries_with_articles_loop self queries query_to_articles query_collections'
    search_collection' top_k [].

(** *** Queries without articles *)

Definition optimized_collections (self : pipeline) (query_collections' : list string)
  : list string :=
  let optimized :=
    filter (fun col => negb (PyStr.startswith col "Query-")) query_collections' in
  match active_model_weights self with
  | Some w => filter (Dict.mem w) optimized
  | None =>
      match active_families self with
      | Some families =>
          let active_collections_from_families :=
            flat_map query_collections (Dict.values families) in
          filter (contains active_collections_from_families) optimized
      | None => optimized
      end
  end.

Definition search_without_articles_collection (query_id search_collection' : string)
  (direct_search_top_k : nat) (query_results : list (string * list image_result))
  (collection_name : string) : list (string * list image_result) :=
  match get_query_embedding collection_name query_id with
  | Some (x :: v) =>
      Dict.set query_results collection_name
        (search_similar_images_no_filter search_collection' (x :: v) direct_search_top_k)
  | _ => Dict.set query_results collection_name []
  end.

Definition search_queries_without_articles (self : pipeline) (queries : list string)
  (query_collections' : list string) (search_collection' : string)
  (direct_search_top_k final_top_k : nat)
  : list (string * list (string * list image_result)) :=
  match optimized_collections self query_collections' with
  | [] => []
  | collections =>
      fold_left
        (fun all_results query_id =>
           Dict.set all_results query_id
             (fold_left
                (search_without_articles_collection query_id search_collection'
                   direct_search_top_k)
                collections []))
        queries []
  end.

(** *** Aggregation over the view collections of a family *)

Definition active_weights (self : pipeline) : list (string * Q) :=
  match active_model_weights self with
  | Some w => w
  | None =>
      match active_families self with
      | Some families =>
          fold_left
            (fun acc family_config =>
               fold_left
                 (fun acc' col =>
                    match Dict.get (model_weights self) col with
                    | Some w => Dict.set acc' col w
                    | None => acc'
                    end)
                 (query_collections family_config) acc)
            (Dict.values families) []
      | None => model_weights self
      end
  end.

(** The score one occurrence adds: the weight when voting, otherwise
    [weight / (k + rank)]. *)
Definition vote_score (voting : bool) (weight : Q) (k : Z) (rank : nat) : result Q :=
  if voting then Ok weight
  else if (k + Z.of_nat rank =? 0)%Z then Raise ZeroDivisionError
  else Ok (weight / inject_Z (k + Z.of_nat rank))%Q.

(** [for rank, result in enumerate(results, 1)] *)
Fixpoint add_results (voting : bool) (weight : Q) (k : Z) (rank : nat)
  (results : list image_result) (image_scores : list (string * Q))
  : result (list (string * Q)) :=
  match results with
  | [] => Ok image_scores
  | r :: rest =>
      v <- vote_score voting weight k rank ;;
      add_results voting weight k (S rank) rest (Dict.add image_scores (image_id r) v)
  end.

(** [for collection_name, results in collection_results.items()] *)
Fixpoint add_collections (voting : bool) (weights : list (string * Q)) (k : Z)
  (collection_results : list (string * list image_result))
  (image_scores : list (string * Q)) : result (list (string * Q)) :=
  match collection_results with
  | [] => Ok image_scores
  | (collection_name, results) :: rest =>
      let weight := match Dict.get weights collection_name with Some w => w | None => 0%Q end in
      if Qle_bool weight 0 then add_collections voting weights k rest image_scores
      else
        image_scores' <- add_results voting weight k 1 results image_scores ;;
        add_collections voting weights k rest image_scores'
  end.

Fixpoint aggregate_loop (voting : bool) (weights : list (string * Q)) (k : Z)
  (search_results : list (string * list (string * list image_result)))
  (final_results : list (string * list string)) : result (list (string * list string)) :=
  match search_results with
  | [] => Ok final_results
  | (query_id, collection_results) :: rest =>
      image_scores <- add_collections voting weights k collection_results [] ;;
      let sorted_images := Dict.sorted_desc image_scores in
      aggregate_loop voting weights k rest
        (Dict.set final_results query_id (firstn 50 (map fst sorted_images)))
  end.

Definition _aggregate_final_collections (self : pipeline)
  (search_results : list (string * list (string * list image_result))) (voting : bool)
  : result (list (string * list string)) :=
  aggregate_loop voting (active_weights self) (rrf_k self) search_results [].

Definition rrf_final_collections (self : pipeline)
  (search_results : list (string * list (string * list image_result)))
  : result (list (string * list string)) :=
  _aggregate_final_collections self search_results false.

Definition voting_final_collections (self : pipeline)
  (search_results : list (string * list (string * list image_result)))
  : result (list (string * list string)) :=
  _aggregate_final_collections self search_results true.

(** *** Aggregation across families *)

Record family_data : Type := {
  results : list (string * list string);
  weight : Q
}.

(** [for rank, image_id in enumerate(family_query_results, 1)], an entry
    counting only [if rank <= final_top_k]. *)
Fixpoint add_family_images (voting : bool) (family_weight' : Q) (k : Z) (final_top_k rank : nat)
  (images : list string) (image_scores : list (string * Q)) : result (list (string * Q)) :=
  match images with
  | [] => Ok image_scores
  | image_id :: rest =>
      if rank <=? final_top_k then
        v <- vote_score voting family_weight' k rank ;;
        add_family_images voting family_weight' k final_top_k (S rank) rest
          (Dict.add image_scores image_id v)
      else add_family_images voting family_weight' k final_top_k (S rank) rest image_scores
  end.

Fixpoint add_families (voting : bool) (k : Z) (final_top_k : nat) (query_id : string)
  (family_results : list (string * family_data)) (image_scores : list (string * Q))
  : result (list (string * Q)) :=
  match family_results with
  | [] => Ok image_scores
  | (_, data) :: rest =>
      let family_query_results :=
        match Dict.get (results data) query_id with Some l => l | None => [] end in
      image_scores' <- add_family_images voting (weight data) k final_top_k 1
                         family_query_results image_scores ;;
      add_families voting k final_top_k query_id rest image_scores'
  end.

(** The query ids of all families; Python iterates over a [set], whose
    order is not observable in the sorted CSV: first occurrences here. *)
Definition family_query_ids (family_results : list (string * family_data)) : list string :=
  unique [] (flat_map (fun f => Dict.keys (results (snd f))) family_results).

Fixpoint multi_model_loop (voting : bool) (k : Z) (final_top_k : nat)
  (family_results : list (string * family_data)) (ids : list string)
  (final_results : list (string * list string)) : result (list (string * list string)) :=
  match ids with
  | [] => Ok final_results
  | query_id :: rest =>
      image_scores <- add_families voting k final_top_k query_id family_results [] ;;
      let sorted_images := Dict.sorted_desc image_scores in
      multi_model_loop voting k final_top_k family_results rest
        (Dict.set final_results query_id (firstn final_top_k (map fst sorted_images)))
  end.

Definition multi_model_rrf (self : pipeline) (family_results : list (string * family_data))
  (final_top_k : nat) (voting : bool) : result (list (string * list string)) :=
  multi_model_loop voting (multi_model_rrf_k self) final_top_k family_results
    (family_query_ids family_results) [].

(** *** The two image-search pipelines *)

(** The two branches and the [update]s that merge their results, as both
    pipelines run them for one list of view collections. *)
Definition family_search (self : pipeline) (query_to_articles : list (string * list string))
  (queries_with_articles queries_without_articles : list string)
  (query_collections' : list string) (search_collection' : string)
  (direct_search_top_k final_top_k : nat)
  : result (list (string * list (string * list image_result))) :=
  results_with_articles <-
    match queries_with_articles with
    | [] => Ok []
    | _ =>
        search_queries_with_articles self queries_with_articles query_to_articles
          query_collections' search_collection' final_top_k
    end ;;
  let results_without_articles :=
    match queries_without_articles with
    | [] => []
    | _ =>
        search_queries_without_articles self queries_without_articles
          query_collections' search_collection' direct_search_top_k final_top_k
    end in
  Ok (Dict.update (Dict.update [] results_with_articles) results_without_articles).

Fixpoint family_loop (self : pipeline) (query_to_articles : list (string * list string))
  (queries_with_articles queries_without_articles : list string)
  (direct_search_top_k final_top_k : nat)
  (families : list (string * family_config)) (family_results : list (string * family_data))
  : result (list (string * family_data)) :=
  match families with
  | [] => Ok family_results
  | (family_name, family_config) :: rest =>
      family_search_results <-
        family_search self query_to_articles queries_with_articles queries_without_articles
          (query_collections family_config) (search_collection family_config)
          direct_search_top_k final_top_k ;;
      family_final_results <-
        _aggregate_final_collections self family_search_results (use_voting self) ;;
      family_loop self query_to_articles queries_with_articles queries_without_articles
        direct_search_top_k final_top_k rest
        (Dict.set family_results family_name
           {| results := family_final_results; weight := family_weight family_config |})
  end.

Definition multi_model_image_search_pipeline (self : pipeline)
  (text_search_csv : list (string * list string))
  (max_articles_per_query direct_search_top_k final_top_k : nat)
  : result (list (string * list string)) :=
  if negb (enable_multi_model self) then Raise ValueError
  else
    match active_families self with
    | None => Raise AttributeError
    | Some families =>
        let '(query_to_articles, queries_with_articles, queries_without_articles) :=
          load_and_classify_queries text_search_csv max_articles_per_query in
        family_results <-
          family_loop self query_to_articles queries_with_articles queries_without_articles
            direct_search_top_k final_top_k families [] ;;
        multi_model_rrf self family_results final_top_k (use_voting self)
    end.

Definition get_query_collection_name (self : pipeline) (base_name : string) : string :=
  if private_test_mode self then String.append "Private_" base_name
  else String.append "Public_" base_name.

Definition image_search_pipeline (self : pipeline)
  (text_search_csv : list (string * list string))
  (query_collections' : option (list string)) (search_collection' : option string)
  (max_articles_per_query direct_search_top_k final_top_k : nat)
  : result (list (string * list string)) :=
  let large view :=
    String.append view (String.append "_" (String.append (primary_checkpoint self) "_Large")) in
  let cols :=
    match query_collections' with
    | Some l => l
    | None => map (fun v => get_query_collection_name self (large v)) ["Query"; "Summary"; "Concise"]
    end in
  database <-
    match search_collection' with
    | Some c => Ok c
    | None =>
        match Dict.get database_mapping (primary_checkpoint self) with
        | Some database_name =>
            Ok (String.append "Database_" (String.append database_name "_Large"))
        | None => Raise KeyError
        end
    end ;;
  let cols :=
    match active_model_weights self with
    | Some w => filter (Dict.mem w) cols
    | None => cols
    end in
  match cols with
  | [] => Ok []
  | _ =>
      let '(query_to_articles, queries_with_articles, queries_without_articles) :=
        load_and_classify_queries text_search_csv max_articles_per_query in
      all_search_results <-
        family_search self query_to_articles queries_with_articles queries_without_articles
          cols database direct_search_top_k final_top_k ;;
      _aggregate_final_collections self all_search_results (use_voting self)
  end.

(** *** The stage-2 CSV *)

Record csv_file : Type := {
  header : list string;
  data : list (list string)
}.

Definition column_name (prefix : string) (i : nat) : string :=
  String.append prefix (NilEmpty.string_of_uint (Nat.to_uint i)).

(** [sorted(final_results.keys())] *)
Definition sorted_keys (final_results : list (string * list string)) : list string :=
  fold_right RRF.insert_uniq [] (Dict.keys final_results).

Definition image_row (final_results : list (string * list string)) (query_id : string)
  : list string :=
  let images := match Dict.get final_results query_id with Some l => l | None => [] end in
  query_id :: fill 50 images.

Definition save_final_image_results (final_results : list (string * list string)) : csv_file :=
  {| header := "query_id" :: map (column_name "image_id_") (seq 1 10);
     data := map (image_row final_results) (sorted_keys final_results) |}.

(** The image step of [run_integrated_cascade_pipeline] and of the
    image-search-only mode of [main], followed by the CSV writer. *)
Definition image_stage (self : pipeline) (submission_csv : list (string * list string))
  (max_articles_per_query direct_search_top_k final_top_k : nat) : result csv_file :=
  final_results <-
    (if enable_multi_model self
     then multi_model_image_search_pipeline self submission_csv
            max_articles_per_query direct_search_top_k final_top_k
     else image_search_pipeline self submission_csv None None
            max_articles_per_query direct_search_top_k final_top_k) ;;
  Ok (save_final_image_results final_results).

End Search.

End Pipeline.

(** ** entity_search_system.py: the entity-weighted article search *)

Module EntitySearch.

(** A JSON value of an entity field, as far as the search distinguishes
    them: only a string has [strip]. *)
Inductive jvalue : Type :=
| JStr (s : string)
| JNull
| JNum (z : Z).

(** An entity of a query document; a key may be absent. *)
Record entity : Type := {
  text : option jvalue;
  label : option jvalue
}.

(** The clauses of the [should] list: the weighted match of the entity
    text (exact, fuzzy and lower-cased prefix under one boost) and the
    same-label bonus. *)
Inductive clause : Type :=
| weighted_query (entity_text lowered : string) (boost : Q)
| bonus_weighted_query (entity_text : string) (entity_label : jvalue) (boost : Q).

Record search_query : Type := {
  should : list clause;
  size : nat
}.

(** A hit of the index response, each key possibly absent. *)
Record article_source : Type := {
  article_id : option string;
  source_entities : option (list entity)
}.

Record es_hit : Type := {
  _source : option article_source;
  _score : option Q;
  highlight : option (list string)
}.

(** The response of [requests.post]: the status code and what
    [response.json()] gives, [hits] being [result["hits"]["hits"]] when
    both keys are there. *)
Record response : Type := {
  status_code : Z;
  json : result (option (list es_hit))
}.

Record search_result : Type := {
  rank : nat;
  result_article_id : string;
  score : Q;
  entities : list entity;
  highlights : list string
}.

Definition entity_weights : list (string * Q) :=
  [ ("PERSON", 43 # 10); ("CARDINAL", 35 # 10); ("ORG", 38 # 10); ("GPE", 31 # 10);
    ("EVENT", 29 # 10); ("FAC", 25 # 10); ("NORP", 22 # 10); ("TIME", 21 # 10);
    ("DATE", 2); ("PRODUCT", 2); ("LAW", 18 # 10); ("LOC", 18 # 10);
    ("WORK_OF_ART", 15 # 10); ("MONEY", 15 # 10); ("PERCENT", 15 # 10);
    ("QUANTITY", 13 # 10); ("LANGUAGE", 12 # 10); ("ORDINAL", 12 # 10);
    ("MISC", 1); ("DEFAULT", 1) ]%Q.

(** [str.lower] on the ASCII range. *)
Definition lower_ascii (c : ascii) : ascii :=
  let n := nat_of_ascii c in
  if (65 <=? n) && (n <=? 90) then ascii_of_nat (n + 32) else c.

Fixpoint lower (s : string) : string :=
  match s with
  | EmptyString => EmptyString
  | String c s' => String (lower_ascii c) (lower s')
  end.

(** [if entity_label:] *)
Definition truthy (v : jvalue) : bool :=
  match v with
  | JStr s => negb (String.eqb s "")
  | JNull => false
  | JNum z => negb (z =? 0)%Z
  end.

Section Search.

(** The index: [requests.post] on the articles index. *)
Variable post : search_query -> result response.
Variable weights : list (string * Q).

(** The body of [for entity in query_entities]. *)
Definition entity_clauses (e : entity) : result (list clause) :=
  entity_text <-
    match text e with
    | None => Ok ""
    | Some (JStr s) => Ok (PyStr.strip s)
    | Some _ => Raise AttributeError
    end ;;
  let entity_label := match label e with Some v => v | None => JStr "" end in
  if String.eqb entity_text "" then Ok []
  else
    default <-
      match Dict.get weights "DEFAULT" with
      | Some w => Ok w
      | None => Raise KeyError
      end ;;
    let weight :=
      match entity_label with
      | JStr l => match Dict.get weights l with Some w => w | None => default end
      | _ => default
      end in
    Ok (weighted_query entity_text (lower entity_text) weight
        :: (if truthy entity_label
            then [bonus_weighted_query entity_text entity_label (weight * (13 # 10))%Q]
            else [])).

Fixpoint should_queries (query_entities : list entity) : result (list clause) :=
  match query_entities with
  | [] => Ok []
  | e :: rest =>
      cs <- entity_clauses e ;;
      more <- should_queries rest ;;
      Ok (cs ++ more)
  end.

(** The body of [for i, hit in enumerate(hits, 1)]. *)
Definition read_hit (i : nat) (h : es_hit) : result search_result :=
  match _source h with
  | None => Raise KeyError
  | Some article_data =>
      match article_id article_data, _score h with
      | Some a, Some sc =>
          Ok {| rank := i;
                result_article_id := a;
                score := sc;
                entities := match source_entities article_data with Some l => l | None => [] end;
                highlights := match highlight h with Some l => l | None => [] end |}
      | _, _ => Raise KeyError
      end
  end.

Fixpoint read_hits (i : nat) (hits : list es_hit) : result (list search_result) :=
  match hits with
  | [] => Ok []
  | h :: rest =>
      r <- read_hit i h ;;
      more <- read_hits (S i) rest ;;
      Ok (r :: more)
  end.

(** What the [try] block computes, before [except Exception]. *)
Definition request_articles (q : search_query) : result (list search_result) :=
  resp <- post q ;;
  if (status_code resp =? 200)%Z then
    hits <- json resp ;;
    match hits with
    | None => Raise KeyError
    | Some l => read_hits 1 l
    end
  else Ok [].

Definition search_articles_for_query (query_entities : list entity) (top_k : nat)
  : result (list search_result) :=
  match query_entities with
  | [] => Ok []
  | _ =>
      clauses <- should_queries query_entities ;;
      match clauses with
      | [] => Ok []
      | _ =>
          match request_articles {| should := clauses; size := top_k |} with
          | Ok search_results => Ok search_results
          | Raise _ => Ok []
          end
      end
  end.

End Search.

End EntitySearch.

(** ** entity_search_system.py and search_pipeline.py: the stage-1 driver *)

Module Stage1.

Import EntitySearch.

(** A document of the queries index as the scroll API returns it; a key
    may be absent. *)
Record query_source : Type := {
  src_query_id : option string;
  src_query_text : option string;
  src_entities : option (list entity)
}.

Record query_hit : Type := {
  hit_source : option query_source
}.

(** An element of [all_queries]. *)
Record query : Type := {
  query_id : string;
  query_text : string;
  query_entities : list entity
}.

(** What [response.json()] gives: [result.get("_scroll_id")] and
    [result["hits"]["hits"]] when both keys are there. *)
Record page : Type := {
  _scroll_id : option string;
  hits : option (list query_hit)
}.

Record reply : Type := {
  reply_status : Z;
  reply_json : result page
}.

(** The body of [for hit in hits]. *)
Definition read_query (h : query_hit) : result query :=
  match hit_source h with
  | None => Raise KeyError
  | Some query_data =>
      match src_query_id query_data with
      | None => Raise KeyError
      | Some q =>
          Ok {| query_id := q;
                query_text := match src_query_text query_data with Some t => t | None => "" end;
                query_entities := match src_entities query_data with Some l => l | None => [] end |}
      end
  end.

(** [if scroll_id:] *)
Definition has_scroll (scroll_id : option string) : bool :=
  match scroll_id with
  | Some s => negb (String.eqb s "")
  | None => false
  end.

(** A file of the store: a frame written by [to_csv], or the stage-1
    JSON report. *)
Inductive file : Type :=
| CsvFile (df : RRF.DataFrame)
| JsonFile (submission_data : list (string * list string)).

(** [os.path.join(a, b)] *)
Fixpoint ends_with_sep (a : string) : bool :=
  match a with
  | EmptyString => false
  | String c EmptyString => Ascii.eqb c "/"
  | String _ rest => ends_with_sep rest
  end.

Definition os_path_join (a b : string) : string :=
  if PyStr.startswith b "/" then b
  else if String.eqb a "" || ends_with_sep a then String.append a b
  else String.append a (String.append "/" b).

(** [auto_fill_empty_cells]: [fillna], [replace('', fill_value)] and the
    columns [article_id_1 .. article_id_top_k] added when missing. *)
Definition fill_cell (fill_value : string) (c : RRF.cell) : RRF.cell :=
  match c with
  | RRF.NaN => RRF.Str fill_value
  | RRF.Str s => if String.eqb s "" then RRF.Str fill_value else RRF.Str s
  end.

Definition auto_fill_empty_cells (df : RRF.DataFrame) (top_k : nat) (fill_value : string)
  : RRF.DataFrame :=
  {| RRF.n_cols := Nat.max (RRF.n_cols df) top_k;
     RRF.rows :=
       map (fun r =>
              (if String.eqb (fst r) "" then fill_value else fst r,
               map (fill_cell fill_value) (snd r)
               ++ repeat (RRF.Str fill_value) (top_k - RRF.n_cols df)))
         (RRF.rows df) |}.

(** [submission_row]: [article_id_j] is the id of the [j]-th result, or
    the empty string past the results. *)
Definition submission_row (top_k : nat) (query_id : string)
  (search_results : list search_result) : string * list string :=
  (query_id,
   map (fun j =>
          match nth_error search_results (j - 1) with
          | Some r => result_article_id r
          | None => ""
          end)
       (seq 1 top_k)).

Section Driver.

(** The collaborators: the first search on the queries index, the [n]-th
    call of the scroll endpoint with a scroll id, the call that clears the
    scroll; the articles index and the weight table of the search; whether
    a path can be written; and the time stamp of the run. *)
Variable first_search : result reply.
Variable scroll : nat -> option string -> result reply.
Variable clear_scroll : option string -> result unit.
Variable post : search_query -> result response.
Variable weights : list (string * Q).
Variable writable : string -> bool.
Variable timestamp : string.

(** [while len(hits) > 0]: the loop ends on an empty page or on a status
    other than 200; [None] when [fuel] calls were not enough. *)
Fixpoint scroll_loop (fuel n : nat) (scroll_id : option string) (hits' : list query_hit)
  (all_queries : list query) : option (result (list query * option string)) :=
  match hits' with
  | [] => Some (Ok (all_queries, scroll_id))
  | _ :: _ =>
      match fuel with
      | 0 => None
      | S fuel' =>
          match scroll n scroll_id with
          | Raise e => Some (Raise e)
          | Ok scroll_response =>
              if (reply_status scroll_response =? 200)%Z then
                match reply_json scroll_response with
                | Raise e => Some (Raise e)
                | Ok scroll_result =>
                    match hits scroll_result with
                    | None => Some (Raise KeyError)
                    | Some next_hits =>
                        match Pipeline.map_result read_query next_hits with
                        | Raise e => Some (Raise e)
                        | Ok batch =>
                            scroll_loop fuel' (S n) (_scroll_id scroll_result) next_hits
                              (all_queries ++ batch)
                        end
                    end
                end
              else Some (Ok (all_queries, scroll_id))
          end
      end
  end.

(** What the [try] block of [get_all_queries] computes. *)
Definition collect_queries (fuel : nat) : option (result (list query)) :=
  match first_search with
  | Raise e => Some (Raise e)
  | Ok response =>
      if (reply_status response =? 200)%Z then
        match reply_json response with
        | Raise e => Some (Raise e)
        | Ok result' =>
            match hits result' with
            | None => Some (Raise KeyError)
            | Some first_hits =>
                match Pipeline.map_result read_query first_hits with
                | Raise e => Some (Raise e)
                | Ok batch =>
                    match scroll_loop fuel 0 (_scroll_id result') first_hits batch with
                    | None => None
                    | Some (Raise e) => Some (Raise e)
                    | Some (Ok (all_queries, scroll_id)) =>
                        if has_scroll scroll_id then
                          match clear_scroll scroll_id with
                          | Raise e => Some (Raise e)
                          | Ok _ => Some (Ok all_queries)
                          end
                        else Some (Ok all_queries)
                    end
                end
            end
        end
      else Some (Ok [])
  end.

(** [except Exception: return []] *)
Definition get_all_queries (fuel : nat) : option (list query) :=
  match collect_queries fuel with
  | None => None
  | Some (Ok all_queries) => Some all_queries
  | Some (Raise _) => Some []
  end.

(** The body of [for i, query in enumerate(all_queries, 1)]: the row of
    the results, or the empty row when there is none or the search
    raised. *)
Definition search_row (top_k : nat) (q : query) : string * list string :=
  match search_articles_for_query post weights (query_entities q) top_k with
  | Ok (r :: rs) => submission_row top_k (query_id q) (r :: rs)
  | _ => submission_row top_k (query_id q) []
  end.

(** [pd.DataFrame(submission_data).reindex(columns=fieldnames)] *)
Definition submission_frame (top_k : nat) (submission_data : list (string * list string))
  : RRF.DataFrame :=
  {| RRF.n_cols := top_k;
     RRF.rows := map (fun r => (fst r, map RRF.Str (snd r))) submission_data |}.

(** [search_all_queries_and_save]: the store after the call and what is
    returned, [None] for the bare [return] when no query was found, else
    [submission_data] and the name of the file.  The name given by the
    caller is replaced in every case. *)
Definition search_all_queries_and_save (files : list (string * file))
  (output_submission_csv : string) (top_k : nat) (auto_fill : bool)
  (max_queries : option nat) (postfix : string) (fuel : nat)
  : option (list (string * file) * option (list (string * list string) * string)) :=
  let output_submission_csv :=
    if negb (String.eqb postfix "")
    then String.append "submission_" (String.append postfix ".csv")
    else String.append "submission_" (String.append timestamp ".csv") in
  match get_all_queries fuel with
  | None => None
  | Some [] => Some (files, None)
  | Some all_queries =>
      let all_queries :=
        match max_queries with
        | Some (S n) =>
            if S n <? List.length all_queries then firstn (S n) all_queries else all_queries
        | _ => all_queries
        end in
      let submission_data := map (search_row top_k) all_queries in
      let submission_df := submission_frame top_k submission_data in
      let submission_df :=
        if auto_fill then auto_fill_empty_cells submission_df top_k "#" else submission_df in
      let files' :=
        if writable output_submission_csv
        then Dict.set files output_submission_csv (CsvFile submission_df)
        else files in
      Some (files', Some (submission_data, output_submission_csv))
  end.

(** [text_search_pipeline]: the store after the call and the two paths
    returned. *)
Definition text_search_pipeline (files : list (string * file)) (output_dir : option string)
  (filename_suffix : string) (top_k : nat) (max_queries : option nat) (fuel : nat)
  : option (result (list (string * file) * (string * option string))) :=
  let submission := String.append "submission_" (String.append filename_suffix ".csv") in
  let stage_1 := String.append "stage_1_" (String.append filename_suffix ".json") in
  let postfix := String.append "_" filename_suffix in
  match output_dir with
  | Some (String c d) =>
      let output_dir := String c d in
      let csv_path := os_path_join output_dir submission in
      let json_path := os_path_join output_dir stage_1 in
      match search_all_queries_and_save files csv_path top_k true max_queries postfix fuel with
      | None => None
      | Some (_, None) => Some (Raise AttributeError)
      | Some (files', Some (submission_data, _)) =>
          if writable json_path
          then Some (Ok (Dict.set files' json_path (JsonFile submission_data),
                         (csv_path, Some json_path)))
          else Some (Ok (files', (csv_path, None)))
      end
  | _ =>
      match search_all_queries_and_save files submission top_k true max_queries postfix fuel with
      | None => None
      | Some (files', _) => Some (Ok (files', (submission, Some stage_1)))
      end
  end.

End Driver.

End Stage1.

(** * Properties *)

(** ** Dictionaries of scores *)

Module DictFacts.

Import Dict.

(** The contributions [(key, value)] added to a dictionary, in order. *)
Definition add_all (d cs : list (string * Q)) : list (string * Q) :=
  fold_left (fun acc kv => add acc (fst kv) (snd kv)) cs d.

Definition qsum (l : list Q) : Q := fold_right Qplus 0%Q l.

(** What the contributions give one key. *)
Definition total (cs : list (string * Q)) (item : string) : Q :=
  qsum (map snd (filter (fun kv => String.eqb (fst kv) item) cs)).

Lemma In_firstn {A : Type} (n : nat) (l : list A) (x : A) : In x (firstn n l) -> In x l.
Proof.
  revert l. induction n as [|n IH]; intros [|y l] H; cbn in H; try contradiction.
  destruct H as [H|H]; [left; exact H | right; apply IH, H].
Qed.

Lemma add_all_app d cs1 cs2 : add_all d (cs1 ++ cs2) = add_all (add_all d cs1) cs2.
Proof. unfold add_all. apply fold_left_app. Qed.

Lemma total_app cs1 cs2 item : (total (cs1 ++ cs2) item == total cs1 item + total cs2 item)%Q.
Proof.
  unfold total. rewrite filter_app, map_app.
  induction (map snd (filter (fun kv => String.eqb (fst kv) item) cs1)) as [|x l IH]; simpl.
  - ring.
  - rewrite IH. ring.
Qed.

Lemma total_nil item : total [] item = 0%Q.
Proof. reflexivity. Qed.

Lemma total_cons_eq key v cs : (total ((key, v) :: cs) key == v + total cs key)%Q.
Proof. unfold total. simpl. rewrite String.eqb_refl. simpl. reflexivity. Qed.

Lemma total_cons_neq key v cs item :
  key <> item -> total ((key, v) :: cs) item = total cs item.
Proof.
  intros H. unfold total. simpl.
  destruct (String.eqb_spec key item); [contradiction | reflexivity].
Qed.

Lemma total_map {A : Type} (key : A -> string) (val : A -> Q) (l : list A) item :
  (total (map (fun a => (key a, val a)) l) item ==
   qsum (map (fun a => if String.eqb (key a) item then val a else 0%Q) l))%Q.
Proof.
  unfold total. induction l as [|a l IH]; [reflexivity|].
  cbn [map filter fst]. destruct (String.eqb (key a) item); cbn [map snd qsum fold_right].
  - unfold qsum in IH. rewrite IH. reflexivity.
  - unfold qsum in IH. rewrite IH. ring.
Qed.

Lemma score_add_same d key v : (score (add d key v) key == score d key + v)%Q.
Proof.
  unfold score. induction d as [|[k' x] d IH]; simpl.
  - rewrite String.eqb_refl. reflexivity.
  - destruct (String.eqb_spec k' key) as [-> |Hne]; simpl.
    + rewrite String.eqb_refl. reflexivity.
    + destruct (String.eqb_spec k' key); [contradiction | exact IH].
Qed.

Lemma score_add_other d key v item : key <> item -> score (add d key v) item = score d item.
Proof.
  intros Hne. unfold score. induction d as [|[k' x] d IH]; simpl.
  - destruct (String.eqb_spec key item); [contradiction | reflexivity].
  - destruct (String.eqb_spec k' key) as [-> |Hk]; simpl.
    + destruct (String.eqb_spec key item); [contradiction | reflexivity].
    + destruct (String.eqb_spec k' item); [reflexivity | exact IH].
Qed.

Lemma score_add_all d cs item : (score (add_all d cs) item == score d item + total cs item)%Q.
Proof.
  revert d. induction cs as [|[key v] cs IH]; intros d.
  - simpl. rewrite total_nil. ring.
  - change (add_all d ((key, v) :: cs)) with (add_all (add d key v) cs).
    rewrite IH. destruct (String.eqb_spec key item) as [-> |Hne].
    + rewrite score_add_same, total_cons_eq. ring.
    + rewrite score_add_other, total_cons_neq by assumption. reflexivity.
Qed.

Lemma keys_add d key v :
  keys (add d key v) = if mem d key then keys d else keys d ++ [key].
Proof.
  unfold keys, mem. induction d as [|[k' x] d IH]; simpl.
  - reflexivity.
  - destruct (String.eqb_spec k' key) as [-> |Hne]; simpl.
    + reflexivity.
    + rewrite IH. destruct (get d key); reflexivity.
Qed.

Lemma mem_In (d : list (string * Q)) key : mem d key = true <-> In key (keys d).
Proof.
  unfold mem, keys. induction d as [|[k' x] d IH]; simpl.
  - split; [discriminate | tauto].
  - destruct (String.eqb_spec k' key) as [-> |Hne].
    + split; auto.
    + rewrite IH. split; [auto | intros [H|H]; [contradiction | exact H]].
Qed.

Lemma In_keys_add d key v item : In item (keys (add d key v)) <-> In item (keys d) \/ item = key.
Proof.
  rewrite keys_add. destruct (mem d key) eqn:E.
  - apply mem_In in E. split; [auto | intros [H| ->]; assumption].
  - rewrite in_app_iff. simpl. split.
    + intros [H|[H|[]]]; auto.
    + intros [H|H]; auto.
Qed.

Lemma NoDup_keys_add d key v : NoDup (keys d) -> NoDup (keys (add d key v)).
Proof.
  intros H. rewrite keys_add. destruct (mem d key) eqn:E; [exact H|].
  apply NoDup_app_remove_l with (l := []). simpl.
  assert (Hn : ~ In key (keys d)).
  { intros Hin. apply mem_In in Hin. congruence. }
  clear E. induction H as [|x l Hx Hl IH]; simpl.
  - constructor; [tauto | constructor].
  - constructor.
    + rewrite in_app_iff. simpl. intros [H1|[H1|[]]]; [contradiction|].
      apply Hn. left. congruence.
    + apply IH. intros H1. apply Hn. right. exact H1.
Qed.

Lemma In_keys_add_all d cs item :
  In item (keys (add_all d cs)) <-> In item (keys d) \/ In item (map fst cs).
Proof.
  revert d. induction cs as [|[key v] cs IH]; intros d; simpl.
  - tauto.
  - change (add_all d ((key, v) :: cs)) with (add_all (add d key v) cs).
    rewrite IH, In_keys_add. intuition congruence.
Qed.

Lemma NoDup_keys_add_all d cs : NoDup (keys d) -> NoDup (keys (add_all d cs)).
Proof.
  revert d. induction cs as [|[key v] cs IH]; intros d H; simpl.
  - exact H.
  - apply IH, NoDup_keys_add, H.
Qed.

Lemma score_In d item v : NoDup (keys d) -> In (item, v) d -> score d item = v.
Proof.
  unfold score, keys. induction d as [|[k' x] d IH]; simpl; intros Hnd Hin.
  - contradiction.
  - inversion Hnd as [|? ? Hnot Hrest]; subst.
    destruct Hin as [Heq|Hin].
    + inversion Heq; subst. rewrite String.eqb_refl. reflexivity.
    + destruct (String.eqb_spec k' item) as [-> |Hne].
      * exfalso. apply Hnot. apply in_map_iff. exists (item, v). auto.
      * apply IH; assumption.
Qed.

(** *** The descending sort *)

Lemma insert_desc_perm x l : Permutation (insert_desc x l) (x :: l).
Proof.
  induction l as [|y r IH]; simpl.
  - reflexivity.
  - destruct (Qle_bool (snd y) (snd x)).
    + reflexivity.
    + rewrite IH. apply perm_swap.
Qed.

Lemma sorted_desc_perm l : Permutation (sorted_desc l) l.
Proof.
  induction l as [|x l IH]; simpl.
  - reflexivity.
  - rewrite insert_desc_perm. constructor. exact IH.
Qed.

Definition above (x y : string * Q) : Prop := (snd y <= snd x)%Q.

Lemma insert_desc_sorted x l :
  StronglySorted above l -> StronglySorted above (insert_desc x l).
Proof.
  induction 1 as [|y r Hr IH Hy]; simpl.
  - constructor; constructor.
  - destruct (Qle_bool (snd y) (snd x)) eqn:E.
    + apply Qle_bool_iff in E. constructor.
      * constructor; assumption.
      * constructor; [exact E|].
        rewrite Forall_forall in Hy |- *. intros z Hz.
        unfold above in *. eapply Qle_trans; [apply Hy, Hz | exact E].
    + constructor; [exact IH|].
      assert (Hxy : above y x).
      { unfold above. destruct (Qlt_le_dec (snd y) (snd x)) as [Hlt|Hle]; [|exact Hle].
        apply Qlt_le_weak in Hlt. apply Qle_bool_iff in Hlt. congruence. }
      rewrite Forall_forall in Hy |- *. intros z Hz.
      apply (Permutation_in _ (insert_desc_perm x r)) in Hz.
      destruct Hz as [<-|Hz]; [exact Hxy | apply Hy, Hz].
Qed.

Lemma sorted_desc_sorted l : StronglySorted above (sorted_desc l).
Proof.
  induction l as [|x l IH]; simpl.
  - constructor.
  - apply insert_desc_sorted, IH.
Qed.

(** The keys in ranking order: a permutation of the keys, by descending
    score. *)
Definition ranking (d : list (string * Q)) : list string := map fst (sorted_desc d).

Definition descending (f : string -> Q) (l : list string) : Prop :=
  StronglySorted (fun a b => (f b <= f a)%Q) l.

Lemma ranking_perm d : Permutation (ranking d) (keys d).
Proof. unfold ranking, keys. apply Permutation_map, sorted_desc_perm. Qed.

Lemma ranking_NoDup d : NoDup (keys d) -> NoDup (ranking d).
Proof.
  intros H. eapply Permutation_NoDup; [|exact H].
  symmetry. apply ranking_perm.
Qed.

Lemma ranking_descending d : NoDup (keys d) -> descending (score d) (ranking d).
Proof.
  intros Hnd. unfold descending, ranking.
  assert (Hin : forall kv, In kv (sorted_desc d) -> score d (fst kv) = snd kv).
  { intros [k v] H. apply score_In; [exact Hnd|].
    eapply Permutation_in; [apply sorted_desc_perm | exact H]. }
  pose proof (sorted_desc_sorted d) as Hs.
  induction Hs as [|x l Hl IH Hx]; simpl.
  - constructor.
  - constructor.
    + apply IH. intros kv H. apply Hin. right. exact H.
    + rewrite Forall_forall in Hx |- *. intros b Hb.
      apply in_map_iff in Hb. destruct Hb as [kv [<- Hkv]].
      rewrite (Hin x (or_introl eq_refl)), (Hin kv (or_intror Hkv)).
      apply Hx, Hkv.
Qed.

Lemma descending_ext f g l :
  (forall x, (f x == g x)%Q) -> descending f l -> descending g l.
Proof.
  intros Hfg. unfold descending. induction 1 as [|x l Hl IH Hx]; constructor.
  - exact IH.
  - rewrite Forall_forall in Hx |- *. intros b Hb.
    rewrite <- (Hfg b), <- (Hfg x). apply Hx, Hb.
Qed.

End DictFacts.

(** ** The standalone reranker *)

Module RRFFacts.

Import RRF DictFacts.

(** The cell of column [r] ([article_id_r]) of a row. *)
Definition column (cells : list cell) (r : nat) : cell := nth (r - 1) cells NaN.

Definition rrf_term (k : Z) (r : nat) : Q := (1 / inject_Z (k + Z.of_nat r))%Q.

Definition cell_text (c : cell) : string :=
  match c with Str s => s | NaN => "" end.

(** The columns of a row that hold an item, in increasing order. *)
Definition valid_columns (cells : list cell) : list nat :=
  filter (fun r => negb (is_missing (column cells r))) (seq 1 (List.length cells)).

(** What a row contributes: the item of each valid column [r], with
    [1 / (k + r)]. *)
Definition entries (k : Z) (cells : list cell) : list (string * Q) :=
  map (fun r => (cell_text (column cells r), rrf_term k r)) (valid_columns cells).

(** The same list, by recursion on the row from column [rank] on. *)
Fixpoint entries_from (k : Z) (rank : nat) (cells : list cell) : list (string * Q) :=
  match cells with
  | [] => []
  | c :: rest =>
      if is_missing c then entries_from k (S rank) rest
      else (cell_text c, rrf_term k rank) :: entries_from k (S rank) rest
  end.

Lemma entries_shift_cons k rank c rest (l : list nat) :
  map (fun i => (cell_text (nth i rest NaN), rrf_term k (S rank + i)))
    (filter (fun i => negb (is_missing (nth i rest NaN))) l) =
  map (fun i => (cell_text (nth i (c :: rest) NaN), rrf_term k (rank + i)))
    (filter (fun i => negb (is_missing (nth i (c :: rest) NaN))) (map S l)).
Proof.
  induction l as [|i l IHl]; [reflexivity|].
  cbn [map filter nth]. destruct (is_missing (nth i rest NaN)); cbn [negb map nth].
  - exact IHl.
  - rewrite IHl. rewrite Nat.add_succ_r. reflexivity.
Qed.

Lemma entries_from_shift k rank cells :
  entries_from k rank cells =
  map (fun i => (cell_text (nth i cells NaN), rrf_term k (rank + i)))
    (filter (fun i => negb (is_missing (nth i cells NaN))) (seq 0 (List.length cells))).
Proof.
  revert rank. induction cells as [|c rest IH]; intros rank.
  - reflexivity.
  - cbn [entries_from List.length]. rewrite <- cons_seq, <- seq_shift.
    cbn [filter nth]. rewrite IH, (entries_shift_cons k rank c rest).
    destruct (is_missing c); cbn [negb map nth].
    + reflexivity.
    + rewrite Nat.add_0_r. reflexivity.
Qed.

Lemma entries_from_1 k cells : entries_from k 1 cells = entries k cells.
Proof.
  rewrite entries_from_shift. unfold entries, valid_columns, column.
  rewrite <- seq_shift.
  induction (seq 0 (List.length cells)) as [|i l IH]; [reflexivity|].
  cbn [map filter]. replace (S i - 1) with i by lia.
  destruct (is_missing (nth i cells NaN)); cbn [negb map].
  - exact IH.
  - rewrite IH. replace (S i - 1) with i by lia. reflexivity.
Qed.

Lemma rrf_score_ok k rank : (0 <= k)%Z -> 0 < rank -> rrf_score rank k = Ok (rrf_term k rank).
Proof.
  intros Hk Hr. unfold rrf_score.
  destruct (Nat.eqb_spec rank 0); [lia|].
  destruct (Z.eqb_spec (k + Z.of_nat rank) 0); [lia | reflexivity].
Qed.

Lemma is_missing_NaN_cases c :
  is_missing c = false -> exists s, c = Str s.
Proof. destruct c; [discriminate | eauto]. Qed.

(** The inner loop of the normal mode adds the entries of the row. *)
Lemma collect_entries k rank cells scores :
  (0 <= k)%Z -> 0 < rank ->
  collect k rank cells scores = Ok (add_all scores (entries_from k rank cells)).
Proof.
  intros Hk. revert rank scores. induction cells as [|c rest IH]; intros rank scores Hr.
  - reflexivity.
  - cbn [collect entries_from]. destruct c as [|s].
    + cbn [is_missing]. apply IH. lia.
    + destruct (is_missing (Str s)).
      * apply IH. lia.
      * rewrite rrf_score_ok by assumption. cbn [bind cell_text].
        rewrite IH by lia. reflexivity.
Qed.

(** The inner loop of the adaptive mode adds the first [limit] entries
    not yet consumed. *)
Lemma collect_adaptive_entries k limit used rank cells scores :
  (0 <= k)%Z -> 0 < rank ->
  collect_adaptive k limit used rank cells scores =
  Ok (add_all scores (firstn (limit - used) (entries_from k rank cells))).
Proof.
  intros Hk. revert used rank scores.
  induction cells as [|c rest IH]; intros used rank scores Hr.
  - cbn [collect_adaptive entries_from]. rewrite firstn_nil. reflexivity.
  - cbn [collect_adaptive entries_from].
    destruct (Nat.leb_spec limit used) as [Hle|Hlt].
    + replace (limit - used) with 0 by lia. reflexivity.
    + destruct c as [|s].
      * cbn [is_missing]. apply IH. lia.
      * destruct (is_missing (Str s)).
        -- apply IH. lia.
        -- rewrite rrf_score_ok by assumption. cbn [bind cell_text].
           rewrite IH by lia.
           replace (limit - used) with (S (limit - S used)) by lia.
           reflexivity.
Qed.

(** *** Files and queries *)

Definition row_of (df : DataFrame) (query_id : string) : list cell :=
  match find_row df query_id with Some cells => cells | None => [] end.

(** [item] is the valid content of cell [c]. *)
Definition holds (item : string) (c : cell) : bool :=
  negb (is_missing c) && String.eqb (cell_text c) item.

(** The sum of [1 / (k + r)] over the columns [r] of a row that hold
    [item]. *)
Definition row_score (k : Z) (item : string) (cells : list cell) : Q :=
  qsum (map (fun r => if holds item (column cells r) then rrf_term k r else 0%Q)
          (seq 1 (List.length cells))).

(** The fused score of the claim: the sum over the files. *)
Definition fused_score (k : Z) (dfs : list DataFrame) (query_id item : string) : Q :=
  qsum (map (fun df => row_score k item (row_of df query_id)) dfs).

(** [item] occurs as a valid cell of the query's row in some file. *)
Definition seen (dfs : list DataFrame) (query_id item : string) : Prop :=
  exists df r, In df dfs /\ In r (seq 1 (List.length (row_of df query_id)))
               /\ holds item (column (row_of df query_id) r) = true.

Definition all_entries (k : Z) (dfs : list DataFrame) (query_id : string) : list (string * Q) :=
  flat_map (fun df => entries k (row_of df query_id)) dfs.

Lemma total_entries k cells item : (total (entries k cells) item == row_score k item cells)%Q.
Proof.
  unfold entries, valid_columns, row_score, total, holds.
  induction (seq 1 (List.length cells)) as [|r l IH]; [reflexivity|].
  cbn [filter map]. destruct (is_missing (column cells r)); cbn [negb andb map filter fst].
  - cbn [qsum fold_right]. fold (qsum (map (fun r0 => if negb (is_missing (column cells r0)) && String.eqb (cell_text (column cells r0)) item then rrf_term k r0 else 0%Q) l)).
    rewrite IH. unfold qsum. ring.
  - destruct (String.eqb (cell_text (column cells r)) item); cbn [map snd qsum fold_right].
    + unfold qsum in IH. rewrite IH. reflexivity.
    + unfold qsum in IH. rewrite IH. ring.
Qed.

Lemma total_flat_map {A : Type} (f : A -> list (string * Q)) (l : list A) item :
  (total (flat_map f l) item == qsum (map (fun a => total (f a) item) l))%Q.
Proof.
  induction l as [|a l IH]; [reflexivity|].
  cbn [flat_map map]. rewrite total_app, IH. reflexivity.
Qed.

Lemma qsum_ext {A : Type} (f g : A -> Q) (l : list A) :
  (forall a, (f a == g a)%Q) -> (qsum (map f l) == qsum (map g l))%Q.
Proof.
  intros H. induction l as [|a l IH]; [reflexivity|].
  cbn [map qsum fold_right]. fold (qsum (map f l)) (qsum (map g l)).
  rewrite H, IH. reflexivity.
Qed.

Lemma total_all_entries k dfs query_id item :
  (total (all_entries k dfs query_id) item == fused_score k dfs query_id item)%Q.
Proof.
  unfold all_entries, fused_score. rewrite total_flat_map.
  apply qsum_ext. intros df. apply total_entries.
Qed.

Lemma In_entries k cells item :
  In item (map fst (entries k cells)) <->
  exists r, In r (seq 1 (List.length cells)) /\ holds item (column cells r) = true.
Proof.
  unfold entries, valid_columns, holds. rewrite map_map. cbn [fst].
  rewrite in_map_iff. split.
  - intros [r [<- Hr]]. apply filter_In in Hr. destruct Hr as [Hr Hv].
    exists r. rewrite Hv, String.eqb_refl. auto.
  - intros [r [Hr Hh]]. apply andb_prop in Hh. destruct Hh as [Hv He].
    apply String.eqb_eq in He. exists r. split; [exact He|].
    apply filter_In. auto.
Qed.

Lemma In_all_entries k dfs query_id item :
  In item (map fst (all_entries k dfs query_id)) <-> seen dfs query_id item.
Proof.
  unfold all_entries, seen. rewrite in_map_iff. split.
  - intros [[i v] [<- H]]. apply in_flat_map in H. destruct H as [df [Hdf H]].
    assert (Hi : In i (map fst (entries k (row_of df query_id)))).
    { apply in_map_iff. exists (i, v). auto. }
    apply In_entries in Hi. destruct Hi as [r [Hr Hh]]. exists df, r. auto.
  - intros [df [r [Hdf [Hr Hh]]]].
    assert (Hi : In item (map fst (entries k (row_of df query_id)))).
    { apply In_entries. eauto. }
    apply in_map_iff in Hi. destruct Hi as [[i v] [Hfst Hi]].
    exists (i, v). split; [exact Hfst|]. apply in_flat_map. eauto.
Qed.

Lemma collect_files_entries k query_id dfs scores :
  (0 <= k)%Z ->
  (forall df, In df dfs -> find_row df query_id <> None) ->
  collect_files k query_id dfs scores = Ok (add_all scores (all_entries k dfs query_id)).
Proof.
  intros Hk. revert scores. induction dfs as [|df rest IH]; intros scores Hall.
  - reflexivity.
  - cbn [collect_files all_entries flat_map]. unfold row_of.
    destruct (find_row df query_id) as [cells|] eqn:E.
    + rewrite collect_entries by (assumption || lia). cbn [bind].
      rewrite IH by (intros d Hd; apply Hall; right; exact Hd).
      rewrite entries_from_1, add_all_app. reflexivity.
    + exfalso. apply (Hall df); [left; reflexivity | exact E].
Qed.

Lemma all_files_valid dfs query_id :
  query_has_results_in_all_files dfs query_id = true <->
  forall df, In df dfs -> file_has_valid_articles query_id df = true.
Proof. unfold query_has_results_in_all_files. apply forallb_forall. Qed.

Lemma valid_file_has_row query_id df :
  file_has_valid_articles query_id df = true -> find_row df query_id <> None.
Proof.
  unfold file_has_valid_articles. destruct (find_row df query_id); [discriminate|discriminate].
Qed.

(** One query of the normal mode. *)
Lemma rerank_query_eq k n dfs query_id :
  (0 <= k)%Z ->
  rerank_query k n dfs query_id =
  if query_has_results_in_all_files dfs query_id
  then Ok (fill n (ranking (add_all [] (all_entries k dfs query_id))), false)
  else Ok (repeat sentinel n, true).
Proof.
  intros Hk. unfold rerank_query.
  destruct (query_has_results_in_all_files dfs query_id) eqn:E; cbn [negb]; [|reflexivity].
  rewrite collect_files_entries; [reflexivity | exact Hk |].
  intros df Hdf. apply valid_file_has_row.
  apply (proj1 (all_files_valid dfs query_id) E df Hdf).
Qed.

(** *** The loop over the queries *)

Lemma rerank_loop_total (body : string -> result (list string * bool))
  (row : string -> list string) (skip : string -> bool) ids acc n :
  (forall q, In q ids -> body q = Ok (row q, skip q)) ->
  rerank_loop body ids acc n =
  Ok (acc ++ map (fun q => (q, row q)) ids, n + List.length (filter skip ids)).
Proof.
  revert acc n. induction ids as [|q rest IH]; intros acc n Hbody.
  - cbn. rewrite app_nil_r, Nat.add_0_r. reflexivity.
  - cbn [rerank_loop]. rewrite (Hbody q (or_introl eq_refl)). cbn [bind fst snd].
    rewrite IH by (intros q' Hq'; apply Hbody; right; exact Hq').
    cbn [map filter]. rewrite <- app_assoc. cbn [app].
    destruct (skip q); cbn [List.length]; f_equal; f_equal; lia.
Qed.

Lemma insert_row_perm x l : Permutation (insert_row x l) (x :: l).
Proof.
  induction l as [|y r IH]; cbn [insert_row].
  - reflexivity.
  - destruct (String.leb (fst x) (fst y)).
    + reflexivity.
    + rewrite IH. apply perm_swap.
Qed.

Lemma sort_values_perm l : Permutation (sort_values l) l.
Proof.
  induction l as [|x l IH]; cbn.
  - reflexivity.
  - rewrite insert_row_perm. constructor. exact IH.
Qed.

Lemma In_insert_uniq x y l : In x (insert_uniq y l) <-> x = y \/ In x l.
Proof.
  induction l as [|z r IH]; cbn [insert_uniq].
  - cbn. intuition.
  - destruct (String.compare y z) eqn:E.
    + apply String.compare_eq_iff in E. subst z. cbn. intuition.
    + cbn. intuition.
    + cbn. rewrite IH. intuition.
Qed.

Lemma In_all_query_ids dfs q :
  In q (all_query_ids dfs) <-> exists df, In df dfs /\ In q (map fst (rows df)).
Proof.
  unfold all_query_ids. rewrite <- in_flat_map.
  induction (flat_map (fun df => map fst (rows df)) dfs) as [|x l IH]; cbn [fold_right].
  - tauto.
  - rewrite In_insert_uniq, IH. cbn. intuition.
Qed.

Lemma find_row_In df q : find_row df q <> None <-> In q (map fst (rows df)).
Proof.
  unfold find_row. induction (rows df) as [|[q' cells] l IH]; cbn [find map fst].
  - split; [congruence | contradiction].
  - destruct (String.eqb_spec q' q) as [-> |Hne].
    + split; [left; reflexivity | discriminate].
    + rewrite IH. cbn. intuition.
Qed.

Lemma rerank_all_total (body : string -> result (list string * bool))
  (row : string -> list string) (skip : string -> bool) ids :
  ids <> [] ->
  (forall q, In q ids -> body q = Ok (row q, skip q)) ->
  exists out,
    rerank_all body ids = Ok (out, List.length (filter skip ids)) /\
    Permutation out (map (fun q => (q, row q)) ids).
Proof.
  intros Hne Hbody. unfold rerank_all.
  rewrite (rerank_loop_total body row skip ids [] 0 Hbody). cbn [bind fst snd app].
  destruct ids as [|q rest]; [contradiction|].
  eexists. split; [reflexivity|]. apply sort_values_perm.
Qed.

Lemma In_row_of_map (row : string -> list string) ids q r :
  In (q, r) (map (fun q' => (q', row q')) ids) <-> In q ids /\ r = row q.
Proof.
  rewrite in_map_iff. split.
  - intros [q' [Heq Hin]]. inversion Heq; subst. auto.
  - intros [Hin ->]. exists q. auto.
Qed.

Lemma output_size_ok dfs top_n :
  dfs <> [] -> exists n, output_size dfs top_n = Ok n.
Proof.
  intros H. unfold output_size. destruct top_n; [eauto|].
  destruct dfs; [contradiction | eauto].
Qed.

(** *** Normal mode *)

(** A file is empty for a query when it has no row for it or the row has
    no valid cell. *)
Definition empty_for (query_id : string) (df : DataFrame) : Prop :=
  forall c, In c (row_of df query_id) -> is_missing c = true.

Lemma file_has_valid_articles_false query_id df :
  file_has_valid_articles query_id df = false <-> empty_for query_id df.
Proof.
  unfold file_has_valid_articles, empty_for, row_of, has_valid_articles.
  destruct (find_row df query_id) as [cells|].
  - split.
    + intros H c Hc. destruct (is_missing c) eqn:E; [reflexivity|].
      assert (Hex : existsb (fun c => negb (is_missing c)) cells = true).
      { apply existsb_exists. exists c. rewrite E. auto. }
      congruence.
    + intros H. destruct (existsb _ cells) eqn:E; [|reflexivity].
      apply existsb_exists in E. destruct E as [c [Hc Hv]].
      rewrite (H c Hc) in Hv. discriminate.
  - split; [intros _ c [] | reflexivity].
Qed.

Lemma ranked_entries (f : string -> Q) (es : list (string * Q)) :
  (forall item, (total es item == f item)%Q) ->
  let ranked := ranking (add_all [] es) in
  NoDup ranked /\ (forall item, In item ranked <-> In item (map fst es)) /\ descending f ranked.
Proof.
  intros Hf ranked. subst ranked.
  assert (Hnd : NoDup (Dict.keys (add_all [] es))).
  { apply NoDup_keys_add_all. constructor. }
  split; [apply ranking_NoDup, Hnd|]. split.
  - intros item. split; intros H.
    + apply (Permutation_in _ (ranking_perm _)) in H.
      apply In_keys_add_all in H. destruct H as [[]|H]. exact H.
    + apply (Permutation_in _ (Permutation_sym (ranking_perm _))).
      apply In_keys_add_all. right. exact H.
  - apply descending_ext with (f := Dict.score (add_all [] es)).
    + intros item. rewrite score_add_all, Hf. unfold Dict.score. cbn. ring.
    + apply ranking_descending, Hnd.
Qed.

(** C4.  Normal (anti-bias) mode, for a query that occurs in an input
    file and a fusion constant [k >= 0]: the reranker returns a frame with
    a row for the query; when some file is empty for the query (no row, or
    no valid cell in its row) that row is all-sentinel; when no file is,
    the row lists, cut or padded to the output size, the items seen in the
    files in descending order of their fused score, the sum over the files
    of [1 / (k + rank)] over the ranks where the item stands. *)
Theorem normal_rrf_anti_bias_and_fusion
  (dfs : list DataFrame) (k : Z) (top_n : option nat) (query_id : string) :
  (0 <= k)%Z ->
  (exists df, In df dfs /\ find_row df query_id <> None) ->
  exists n out skipped,
    output_size dfs top_n = Ok n /\
    perform_rrf_reranking dfs k top_n = Ok (out, skipped) /\
    (exists row, In (query_id, row) out) /\
    (forall row, In (query_id, row) out ->
       ((exists df, In df dfs /\ empty_for query_id df) -> row = repeat sentinel n) /\
       ((forall df, In df dfs -> ~ empty_for query_id df) ->
        exists ranked,
          row = fill n ranked /\ NoDup ranked /\
          (forall item, In item ranked <-> seen dfs query_id item) /\
          descending (fused_score k dfs query_id) ranked)).
Proof.
  intros Hk [df0 [Hdf0 Hrow0]].
  assert (Hdfs : dfs <> []) by (intros ->; contradiction).
  destruct (output_size_ok dfs top_n Hdfs) as [n Hn].
  assert (Hq : In query_id (all_query_ids dfs)).
  { apply In_all_query_ids. exists df0. split; [exact Hdf0|]. apply find_row_In, Hrow0. }
  assert (Hids : all_query_ids dfs <> []) by (intros E; rewrite E in Hq; contradiction).
  set (row := fun q =>
    if query_has_results_in_all_files dfs q
    then fill n (ranking (add_all [] (all_entries k dfs q)))
    else repeat sentinel n).
  set (skip := fun q => negb (query_has_results_in_all_files dfs q)).
  destruct (rerank_all_total (rerank_query k n dfs) row skip (all_query_ids dfs) Hids)
    as [out [Hout Hperm]].
  { intros q _. rewrite rerank_query_eq by exact Hk. unfold row, skip.
    destruct (query_has_results_in_all_files dfs q); reflexivity. }
  exists n, out, (List.length (filter skip (all_query_ids dfs))).
  split; [exact Hn|]. split.
  { unfold perform_rrf_reranking. rewrite Hn. exact Hout. }
  split.
  { exists (row query_id). apply (Permutation_in _ (Permutation_sym Hperm)).
    apply In_row_of_map. auto. }
  intros r Hr. apply (Permutation_in _ Hperm) in Hr.
  apply In_row_of_map in Hr. destruct Hr as [_ ->]. unfold row. split.
  - intros [df [Hdf Hempty]].
    destruct (query_has_results_in_all_files dfs query_id) eqn:E; [|reflexivity].
    apply file_has_valid_articles_false in Hempty.
    rewrite (proj1 (all_files_valid dfs query_id) E df Hdf) in Hempty. discriminate.
  - intros Hall.
    assert (E : query_has_results_in_all_files dfs query_id = true).
    { apply all_files_valid. intros df Hdf.
      destruct (file_has_valid_articles query_id df) eqn:Ev; [reflexivity|].
      exfalso. apply (Hall df Hdf). apply file_has_valid_articles_false, Ev. }
    rewrite E. eexists. split; [reflexivity|].
    destruct (ranked_entries (fused_score k dfs query_id) (all_entries k dfs query_id))
      as [Hnd [Hin Hdesc]].
    { intros item. apply total_all_entries. }
    split; [exact Hnd|]. split; [|exact Hdesc].
    intros item. rewrite Hin. apply In_all_entries.
Qed.

(** *** Adaptive mode *)

(** The columns of the valid cells, by recursion from column [rank] on. *)
Fixpoint valid_from (rank : nat) (cells : list cell) : list nat :=
  match cells with
  | [] => []
  | c :: rest =>
      if is_missing c then valid_from (S rank) rest else rank :: valid_from (S rank) rest
  end.

Lemma valid_from_shift rank cells :
  valid_from rank cells =
  map (fun i => rank + i)
    (filter (fun i => negb (is_missing (nth i cells NaN))) (seq 0 (List.length cells))).
Proof.
  revert rank. induction cells as [|c rest IH]; intros rank.
  - reflexivity.
  - cbn [valid_from List.length]. rewrite <- cons_seq, <- seq_shift.
    cbn [filter nth]. rewrite IH.
    assert (Htail :
      map (fun i => S rank + i)
        (filter (fun i => negb (is_missing (nth i rest NaN))) (seq 0 (List.length rest))) =
      map (fun i => rank + i)
        (filter (fun i => negb (is_missing (nth i (c :: rest) NaN)))
           (map S (seq 0 (List.length rest))))).
    { clear IH. induction (seq 0 (List.length rest)) as [|i l IHl]; [reflexivity|].
      cbn [map filter nth]. destruct (is_missing (nth i rest NaN)); cbn [negb map].
      - exact IHl.
      - rewrite IHl. f_equal. lia. }
    rewrite Htail. destruct (is_missing c); cbn [negb map].
    + reflexivity.
    + f_equal. lia.
Qed.

Lemma valid_from_1 cells : valid_from 1 cells = valid_columns cells.
Proof.
  rewrite valid_from_shift. unfold valid_columns, column. rewrite <- seq_shift.
  induction (seq 0 (List.length cells)) as [|i l IH]; [reflexivity|].
  cbn [map filter]. replace (S i - 1) with i by lia.
  destruct (is_missing (nth i cells NaN)); cbn [negb map].
  - exact IH.
  - rewrite IH. reflexivity.
Qed.

(** A row whose sentinels are trailing padding: no valid cell after a
    missing one. *)
Fixpoint trailing_only (cells : list cell) : Prop :=
  match cells with
  | [] => True
  | c :: rest =>
      if is_missing c then Forall (fun c' => is_missing c' = true) rest
      else trailing_only rest
  end.

Lemma valid_from_all_missing rank cells :
  Forall (fun c => is_missing c = true) cells -> valid_from rank cells = [].
Proof.
  intros H. revert rank. induction H as [|c rest Hc Hrest IH]; intros rank.
  - reflexivity.
  - cbn [valid_from]. rewrite Hc. apply IH.
Qed.

Lemma valid_from_trailing rank cells :
  trailing_only cells -> valid_from rank cells = seq rank (valid_article_count cells).
Proof.
  revert rank. induction cells as [|c rest IH]; intros rank H.
  - reflexivity.
  - cbn [valid_from valid_article_count trailing_only] in *.
    destruct (is_missing c).
    + apply valid_from_all_missing with (rank := S rank) in H. rewrite H. reflexivity.
    + cbn [seq]. rewrite IH by exact H. reflexivity.
Qed.

Lemma firstn_seq c a n : firstn c (seq a n) = seq a (Nat.min c n).
Proof.
  revert a n. induction c as [|c IH]; intros a [|n]; cbn; try reflexivity.
  rewrite IH. reflexivity.
Qed.

(** In such a row the first [cap] valid columns are columns [1..cap] at
    most. *)
Lemma capped_columns_trailing cap cells r :
  trailing_only cells -> In r (firstn cap (valid_columns cells)) -> r <= cap.
Proof.
  intros H Hr. rewrite <- valid_from_1, (valid_from_trailing 1 cells H) in Hr.
  rewrite firstn_seq in Hr. apply in_seq in Hr. lia.
Qed.

(** The leading count is the length of the longest valid prefix. *)
Lemma valid_article_count_prefix cells :
  (forall i, i < valid_article_count cells -> is_missing (nth i cells NaN) = false) /\
  is_missing (nth (valid_article_count cells) cells NaN) = true.
Proof.
  induction cells as [|c rest [IH1 IH2]]; cbn [valid_article_count].
  - split; [intros i Hi; lia | reflexivity].
  - destruct (is_missing c) eqn:E.
    + split; [intros i Hi; lia | exact E].
    + split; [|exact IH2]. intros [|i] Hi; [exact E|]. apply IH1. lia.
Qed.

Lemma fold_min_le r x : fold_left Nat.min r x <= x.
Proof.
  revert x. induction r as [|y r IH]; intros x; cbn [fold_left]; [lia|].
  etransitivity; [apply IH | lia].
Qed.

Lemma fold_min_spec r x :
  In (fold_left Nat.min r x) (x :: r) /\ forall c, In c (x :: r) -> fold_left Nat.min r x <= c.
Proof.
  revert x. induction r as [|y r IH]; intros x; cbn [fold_left].
  - split; [left; reflexivity | intros c [<-|[]]; lia].
  - destruct (IH (Nat.min x y)) as [Hin Hle]. split.
    + destruct Hin as [Hin|Hin]; [|right; right; exact Hin].
      rewrite <- Hin. destruct (Nat.min_dec x y) as [E|E]; rewrite E; cbn; auto.
    + intros c [<-|[<-|Hc]].
      * etransitivity; [apply fold_min_le | lia].
      * etransitivity; [apply fold_min_le | lia].
      * apply Hle. right. exact Hc.
Qed.

(** [m] is the minimum of the counts. *)
Definition is_min (m : nat) (counts : list nat) : Prop :=
  In m counts /\ forall c, In c counts -> m <= c.

Lemma dynamic_limit_spec counts :
  counts <> [] ->
  exists m, is_min m counts /\
            dynamic_limit counts = Ok (Nat.min (2 * m) (list_max counts)).
Proof.
  intros H. destruct counts as [|x r]; [contradiction|].
  exists (fold_left Nat.min r x). split; [apply fold_min_spec|].
  unfold dynamic_limit, list_min. cbn [bind]. f_equal. f_equal. lia.
Qed.

Definition capped_entries (k : Z) (cap : nat) (dfs : list DataFrame) (query_id : string)
  : list (string * Q) :=
  flat_map (fun df => firstn cap (entries k (row_of df query_id))) dfs.

Lemma collect_files_adaptive_entries k cap query_id dfs scores :
  (0 <= k)%Z ->
  (forall df, In df dfs -> find_row df query_id <> None) ->
  collect_files_adaptive k cap query_id dfs scores =
  Ok (add_all scores (capped_entries k cap dfs query_id)).
Proof.
  intros Hk. revert scores. induction dfs as [|df rest IH]; intros scores Hall.
  - reflexivity.
  - cbn [collect_files_adaptive capped_entries flat_map]. unfold row_of.
    destruct (find_row df query_id) as [cells|] eqn:E.
    + rewrite collect_adaptive_entries by (assumption || lia). cbn [bind].
      rewrite IH by (intros d Hd; apply Hall; right; exact Hd).
      rewrite entries_from_1, Nat.sub_0_r, add_all_app. reflexivity.
    + exfalso. apply (Hall df); [left; reflexivity | exact E].
Qed.

Lemma valid_files_all dfs query_id :
  forallb (fun b => b) (valid_files dfs query_id) = true <->
  forall df, In df dfs -> 0 < query_article_count query_id df.
Proof.
  unfold valid_files. rewrite forallb_forall. split.
  - intros H df Hdf. apply Nat.ltb_lt. apply H. apply in_map_iff. exists df. auto.
  - intros H b Hb. apply in_map_iff in Hb. destruct Hb as [df [<- Hdf]].
    apply Nat.ltb_lt. apply H, Hdf.
Qed.

Lemma counted_file_has_row query_id df :
  0 < query_article_count query_id df -> find_row df query_id <> None.
Proof.
  unfold query_article_count. destruct (find_row df query_id); [discriminate | lia].
Qed.

(** The columns of a row the adaptive mode consumes under [cap]: its
    first [cap] valid columns. *)
Definition consumed (cap : nat) (cells : list cell) : list nat :=
  firstn cap (valid_columns cells).

Definition capped_row_score (k : Z) (cap : nat) (item : string) (cells : list cell) : Q :=
  qsum (map (fun r => if String.eqb (cell_text (column cells r)) item
                      then rrf_term k r else 0%Q)
          (consumed cap cells)).

Definition capped_score (k : Z) (cap : nat) (dfs : list DataFrame) (query_id item : string)
  : Q :=
  qsum (map (fun df => capped_row_score k cap item (row_of df query_id)) dfs).

(** [item] stands in a consumed column of the query's row in some file. *)
Definition used (cap : nat) (dfs : list DataFrame) (query_id item : string) : Prop :=
  exists df r, In df dfs /\ In r (consumed cap (row_of df query_id))
               /\ cell_text (column (row_of df query_id) r) = item.

Lemma firstn_entries k cap cells :
  firstn cap (entries k cells) =
  map (fun r => (cell_text (column cells r), rrf_term k r)) (consumed cap cells).
Proof. unfold entries, consumed. apply firstn_map. Qed.

Lemma total_capped k cap cells item :
  (total (firstn cap (entries k cells)) item == capped_row_score k cap item cells)%Q.
Proof.
  rewrite firstn_entries. unfold capped_row_score, total.
  induction (consumed cap cells) as [|r l IH]; [reflexivity|].
  cbn [map filter fst].
  destruct (String.eqb (cell_text (column cells r)) item); cbn [map snd qsum fold_right].
  - unfold qsum in IH. rewrite IH. reflexivity.
  - unfold qsum in IH. rewrite IH. ring.
Qed.

Lemma total_capped_entries k cap dfs query_id item :
  (total (capped_entries k cap dfs query_id) item == capped_score k cap dfs query_id item)%Q.
Proof.
  unfold capped_entries, capped_score. rewrite total_flat_map.
  apply qsum_ext. intros df. apply total_capped.
Qed.

Lemma In_capped_entries k cap dfs query_id item :
  In item (map fst (capped_entries k cap dfs query_id)) <-> used cap dfs query_id item.
Proof.
  unfold capped_entries, used. rewrite in_map_iff. split.
  - intros [[i v] [<- H]]. apply in_flat_map in H. destruct H as [df [Hdf H]].
    rewrite firstn_entries in H. apply in_map_iff in H. destruct H as [r [Heq Hr]].
    inversion Heq; subst. exists df, r. auto.
  - intros [df [r [Hdf [Hr <-]]]].
    exists (cell_text (column (row_of df query_id) r), rrf_term k r).
    split; [reflexivity|]. apply in_flat_map. exists df. split; [exact Hdf|].
    rewrite firstn_entries. apply in_map_iff. exists r. auto.
Qed.

(** One query of the adaptive mode. *)
Lemma rerank_query_adaptive_eq k n dfs query_id cap :
  (0 <= k)%Z ->
  forallb (fun b => b) (valid_files dfs query_id) = true ->
  dynamic_limit (query_article_counts dfs query_id) = Ok cap ->
  rerank_query_adaptive k n dfs query_id =
  Ok (fill n (ranking (add_all [] (capped_entries k cap dfs query_id))), false).
Proof.
  intros Hk Hv Hcap. unfold rerank_query_adaptive. rewrite Hv, Hcap. cbn [negb bind].
  rewrite collect_files_adaptive_entries; [reflexivity | exact Hk |].
  intros df Hdf. apply counted_file_has_row.
  apply (proj1 (valid_files_all dfs query_id) Hv df Hdf).
Qed.

(** C5, amended.  Adaptive mode, for a query that occurs in an input file
    and [k >= 0].  When some file has no leading valid entry for the query
    (or no row for it) the query's row is all-sentinel.  Otherwise, with
    [m] the minimum over the files of the count of leading valid entries
    and [cap = min (2 m) (maximum count)], each file contributes the
    entries of its first [cap] valid columns, each with [1 / (k + r)] for
    its own column [r]; the row lists the items so used by descending fused
    score; and in a file whose sentinels are trailing padding every
    contributing column is at most [cap]. *)
Theorem adaptive_rrf_cap
  (dfs : list DataFrame) (k : Z) (top_n : option nat) (query_id : string) :
  (0 <= k)%Z ->
  (exists df, In df dfs /\ find_row df query_id <> None) ->
  exists n out skipped,
    output_size dfs top_n = Ok n /\
    perform_rrf_reranking_adaptive dfs k top_n = Ok (out, skipped) /\
    (exists row, In (query_id, row) out) /\
    (forall row, In (query_id, row) out ->
       ((exists df, In df dfs /\ query_article_count query_id df = 0) ->
        row = repeat sentinel n) /\
       ((forall df, In df dfs -> 0 < query_article_count query_id df) ->
        exists m cap ranked,
          is_min m (query_article_counts dfs query_id) /\
          cap = Nat.min (2 * m) (list_max (query_article_counts dfs query_id)) /\
          row = fill n ranked /\ NoDup ranked /\
          (forall item, In item ranked <-> used cap dfs query_id item) /\
          descending (capped_score k cap dfs query_id) ranked /\
          (forall df r, In df dfs -> trailing_only (row_of df query_id) ->
                        In r (consumed cap (row_of df query_id)) -> r <= cap))).
Proof.
  intros Hk [df0 [Hdf0 Hrow0]].
  assert (Hdfs : dfs <> []) by (intros ->; contradiction).
  destruct (output_size_ok dfs top_n Hdfs) as [n Hn].
  assert (Hq : In query_id (all_query_ids dfs)).
  { apply In_all_query_ids. exists df0. split; [exact Hdf0|]. apply find_row_In, Hrow0. }
  assert (Hids : all_query_ids dfs <> []) by (intros E; rewrite E in Hq; contradiction).
  assert (Hcounts : forall q, query_article_counts dfs q <> []).
  { intros q E. apply Hdfs. unfold query_article_counts in E.
    destruct dfs; [reflexivity | discriminate]. }
  set (cap := fun q =>
    match dynamic_limit (query_article_counts dfs q) with Ok c => c | Raise _ => 0 end).
  set (row := fun q =>
    if forallb (fun b => b) (valid_files dfs q)
    then fill n (ranking (add_all [] (capped_entries k (cap q) dfs q)))
    else repeat sentinel n).
  set (skip := fun q => negb (forallb (fun b => b) (valid_files dfs q))).
  destruct (rerank_all_total (rerank_query_adaptive k n dfs) row skip (all_query_ids dfs) Hids)
    as [out [Hout Hperm]].
  { intros q _. unfold row, skip, cap.
    destruct (forallb (fun b => b) (valid_files dfs q)) eqn:E.
    - destruct (dynamic_limit_spec _ (Hcounts q)) as [m [_ Hm]].
      rewrite Hm. apply rerank_query_adaptive_eq; assumption.
    - unfold rerank_query_adaptive. rewrite E. reflexivity. }
  exists n, out, (List.length (filter skip (all_query_ids dfs))).
  split; [exact Hn|]. split.
  { unfold perform_rrf_reranking_adaptive. rewrite Hn. exact Hout. }
  split.
  { exists (row query_id). apply (Permutation_in _ (Permutation_sym Hperm)).
    apply In_row_of_map. auto. }
  intros r Hr. apply (Permutation_in _ Hperm) in Hr.
  apply In_row_of_map in Hr. destruct Hr as [_ ->]. unfold row. split.
  - intros [df [Hdf Hzero]].
    destruct (forallb (fun b => b) (valid_files dfs query_id)) eqn:E; [|reflexivity].
    pose proof (proj1 (valid_files_all dfs query_id) E df Hdf). lia.
  - intros Hall. rewrite (proj2 (valid_files_all dfs query_id) Hall).
    destruct (dynamic_limit_spec _ (Hcounts query_id)) as [m [Hmin Hm]].
    unfold cap. rewrite Hm.
    exists m, (Nat.min (2 * m) (list_max (query_article_counts dfs query_id))).
    eexists. split; [exact Hmin|]. split; [reflexivity|]. split; [reflexivity|].
    destruct (ranked_entries
                (capped_score k (Nat.min (2 * m) (list_max (query_article_counts dfs query_id)))
                   dfs query_id)
                (capped_entries k (Nat.min (2 * m) (list_max (query_article_counts dfs query_id)))
                   dfs query_id))
      as [Hnd [Hin Hdesc]].
    { intros item. apply total_capped_entries. }
    split; [exact Hnd|]. split; [|split; [exact Hdesc|]].
    + intros item. rewrite Hin. apply In_capped_entries.
    + intros df c _ Htrail Hc. unfold consumed in Hc.
      eapply capped_columns_trailing; eassumption.
Qed.

(** C10.  In both modes the rank of a contribution is the column index
    of the cell: the inner loop of the normal mode adds, for every valid
    column [r] of the row, [1 / (k + r)] to the item of that column,
    whatever sentinels precede it; the inner loop of the adaptive mode adds
    the first [limit] of these same contributions, so that the limit counts
    valid cells and not columns. *)
Theorem rank_is_column_index
  (k : Z) (cells : list cell) (scores : list (string * Q)) (limit : nat) :
  (0 <= k)%Z ->
  collect k 1 cells scores = Ok (add_all scores (entries k cells)) /\
  collect_adaptive k limit 0 1 cells scores =
    Ok (add_all scores (firstn limit (entries k cells))) /\
  (forall r, In r (seq 1 (List.length cells)) -> is_missing (column cells r) = false ->
             In (cell_text (column cells r), rrf_term k r) (entries k cells)).
Proof.
  intros Hk. split; [|split].
  - rewrite collect_entries by (assumption || lia). rewrite entries_from_1. reflexivity.
  - rewrite collect_adaptive_entries by (assumption || lia).
    rewrite entries_from_1, Nat.sub_0_r. reflexivity.
  - intros r Hr Hv. unfold entries. apply in_map_iff. exists r. split; [reflexivity|].
    unfold valid_columns. apply filter_In. rewrite Hv. auto.
Qed.

(** *** Scenarios *)

(** File A has Q1 = [a, b, c] and file B an empty row for Q1. *)
Definition file_A : DataFrame :=
  {| n_cols := 3; rows := [("Q1", [Str "a"; Str "b"; Str "c"])] |}.

Definition file_B : DataFrame :=
  {| n_cols := 3; rows := [("Q1", [NaN; NaN; NaN])] |}.

Example normal_rrf_scenario :
  (0 <= 60)%Z /\
  (exists df, In df [file_A; file_B] /\ find_row df "Q1" <> None) /\
  exists out skipped,
    perform_rrf_reranking [file_A; file_B] 60 None = Ok (out, skipped) /\
    In ("Q1", ["#"; "#"; "#"]) out.
Proof.
  assert (H1 : (0 <= 60)%Z) by lia.
  assert (H2 : exists df, In df [file_A; file_B] /\ find_row df "Q1" <> None).
  { exists file_A. split; [left; reflexivity | discriminate]. }
  split; [exact H1|]. split; [exact H2|].
  destruct (normal_rrf_anti_bias_and_fusion [file_A; file_B] 60 None "Q1" H1 H2)
    as (n & out & skipped & Hn & Hrun & [row Hrow] & Hspec).
  exists out, skipped. split; [exact Hrun|].
  destruct (Hspec row Hrow) as [Hempty _].
  cbn in Hn. injection Hn as <-.
  rewrite Hempty in Hrow; [exact Hrow|].
  exists file_B. split; [right; left; reflexivity|].
  intros c Hc. cbn in Hc. destruct Hc as [<-|[<-|[<-|[]]]]; reflexivity.
Defined.

(** File A has Q1 = [a, b, c, d, e, #, #] and file B has Q1 = [b, f, #, ...]:
    the minimum count is 2 and the cap 4. *)
Definition wide_A : DataFrame :=
  {| n_cols := 7;
     rows := [("Q1", [Str "a"; Str "b"; Str "c"; Str "d"; Str "e"; Str "#"; Str "#"])] |}.

Definition wide_B : DataFrame :=
  {| n_cols := 7;
     rows := [("Q1", [Str "b"; Str "f"; Str "#"; Str "#"; Str "#"; Str "#"; Str "#"])] |}.

Example adaptive_rrf_scenario :
  (0 <= 60)%Z /\
  (exists df, In df [wide_A; wide_B] /\ find_row df "Q1" <> None) /\
  exists out skipped row,
    perform_rrf_reranking_adaptive [wide_A; wide_B] 60 None = Ok (out, skipped) /\
    In ("Q1", row) out /\ ~ In "e" row.
Proof.
  assert (H1 : (0 <= 60)%Z) by lia.
  assert (H2 : exists df, In df [wide_A; wide_B] /\ find_row df "Q1" <> None).
  { exists wide_A. split; [left; reflexivity | discriminate]. }
  split; [exact H1|]. split; [exact H2|].
  destruct (adaptive_rrf_cap [wide_A; wide_B] 60 None "Q1" H1 H2)
    as (n & out & skipped & Hn & Hrun & [row Hrow] & Hspec).
  exists out, skipped, row. split; [exact Hrun|]. split; [exact Hrow|].
  destruct (Hspec row Hrow) as [_ Hfull].
  destruct Hfull as (m & cap & ranked & [Hm Hle] & Hcap & -> & _ & Hused & _).
  { intros df [<-|[<-|[]]]; apply Nat.ltb_lt; reflexivity. }
  assert (Ec : query_article_counts [wide_A; wide_B] "Q1" = [5; 2])
    by (vm_compute; reflexivity).
  rewrite Ec in Hm, Hle, Hcap.
  assert (Em : m = 2).
  { assert (m <= 2) by (apply Hle; right; left; reflexivity).
    destruct Hm as [<-|[<-|[]]]; lia. }
  subst m. change (Nat.min (2 * 2) (list_max [5; 2])) with 4 in Hcap. subst cap.
  assert (EA : consumed 4 (row_of wide_A "Q1") = [1; 2; 3; 4]) by (vm_compute; reflexivity).
  assert (EB : consumed 4 (row_of wide_B "Q1") = [1; 2]) by (vm_compute; reflexivity).
  intros He. unfold fill in He. apply in_app_or in He. destruct He as [He|He].
  - apply In_firstn, Hused in He. destruct He as (df & r & Hdf & Hr & Htext).
    destruct Hdf as [<-|[<-|[]]]; [rewrite EA in Hr | rewrite EB in Hr];
      repeat (destruct Hr as [<-|Hr]; [vm_compute in Htext; discriminate|]); contradiction.
  - apply repeat_spec in He. discriminate.
Defined.

Example rank_after_sentinels :
  (0 <= 60)%Z /\
  collect 60 1 [Str "#"; Str " "; Str "a"] [] =
    Ok (add_all [] (entries 60 [Str "#"; Str " "; Str "a"])) /\
  entries 60 [Str "#"; Str " "; Str "a"] = [("a", (1 # 63)%Q)].
Proof.
  assert (H1 : (0 <= 60)%Z) by lia.
  split; [exact H1|]. split.
  - exact (proj1 (rank_is_column_index 60 [Str "#"; Str " "; Str "a"] [] 0 H1)).
  - reflexivity.
Defined.

(** A row with a sentinel before a valid cell: file A has Q1 = [a, #, b]
    and file B has Q1 = [x, y, NaN].  The counts are 1 and 2, the cap is 2,
    and [b], which stands in column 3 of A only, is fused all the same:
    blanking that cell changes the row. *)
Definition gap_A : DataFrame :=
  {| n_cols := 3; rows := [("Q1", [Str "a"; Str "#"; Str "b"])] |}.

Definition gap_A_blanked : DataFrame :=
  {| n_cols := 3; rows := [("Q1", [Str "a"; Str "#"; Str "#"])] |}.

Definition gap_B : DataFrame :=
  {| n_cols := 3; rows := [("Q1", [Str "x"; Str "y"; NaN])] |}.

Lemma adaptive_cap_counterexample :
  dynamic_limit (query_article_counts [gap_A; gap_B] "Q1") = Ok 2 /\
  column (row_of gap_A "Q1") 3 = Str "b" /\
  perform_rrf_reranking_adaptive [gap_A; gap_B] 60 (Some 4)
    = Ok ([("Q1", ["a"; "x"; "y"; "b"])], 0) /\
  perform_rrf_reranking_adaptive [gap_A_blanked; gap_B] 60 (Some 4)
    = Ok ([("Q1", ["a"; "x"; "y"; "#"])], 0).
Proof. repeat split; vm_compute; reflexivity. Qed.

End RRFFacts.

(** ** The booster *)

Module BoosterFacts.

Import Pipeline.

Lemma Pos_compare_cont_refl m : PosDef.Pos.compare_cont Eq m m = Eq.
Proof. induction m; cbn; auto. Qed.

Lemma SFcompare_refl x : x <> S754_nan -> SFcompare x x = Some Eq.
Proof.
  destruct x as [s|s| |s m e]; cbn; intros H.
  - reflexivity.
  - destruct s; reflexivity.
  - contradiction.
  - rewrite Z.compare_refl, Pos_compare_cont_refl. destruct s; reflexivity.
Qed.

(** Adding the float zero to a float that compares below a half gives a
    float equal to it ([==] of Python: the sum of the negative zero and
    zero is the positive zero). *)
Lemma add_zero_eqb (s : float) :
  (s <? 0.5)%float = true -> (s + 0 =? s)%float = true.
Proof.
  intros H. rewrite FloatAxioms.ltb_spec in H.
  rewrite FloatAxioms.eqb_spec, FloatAxioms.add_spec.
  change (Prim2SF 0) with (S754_zero false).
  destruct (Prim2SF s) as [sg|sg| |sg m e] eqn:E.
  - destruct sg; reflexivity.
  - unfold SFeqb. cbn. destruct sg; reflexivity.
  - discriminate.
  - unfold SF64add, SFadd, SFeqb. rewrite SFcompare_refl by discriminate. reflexivity.
Qed.

(** C6.  In sigmoid mode, whatever the weights, the bias, the maximal
    boost and the article rank are, an image whose similarity compares
    below 0.5 gets the boost 0, and the score of its result equals the
    similarity. *)
Theorem sigmoid_floor
  (math_log : Z -> float) (math_exp : float -> result float)
  (self : pipeline) (s : float) (article_rank : Z) :
  use_sigmoid_boosting self = true ->
  (s <? 0.5)%float = true ->
  calculate_sigmoid_boost math_log math_exp self s article_rank = Ok 0%float /\
  forall (article_rank_map : list (string * Z)) (h : hit),
    hit_score h = s ->
    exists r,
      boosted_result math_log math_exp self article_rank_map h = Ok r /\
      (score r =? s)%float = true.
Proof.
  intros Hmode Hlow.
  assert (Hboost : forall rank, calculate_sigmoid_boost math_log math_exp self s rank = Ok 0%float).
  { intros rank. unfold calculate_sigmoid_boost. rewrite Hmode, Hlow. reflexivity. }
  split; [apply Hboost|].
  intros article_rank_map h Hs. unfold boosted_result. rewrite Hs, Hboost. cbn [bind].
  eexists. split; [reflexivity|]. cbn [score]. apply add_zero_eqb, Hlow.
Qed.

(** A pipeline in sigmoid mode with the default parameters of
    [__init__]. *)
Definition sigmoid_pipeline : pipeline :=
  {| use_voting := false;
     enable_multi_model := true;
     private_test_mode := false;
     primary_checkpoint := "Initialized";
     model_weights := [];
     model_families := Some [];
     active_families := Some [];
     active_model_weights := None;
     article_to_images := [];
     rrf_k := 60;
     multi_model_rrf_k := 50;
     use_sigmoid_boosting := true;
     article_ranking_boost := 0.3;
     similarity_weight := 10;
     rank_weight := 2.5;
     sigmoid_bias := 0;
     max_boost_factor := 0.5 |}.

Example sigmoid_floor_scenario :
  use_sigmoid_boosting sigmoid_pipeline = true /\
  (0.40 <? 0.5)%float = true /\
  calculate_sigmoid_boost (fun _ => 0%float) (fun _ => Ok 1%float) sigmoid_pipeline 0.40 1
    = Ok 0%float.
Proof.
  split; [reflexivity|]. split; [reflexivity|].
  exact (proj1 (sigmoid_floor (fun _ => 0%float) (fun _ => Ok 1%float) sigmoid_pipeline
                  0.40%float 1 eq_refl eq_refl)).
Defined.

End BoosterFacts.

(** ** The aggregators and the stage-2 CSV *)

Module PipelineFacts.

Import Pipeline DictFacts.

(** *** Dictionaries *)

Section DictGeneric.
Context {V : Type}.
Implicit Types (d : list (string * V)) (v : V).

Lemma get_set_same d key v : Dict.get (Dict.set d key v) key = Some v.
Proof.
  induction d as [|[k' x] d IH]; cbn.
  - rewrite String.eqb_refl. reflexivity.
  - destruct (String.eqb_spec k' key) as [-> |Hne]; cbn.
    + rewrite String.eqb_refl. reflexivity.
    + destruct (String.eqb_spec k' key); [contradiction | exact IH].
Qed.

Lemma get_set_other d key v key' :
  key <> key' -> Dict.get (Dict.set d key v) key' = Dict.get d key'.
Proof.
  intros Hne. induction d as [|[k' x] d IH]; cbn.
  - destruct (String.eqb_spec key key'); [contradiction | reflexivity].
  - destruct (String.eqb_spec k' key) as [-> |Hk]; cbn.
    + destruct (String.eqb_spec key key'); [contradiction | reflexivity].
    + destruct (String.eqb_spec k' key'); [reflexivity | exact IH].
Qed.

Lemma keys_set d key v :
  Dict.keys (Dict.set d key v) = if Dict.mem d key then Dict.keys d else Dict.keys d ++ [key].
Proof.
  unfold Dict.keys, Dict.mem. induction d as [|[k' x] d IH]; cbn.
  - reflexivity.
  - destruct (String.eqb_spec k' key) as [-> |Hne]; cbn.
    + reflexivity.
    + rewrite IH. destruct (Dict.get d key); reflexivity.
Qed.

Lemma mem_keys d key : Dict.mem d key = true <-> In key (Dict.keys d).
Proof.
  unfold Dict.mem, Dict.keys. induction d as [|[k' x] d IH]; cbn.
  - split; [discriminate | tauto].
  - destruct (String.eqb_spec k' key) as [-> |Hne].
    + split; auto.
    + rewrite IH. split; [auto | intros [H|H]; [contradiction | exact H]].
Qed.

Lemma In_keys_set d key v key' :
  In key' (Dict.keys (Dict.set d key v)) <-> In key' (Dict.keys d) \/ key' = key.
Proof.
  rewrite keys_set. destruct (Dict.mem d key) eqn:E.
  - apply mem_keys in E. split; [auto | intros [H| ->]; assumption].
  - rewrite in_app_iff. cbn. intuition.
Qed.

(** A dictionary filled by one assignment per key of a list. *)
Lemma get_fold_set (f : string -> V) (ids : list string) d key :
  Dict.get (fold_left (fun acc q => Dict.set acc q (f q)) ids d) key =
  if existsb (String.eqb key) ids then Some (f key) else Dict.get d key.
Proof.
  revert d. induction ids as [|q rest IH]; intros d; [reflexivity|].
  cbn [fold_left existsb]. rewrite IH.
  destruct (String.eqb_spec key q) as [-> |Hne]; cbn [orb].
  - rewrite get_set_same. destruct (existsb (String.eqb q) rest); reflexivity.
  - rewrite get_set_other by congruence. reflexivity.
Qed.

Lemma existsb_eqb_In (key : string) (ids : list string) :
  existsb (String.eqb key) ids = true <-> In key ids.
Proof.
  rewrite existsb_exists. split.
  - intros [x [Hx He]]. apply String.eqb_eq in He. subst. exact Hx.
  - intros H. exists key. rewrite String.eqb_refl. auto.
Qed.

End DictGeneric.

Lemma In_unique (seen l : list string) (x : string) :
  In x (unique seen l) <-> In x l /\ ~ In x seen.
Proof.
  revert seen. induction l as [|y r IH]; intros seen; cbn [unique].
  - cbn. tauto.
  - destruct (existsb (String.eqb y) seen) eqn:E.
    + apply existsb_eqb_In in E. rewrite IH. cbn. intuition congruence.
    + assert (Hy : ~ In y seen).
      { intros H. apply existsb_eqb_In in H. congruence. }
      cbn. rewrite IH. cbn. split.
      * intros [<-|[H1 H2]]; [auto | split; [auto | tauto]].
      * intros [[<-|H1] H2]; [auto|].
        destruct (string_dec y x) as [->|Hne]; [auto | right; split; [exact H1|tauto]].
Qed.

Lemma fill_length n items : List.length (fill n items) = n.
Proof.
  unfold fill. rewrite length_app, repeat_length, length_firstn. lia.
Qed.

(** *** The stage-2 CSV *)

(** C2, as the code has it: the header declares 10 image columns, every
    data row holds 50 cells after the query id, and the cells beyond the
    images of the query hold the sentinel. *)
Theorem stage2_csv_widths (final_results : list (string * list string)) :
  let csv := save_final_image_results final_results in
  List.length (header csv) = 1 + 10 /\
  (forall row, In row (data csv) ->
     List.length row = 1 + 50 /\
     exists query_id images,
       Dict.get final_results query_id = Some images /\
       row = query_id :: firstn 50 images ++ repeat "#" (50 - List.length images)).
Proof.
  cbn zeta. split; [reflexivity|].
  intros row Hrow. cbn [data save_final_image_results] in Hrow.
  apply in_map_iff in Hrow. destruct Hrow as [q [<- Hq]].
  unfold image_row. split.
  - cbn [List.length]. rewrite fill_length. reflexivity.
  - assert (Hk : In q (Dict.keys final_results)).
    { unfold sorted_keys in Hq.
      induction (Dict.keys final_results) as [|x l IH]; cbn [fold_right] in Hq.
      - contradiction.
      - apply RRFFacts.In_insert_uniq in Hq. destruct Hq as [->|Hq]; [left; reflexivity|].
        right. apply IH, Hq. }
    apply mem_keys in Hk. unfold Dict.mem in Hk.
    destruct (Dict.get final_results q) as [images|] eqn:E; [|discriminate].
    exists q, images. split; [exact E | reflexivity].
Qed.

(** *** Fusion terms *)

(** The term one occurrence at [rank] adds: [w] when voting, otherwise
    [w / (k + rank)]. *)
Definition term (voting : bool) (w : Q) (k : Z) (rank : nat) : Q :=
  if voting then w else (w / inject_Z (k + Z.of_nat rank))%Q.

Lemma vote_score_ok voting w k rank :
  voting = true \/ (0 <= k)%Z -> 0 < rank ->
  vote_score voting w k rank = Ok (term voting w k rank).
Proof.
  intros Hk Hr. unfold vote_score, term. destruct voting; [reflexivity|].
  destruct Hk as [Hk|Hk]; [discriminate|].
  destruct (Z.eqb_spec (k + Z.of_nat rank) 0); [lia | reflexivity].
Qed.

(** [enumerate(l, start)] *)
Definition enumerate_from {A : Type} (start : nat) (l : list A) : list (nat * A) :=
  combine (seq start (List.length l)) l.

(** The contributions of a ranked list of image ids, ranks from [rank]. *)
Fixpoint list_entries (voting : bool) (w : Q) (k : Z) (rank : nat) (images : list string)
  : list (string * Q) :=
  match images with
  | [] => []
  | i :: rest => (i, term voting w k rank) :: list_entries voting w k (S rank) rest
  end.

Lemma list_entries_enumerate voting w k rank images :
  list_entries voting w k rank images =
  map (fun p => (snd p, term voting w k (fst p))) (enumerate_from rank images).
Proof.
  unfold enumerate_from. revert rank.
  induction images as [|i rest IH]; intros rank; [reflexivity|].
  cbn. rewrite IH. reflexivity.
Qed.

Lemma list_entries_keys voting w k rank images :
  map fst (list_entries voting w k rank images) = images.
Proof.
  revert rank. induction images as [|i rest IH]; intros rank; [reflexivity|].
  cbn. rewrite IH. reflexivity.
Qed.

(** *** Aggregation across families *)

Definition family_list (data : family_data) (query_id : string) : list string :=
  match Dict.get (results data) query_id with Some l => l | None => [] end.

(** What a family gives an image: the terms of the ranks at which the
    image stands among the first [final_top_k] entries of its list. *)
Definition family_score (voting : bool) (k : Z) (final_top_k : nat) (data : family_data)
  (query_id image : string) : Q :=
  qsum (map (fun p => if String.eqb (snd p) image
                      then term voting (weight data) k (fst p) else 0%Q)
          (enumerate_from 1 (firstn final_top_k (family_list data query_id)))).

Definition cross_family_score (voting : bool) (k : Z) (final_top_k : nat)
  (family_results : list (string * family_data)) (query_id image : string) : Q :=
  qsum (map (fun f => family_score voting k final_top_k (snd f) query_id image)
          family_results).

Definition cross_family_entries (voting : bool) (k : Z) (final_top_k : nat)
  (family_results : list (string * family_data)) (query_id : string) : list (string * Q) :=
  flat_map (fun f => list_entries voting (weight (snd f)) k 1
                       (firstn final_top_k (family_list (snd f) query_id)))
    family_results.

Lemma add_family_images_entries voting w k final_top_k rank images scores :
  voting = true \/ (0 <= k)%Z -> 0 < rank ->
  add_family_images voting w k final_top_k rank images scores =
  Ok (add_all scores (list_entries voting w k rank (firstn (S final_top_k - rank) images))).
Proof.
  intros Hk. revert rank scores.
  induction images as [|i rest IH]; intros rank scores Hr.
  - cbn [add_family_images]. rewrite firstn_nil. reflexivity.
  - cbn [add_family_images]. destruct (Nat.leb_spec rank final_top_k) as [Hle|Hgt].
    + rewrite vote_score_ok by assumption. cbn [bind]. rewrite IH by lia.
      replace (S final_top_k - rank) with (S (S final_top_k - S rank)) by lia.
      reflexivity.
    + rewrite IH by lia.
      replace (S final_top_k - S rank) with 0 by lia.
      replace (S final_top_k - rank) with 0 by lia. reflexivity.
Qed.

Lemma add_families_entries voting k final_top_k query_id family_results scores :
  voting = true \/ (0 <= k)%Z ->
  add_families voting k final_top_k query_id family_results scores =
  Ok (add_all scores (cross_family_entries voting k final_top_k family_results query_id)).
Proof.
  intros Hk. revert scores.
  induction family_results as [|[name data] rest IH]; intros scores; [reflexivity|].
  cbn [add_families cross_family_entries flat_map snd].
  fold (family_list data query_id).
  rewrite add_family_images_entries by (assumption || lia). cbn [bind].
  rewrite IH, add_all_app. replace (S final_top_k - 1) with final_top_k by lia.
  reflexivity.
Qed.

Lemma total_cross_family voting k final_top_k family_results query_id image :
  (total (cross_family_entries voting k final_top_k family_results query_id) image ==
   cross_family_score voting k final_top_k family_results query_id image)%Q.
Proof.
  unfold cross_family_entries, cross_family_score.
  rewrite RRFFacts.total_flat_map. apply RRFFacts.qsum_ext. intros f.
  rewrite list_entries_enumerate. apply total_map.
Qed.

Lemma multi_model_loop_eq voting k final_top_k family_results ids final_results :
  voting = true \/ (0 <= k)%Z ->
  multi_model_loop voting k final_top_k family_results ids final_results =
  Ok (fold_left
        (fun acc q =>
           Dict.set acc q
             (firstn final_top_k
                (ranking (add_all [] (cross_family_entries voting k final_top_k
                                        family_results q)))))
        ids final_results).
Proof.
  intros Hk. revert final_results.
  induction ids as [|q rest IH]; intros final_results; [reflexivity|].
  cbn [multi_model_loop fold_left]. rewrite add_families_entries by exact Hk.
  cbn [bind]. apply IH.
Qed.

(** C8.  Cross-family aggregation, for a query some family has a list
    for, with [k_mm >= 0] in RRF mode: the fused score of an image is the
    sum over the families of the terms [w_F / (k_mm + rank)] (or [w_F] when
    voting) of the ranks at which the image stands among the first
    [final_top_k] entries of the family's list, and the list returned for
    the query is the first [final_top_k] of the images so scored, in
    descending order of fused score. *)
Theorem cross_family_fusion
  (self : pipeline) (family_results : list (string * family_data))
  (final_top_k : nat) (voting : bool) (query_id : string) :
  voting = true \/ (0 <= multi_model_rrf_k self)%Z ->
  (exists f, In f family_results /\ In query_id (Dict.keys (results (snd f)))) ->
  exists final ranked,
    multi_model_rrf self family_results final_top_k voting = Ok final /\
    Dict.get final query_id = Some (firstn final_top_k ranked) /\
    NoDup ranked /\
    (forall image,
       In image ranked <->
       exists f, In f family_results /\
                 In image (firstn final_top_k (family_list (snd f) query_id))) /\
    descending
      (cross_family_score voting (multi_model_rrf_k self) final_top_k family_results query_id)
      ranked.
Proof.
  intros Hk [f0 [Hf0 Hq0]].
  unfold multi_model_rrf. rewrite multi_model_loop_eq by exact Hk.
  eexists. eexists. split; [reflexivity|]. split.
  { rewrite get_fold_set.
    assert (Hin : In query_id (family_query_ids family_results)).
    { unfold family_query_ids. apply In_unique. split; [|intros []].
      apply in_flat_map. exists f0. auto. }
    apply existsb_eqb_In in Hin. rewrite Hin. reflexivity. }
  destruct (RRFFacts.ranked_entries
              (cross_family_score voting (multi_model_rrf_k self) final_top_k
                 family_results query_id)
              (cross_family_entries voting (multi_model_rrf_k self) final_top_k
                 family_results query_id))
    as [Hnd [Hin Hdesc]].
  { intros image. apply total_cross_family. }
  split; [exact Hnd|]. split; [|exact Hdesc].
  intros image. rewrite Hin. unfold cross_family_entries.
  rewrite in_map_iff. split.
  - intros [[i v] [<- H]]. apply in_flat_map in H. destruct H as [f [Hf H]].
    exists f. split; [exact Hf|].
    rewrite <- (list_entries_keys voting (weight (snd f)) (multi_model_rrf_k self) 1).
    apply in_map_iff. exists (i, v). auto.
  - intros [f [Hf H]].
    rewrite <- (list_entries_keys voting (weight (snd f)) (multi_model_rrf_k self) 1) in H.
    apply in_map_iff in H. destruct H as [[i v] [Hfst H]].
    exists (i, v). split; [exact Hfst|]. apply in_flat_map. eauto.
Qed.

(** *** What a run reads of the pipeline object *)

(** Two pipeline objects that agree on everything the image search reads:
    all attributes but [model_weights] and [model_families], and the
    weights of the active view collections computed from these. *)
Definition same_run (s s' : pipeline) : Prop :=
  use_voting s = use_voting s' /\
  enable_multi_model s = enable_multi_model s' /\
  private_test_mode s = private_test_mode s' /\
  primary_checkpoint s = primary_checkpoint s' /\
  active_families s = active_families s' /\
  active_model_weights s = active_model_weights s' /\
  article_to_images s = article_to_images s' /\
  rrf_k s = rrf_k s' /\
  multi_model_rrf_k s = multi_model_rrf_k s' /\
  use_sigmoid_boosting s = use_sigmoid_boosting s' /\
  article_ranking_boost s = article_ranking_boost s' /\
  similarity_weight s = similarity_weight s' /\
  rank_weight s = rank_weight s' /\
  sigmoid_bias s = sigmoid_bias s' /\
  max_boost_factor s = max_boost_factor s' /\
  active_weights s = active_weights s'.

Ltac same_fields H :=
  let Hvoting := fresh "Hvoting" in
  let Hmulti := fresh "Hmulti" in
  let Hprivate := fresh "Hprivate" in
  let Hcp := fresh "Hcp" in
  let Hfams := fresh "Hfams" in
  let Hamw := fresh "Hamw" in
  let Ha2i := fresh "Ha2i" in
  let Hk := fresh "Hk" in
  let Hkmm := fresh "Hkmm" in
  let Hsig := fresh "Hsig" in
  let Hboost := fresh "Hboost" in
  let Hsw := fresh "Hsw" in
  let Hrw := fresh "Hrw" in
  let Hbias := fresh "Hbias" in
  let Hmax := fresh "Hmax" in
  let Hw := fresh "Hw" in
  destruct H as (Hvoting & Hmulti & Hprivate & Hcp & Hfams & Hamw & Ha2i & Hk & Hkmm
                 & Hsig & Hboost & Hsw & Hrw & Hbias & Hmax & Hw);
  rewrite <- ?Hvoting, <- ?Hmulti, <- ?Hprivate, <- ?Hcp, <- ?Hfams, <- ?Hamw, <- ?Ha2i,
    <- ?Hk, <- ?Hkmm, <- ?Hsig, <- ?Hboost, <- ?Hsw, <- ?Hrw, <- ?Hbias, <- ?Hmax, <- ?Hw.

Lemma map_result_ext {A B : Type} (f g : A -> result B) (l : list A) :
  (forall a, f a = g a) -> map_result f l = map_result g l.
Proof.
  intros H. induction l as [|a l IH]; [reflexivity|].
  cbn [map_result]. rewrite H, IH. reflexivity.
Qed.

Lemma fold_left_ext {A B : Type} (f g : A -> B -> A) (l : list B) (a : A) :
  (forall x y, f x y = g x y) -> fold_left f l a = fold_left g l a.
Proof.
  intros H. revert a. induction l as [|b l IH]; intros a; [reflexivity|].
  cbn [fold_left]. rewrite H. apply IH.
Qed.

Section SameRun.

Variable client_scroll : string -> string -> result (list (option (list float))).
Variable client_search : string -> list float -> option (list string) -> nat -> result (list hit).
Variable math_log : Z -> float.
Variable math_exp : float -> result float.

Variables s s' : pipeline.
Hypothesis Hsame : same_run s s'.

Lemma calculate_sigmoid_boost_same x r :
  calculate_sigmoid_boost math_log math_exp s x r =
  calculate_sigmoid_boost math_log math_exp s' x r.
Proof.
  pose proof Hsame as H. unfold calculate_sigmoid_boost. same_fields H. reflexivity.
Qed.

Lemma boosted_result_same m h :
  boosted_result math_log math_exp s m h = boosted_result math_log math_exp s' m h.
Proof. unfold boosted_result. rewrite calculate_sigmoid_boost_same. reflexivity. Qed.

Lemma search_with_boost_same c v cands m n :
  search_similar_images_with_ranking_boost client_search math_log math_exp s c v cands m n =
  search_similar_images_with_ranking_boost client_search math_log math_exp s' c v cands m n.
Proof.
  unfold search_similar_images_with_ranking_boost.
  destruct (client_search c v (Some cands) n) as [hits|e]; [|reflexivity].
  cbn [bind]. rewrite (map_result_ext _ _ hits (boosted_result_same m)). reflexivity.
Qed.

Lemma active_collections_with_same qc :
  active_collections_with s qc = active_collections_with s' qc.
Proof.
  pose proof Hsame as H. unfold active_collections_with. same_fields H. reflexivity.
Qed.

Lemma optimized_collections_same qc :
  optimized_collections s qc = optimized_collections s' qc.
Proof.
  pose proof Hsame as H. unfold optimized_collections. same_fields H. reflexivity.
Qed.

Lemma search_queries_with_articles_same queries q2a qc sc top_k :
  search_queries_with_articles client_scroll client_search math_log math_exp
    s queries q2a qc sc top_k =
  search_queries_with_articles client_scroll client_search math_log math_exp
    s' queries q2a qc sc top_k.
Proof.
  unfold search_queries_with_articles. generalize (@nil (string * list (string * list image_result))).
  induction queries as [|q rest IH]; intros acc; [reflexivity|].
  cbn [search_queries_with_articles_loop].
  destruct (Dict.get q2a q) as [article_ids|]; [|reflexivity].
  pose proof Hsame as H. same_fields H.
  destruct (candidate_loop (article_to_images s) 1 article_ids [] []) as [cands rmap].
  destruct cands as [|c cands]; [apply IH|].
  rewrite IH, active_collections_with_same. f_equal. f_equal. apply fold_left_ext.
  intros qr col. unfold search_with_articles_collection.
  destruct (get_query_embedding client_scroll col q) as [[|x v]|]; try reflexivity.
  rewrite search_with_boost_same. reflexivity.
Qed.

Lemma search_queries_without_articles_same queries qc sc d f :
  search_queries_without_articles client_scroll client_search s queries qc sc d f =
  search_queries_without_articles client_scroll client_search s' queries qc sc d f.
Proof.
  unfold search_queries_without_articles. rewrite optimized_collections_same. reflexivity.
Qed.

Lemma family_search_same q2a qw qwo qc sc d f :
  family_search client_scroll client_search math_log math_exp s q2a qw qwo qc sc d f =
  family_search client_scroll client_search math_log math_exp s' q2a qw qwo qc sc d f.
Proof.
  unfold family_search.
  rewrite search_queries_with_articles_same, search_queries_without_articles_same.
  reflexivity.
Qed.

Lemma aggregate_same search_results voting :
  _aggregate_final_collections s search_results voting =
  _aggregate_final_collections s' search_results voting.
Proof.
  pose proof Hsame as H. unfold _aggregate_final_collections. same_fields H. reflexivity.
Qed.

Lemma family_loop_same q2a qw qwo d f families acc :
  family_loop client_scroll client_search math_log math_exp s q2a qw qwo d f families acc =
  family_loop client_scroll client_search math_log math_exp s' q2a qw qwo d f families acc.
Proof.
  revert acc. induction families as [|[name fc] rest IH]; intros acc; [reflexivity|].
  cbn [family_loop]. rewrite family_search_same.
  destruct (family_search _ _ _ _ s' q2a qw qwo _ _ d f) as [sr|e]; [|reflexivity].
  cbn [bind]. rewrite aggregate_same.
  pose proof Hsame as H. same_fields H.
  destruct (_aggregate_final_collections s' sr (use_voting s)) as [fr|e]; [|reflexivity].
  cbn [bind]. apply IH.
Qed.

Lemma image_stage_same csv m d f :
  image_stage client_scroll client_search math_log math_exp s csv m d f =
  image_stage client_scroll client_search math_log math_exp s' csv m d f.
Proof.
  pose proof Hsame as H.
  unfold image_stage, multi_model_image_search_pipeline, image_search_pipeline,
    multi_model_rrf, get_query_collection_name.
  same_fields H.
  destruct (enable_multi_model s); cbn [negb].
  - destruct (active_families s) as [families|]; [|reflexivity].
    destruct (load_and_classify_queries csv m) as [[q2a qw] qwo].
    rewrite family_loop_same. reflexivity.
  - destruct (Dict.get database_mapping (primary_checkpoint s)); [|reflexivity].
    cbn [bind].
    match goal with |- context [match ?c with [] => _ | _ => _ end] => destruct c end;
      [reflexivity|].
    destruct (load_and_classify_queries csv m) as [[q2a qw] qwo].
    rewrite family_search_same.
    destruct (family_search _ _ _ _ s' q2a qw qwo _ _ d f) as [sr|e]; [|reflexivity].
    cbn [bind]. rewrite aggregate_same. reflexivity.
Qed.

End SameRun.

(** *** The JSON configuration *)

Section DictDelete.
Context {V : Type}.
Implicit Types (d : list (string * V)) (v : V).

(** The dictionary without a key. *)
Definition del (key : string) d : list (string * V) :=
  filter (fun e => negb (String.eqb (fst e) key)) d.

Lemma del_set_same d key v : del key (Dict.set d key v) = del key d.
Proof.
  unfold del. induction d as [|[k' x] d IH]; cbn.
  - rewrite String.eqb_refl. reflexivity.
  - destruct (String.eqb_spec k' key) as [-> |Hne]; cbn.
    + rewrite String.eqb_refl. reflexivity.
    + destruct (String.eqb_spec k' key); [contradiction|]. cbn. rewrite IH. reflexivity.
Qed.

Lemma del_set_other d key key' v :
  key' <> key -> del key (Dict.set d key' v) = Dict.set (del key d) key' v.
Proof.
  intros Hne. unfold del. induction d as [|[k0 x] d IH]; cbn.
  - destruct (String.eqb_spec key' key); [contradiction | reflexivity].
  - destruct (String.eqb_spec k0 key') as [-> |Hk]; cbn.
    + destruct (String.eqb_spec key' key); [contradiction|]. cbn.
      rewrite String.eqb_refl. reflexivity.
    + destruct (String.eqb_spec k0 key); cbn.
      * exact IH.
      * destruct (String.eqb_spec k0 key'); [contradiction|]. rewrite IH. reflexivity.
Qed.

Lemma del_absent d key : ~ In key (Dict.keys d) -> del key d = d.
Proof.
  unfold del, Dict.keys. induction d as [|[k' x] d IH]; cbn; intros H; [reflexivity|].
  destruct (String.eqb_spec k' key) as [-> |Hne]; [tauto|]. cbn. rewrite IH; tauto.
Qed.

Lemma In_set d key v e : In e (Dict.set d key v) -> e = (key, v) \/ In e d.
Proof.
  induction d as [|[k' x] d IH]; cbn.
  - intros [<-|[]]. auto.
  - destruct (String.eqb_spec k' key) as [-> |Hne]; cbn.
    + intros [<-|H]; auto.
    + intros [<-|H]; [auto|]. destruct (IH H); auto.
Qed.

Lemma filter_del (P : string * V -> bool) d key :
  (forall e, In e d -> fst e = key -> P e = false) ->
  filter P d = filter P (del key d).
Proof.
  unfold del. induction d as [|e d IH]; cbn; intros H; [reflexivity|].
  destruct (String.eqb_spec (fst e) key) as [He|He]; cbn.
  - rewrite (H e (or_introl eq_refl) He). apply IH. intros e' He'. apply H. auto.
  - rewrite IH by (intros e' He'; apply H; auto). reflexivity.
Qed.

Lemma get_fold_set_agree {A : Type} (key : A -> string) (val : A -> V) (es : list A)
  d d' col :
  Dict.get d col = Dict.get d' col ->
  Dict.get (fold_left (fun w e => Dict.set w (key e) (val e)) es d) col =
  Dict.get (fold_left (fun w e => Dict.set w (key e) (val e)) es d') col.
Proof.
  revert d d'. induction es as [|e es IH]; intros d d' H; [exact H|].
  cbn [fold_left]. apply IH.
  destruct (String.eqb_spec (key e) col) as [<-|Hne].
  - rewrite !get_set_same. reflexivity.
  - rewrite !get_set_other by exact Hne. exact H.
Qed.

Lemma get_fold_set_absent {A : Type} (key : A -> string) (val : A -> V) (es : list A) d col :
  ~ In col (map key es) ->
  Dict.get (fold_left (fun w e => Dict.set w (key e) (val e)) es d) col = Dict.get d col.
Proof.
  revert d. induction es as [|e es IH]; intros d H; [reflexivity|].
  cbn [fold_left]. cbn in H. rewrite IH by tauto.
  apply get_set_other. tauto.
Qed.

End DictDelete.

(** The entries [(view, weight)] of a database of the configuration, its
    view collections under the prefix, the name and the record of its
    family. *)
Definition entries_of (db : db_config) : list (string * Q) :=
  List.concat (match db_query_collections db with Some l => l | None => [] end).

Definition views_of (private : bool) (db : db_config) : list string :=
  map (fun e => private_name private (fst e)) (entries_of db).

Definition family_name_of (db_name : string) : string :=
  PyStr.remove_all "Database_" db_name.

Definition family_of (private : bool) (db : string * db_config) : family_config :=
  {| query_collections := views_of private (snd db);
     search_collection := fst db;
     family_weight := match db_weight (snd db) with Some w => w | None => 1%Q end |}.

Definition set_views (private : bool) (wts : list (string * Q)) (db : db_config)
  : list (string * Q) :=
  fold_left (fun w e => Dict.set w (private_name private (fst e)) (snd e)) (entries_of db) wts.

Lemma add_query_collection_fold private es l w :
  fold_left (add_query_collection private) es (l, w) =
  (l ++ map (fun e => private_name private (fst e)) es,
   fold_left (fun w e => Dict.set w (private_name private (fst e)) (snd e)) es w).
Proof.
  revert l w. induction es as [|e es IH]; intros l w; cbn [fold_left map].
  - rewrite app_nil_r. reflexivity.
  - unfold add_query_collection at 2. cbn [fst snd]. rewrite IH, <- app_assoc. reflexivity.
Qed.

Lemma add_database_eq private st db :
  add_database private st db =
  (Dict.set (fst st) (family_name_of (fst db)) (family_of private db),
   set_views private (snd st) (snd db)).
Proof.
  unfold add_database, family_of, set_views, views_of, entries_of, family_name_of.
  rewrite add_query_collection_fold. reflexivity.
Qed.

Section RemoveFamily.

Variable private : bool.
Variable fname : string.
Variable viewsF : list string.

(** A database whose family has another name and none of the views. *)
Definition unrelated (db : string * db_config) : Prop :=
  family_name_of (fst db) <> fname /\
  forall col, In col (views_of private (snd db)) -> ~ In col viewsF.

(** The state of [build_config_from_json] never touched by the family. *)
Definition clean (st : list (string * family_config) * list (string * Q)) : Prop :=
  ~ In fname (Dict.keys (fst st)) /\
  forall e col, In e (fst st) -> In col (query_collections (snd e)) -> ~ In col viewsF.

(** The states with and without the family. *)
Definition related (st st' : list (string * family_config) * list (string * Q)) : Prop :=
  del fname (fst st) = fst st' /\
  (forall e, In e (fst st) -> fst e = fname -> gt0 (family_weight (snd e)) = false) /\
  (forall e col, In e (fst st') -> In col (query_collections (snd e)) -> ~ In col viewsF) /\
  (forall col, ~ In col viewsF -> Dict.get (snd st) col = Dict.get (snd st') col).

Lemma clean_step st db : unrelated db -> clean st -> clean (add_database private st db).
Proof.
  intros [Hname Hviews] [Hkeys Hcols]. rewrite add_database_eq. split; cbn [fst].
  - intros H. apply In_keys_set in H. destruct H as [H|H]; [tauto | congruence].
  - intros e col He Hcol. apply In_set in He. destruct He as [-> |He].
    + apply Hviews. exact Hcol.
    + eapply Hcols; eassumption.
Qed.

Lemma clean_fold dbs st :
  Forall unrelated dbs -> clean st -> clean (fold_left (add_database private) dbs st).
Proof.
  intros H. revert st. induction H as [|db dbs Hdb Hdbs IH]; intros st Hst; [exact Hst|].
  cbn [fold_left]. apply IH, clean_step; assumption.
Qed.

Lemma related_step st st' db :
  unrelated db -> related st st' ->
  related (add_database private st db) (add_database private st' db).
Proof.
  intros [Hname Hviews] (Hdel & Hweight & Hcols & Hget). rewrite !add_database_eq.
  split; [|split; [|split]]; cbn [fst snd].
  - rewrite del_set_other by exact Hname. rewrite Hdel. reflexivity.
  - intros e He Hfst. apply In_set in He. destruct He as [-> |He].
    + cbn in Hfst. congruence.
    + apply Hweight; assumption.
  - intros e col He Hcol. apply In_set in He. destruct He as [-> |He].
    + apply Hviews. exact Hcol.
    + eapply Hcols; eassumption.
  - intros col Hcol. unfold set_views. apply get_fold_set_agree, Hget, Hcol.
Qed.

Lemma related_fold dbs st st' :
  Forall unrelated dbs -> related st st' ->
  related (fold_left (add_database private) dbs st)
          (fold_left (add_database private) dbs st').
Proof.
  intros H. revert st st'. induction H as [|db dbs Hdb Hdbs IH]; intros st st' Hst.
  - exact Hst.
  - cbn [fold_left]. apply IH, related_step; assumption.
Qed.

(** Adding the family itself, of name [fname], views [viewsF] and a
    weight that is not positive. *)
Lemma related_start st db :
  family_name_of (fst db) = fname ->
  views_of private (snd db) = viewsF ->
  gt0 (family_weight (family_of private db)) = false ->
  clean st -> related (add_database private st db) st.
Proof.
  intros Hname Hviews Hw [Hkeys Hcols]. rewrite add_database_eq.
  split; [|split; [|split]]; cbn [fst snd].
  - rewrite Hname, del_set_same. apply del_absent, Hkeys.
  - intros e He Hfst. apply In_set in He. destruct He as [-> |He].
    + exact Hw.
    + exfalso. apply Hkeys. unfold Dict.keys. rewrite <- Hfst. apply in_map, He.
  - exact Hcols.
  - intros col Hcol. unfold set_views. apply get_fold_set_absent.
    fold (views_of private (snd db)). rewrite Hviews. exact Hcol.
Qed.

Lemma related_build pre db post :
  family_name_of (fst db) = fname ->
  views_of private (snd db) = viewsF ->
  gt0 (family_weight (family_of private db)) = false ->
  Forall unrelated (pre ++ post) ->
  related (build_config_from_json private (pre ++ db :: post))
          (build_config_from_json private (pre ++ post)).
Proof.
  intros Hname Hviews Hw Hall. apply Forall_app in Hall. destruct Hall as [Hpre Hpost].
  unfold build_config_from_json. rewrite !fold_left_app. cbn [fold_left].
  apply related_fold; [exact Hpost|].
  apply related_start; try assumption.
  apply clean_fold; [exact Hpre|]. split; [intros [] | intros e col []].
Qed.

End RemoveFamily.

(** *** A run under a JSON configuration *)

(** The weights of the views of the given families, as
    [_aggregate_final_collections] collects them in multi-model mode. *)
Definition family_weights (wts : list (string * Q)) (families : list family_config)
  : list (string * Q) :=
  fold_left
    (fun acc family_config =>
       fold_left
         (fun acc' col =>
            match Dict.get wts col with
            | Some w => Dict.set acc' col w
            | None => acc'
            end)
         (query_collections family_config) acc)
    families [].

Lemma family_weights_agree wts wts' families :
  (forall fc col, In fc families -> In col (query_collections fc) ->
                  Dict.get wts col = Dict.get wts' col) ->
  family_weights wts families = family_weights wts' families.
Proof.
  unfold family_weights. generalize (@nil (string * Q)).
  induction families as [|fc rest IH]; intros acc H; [reflexivity|].
  cbn [fold_left].
  assert (Hfc : forall acc0,
    fold_left (fun acc' col => match Dict.get wts col with
                               | Some w => Dict.set acc' col w | None => acc' end)
      (query_collections fc) acc0 =
    fold_left (fun acc' col => match Dict.get wts' col with
                               | Some w => Dict.set acc' col w | None => acc' end)
      (query_collections fc) acc0).
  { assert (Hcols : forall col, In col (query_collections fc) ->
                                Dict.get wts col = Dict.get wts' col).
    { intros col Hcol. apply (H fc col); [left; reflexivity | exact Hcol]. }
    induction (query_collections fc) as [|col cols IHc]; intros acc0; [reflexivity|].
    cbn [fold_left]. rewrite (Hcols col (or_introl eq_refl)).
    apply IHc. intros c Hc. apply Hcols. right. exact Hc. }
  rewrite Hfc. apply IH. intros fc' col Hfc' Hcol. apply (H fc' col); [right|]; assumption.
Qed.

(** The object [__init__] builds in multi-model mode from the families
    and the weight table of the configuration. *)
Definition init_from (st : list (string * family_config) * list (string * Q))
  (a : init_args) : result pipeline :=
  if negb (existsb (String.eqb (arg_primary_checkpoint a)) valid_checkpoints)
  then Raise ValueError
  else
    match filter (fun e => gt0 (family_weight (snd e))) (fst st) with
    | [] => Raise ValueError
    | act =>
        Ok {| use_voting := arg_use_voting a;
              enable_multi_model := true;
              private_test_mode := arg_private_test_mode a;
              primary_checkpoint := arg_primary_checkpoint a;
              model_weights := snd st;
              model_families := Some (fst st);
              active_families := Some act;
              active_model_weights := None;
              article_to_images := mapping a;
              rrf_k := arg_rrf_k a;
              multi_model_rrf_k := arg_multi_model_rrf_k a;
              use_sigmoid_boosting := arg_use_sigmoid_boosting a;
              article_ranking_boost := arg_article_ranking_boost a;
              similarity_weight := arg_similarity_weight a;
              rank_weight := arg_rank_weight a;
              sigmoid_bias := arg_sigmoid_bias a;
              max_boost_factor := arg_max_boost_factor a |}
    end.

Lemma init_json_eq cfg a :
  cfg <> [] -> arg_enable_multi_model a = true ->
  init (Some cfg) a = init_from (build_config_from_json (arg_private_test_mode a) cfg) a.
Proof.
  intros Hcfg Hmulti. unfold init, init_from. rewrite Hmulti.
  destruct (negb (existsb (String.eqb (arg_primary_checkpoint a)) valid_checkpoints));
    [reflexivity|].
  destruct cfg as [|e l]; [contradiction|]. cbn [bind fst snd].
  destruct (filter (fun e0 => gt0 (family_weight (snd e0)))
              (fst (build_config_from_json (arg_private_test_mode a) (e :: l))));
    reflexivity.
Qed.

Section Run.

Variable client_scroll : string -> string -> result (list (option (list float))).
Variable client_search : string -> list float -> option (list string) -> nat -> result (list hit).
Variable math_log : Z -> float.
Variable math_exp : float -> result float.

(** The construction of the pipeline followed by the image stage. *)
Definition run (json_config : option (list (string * db_config))) (a : init_args)
  (submission_csv : list (string * list string))
  (max_articles_per_query direct_search_top_k final_top_k : nat) : result csv_file :=
  self <- init json_config a ;;
  image_stage client_scroll client_search math_log math_exp self submission_csv
    max_articles_per_query direct_search_top_k final_top_k.

Lemma run_related fname viewsF st st' a csv m d f :
  related fname viewsF st st' ->
  (self <- init_from st a ;;
   image_stage client_scroll client_search math_log math_exp self csv m d f) =
  (self <- init_from st' a ;;
   image_stage client_scroll client_search math_log math_exp self csv m d f).
Proof.
  intros (Hdel & Hweight & Hcols & Hget). unfold init_from.
  destruct (negb (existsb (String.eqb (arg_primary_checkpoint a)) valid_checkpoints));
    [reflexivity|].
  rewrite (filter_del (fun e => gt0 (family_weight (snd e))) (fst st) fname Hweight), Hdel.
  destruct (filter (fun e => gt0 (family_weight (snd e))) (fst st')) as [|e act] eqn:Eact;
    [reflexivity|].
  cbn [bind]. apply image_stage_same.
  unfold same_run. cbn. repeat (split; [reflexivity|]).
  change (family_weights (snd st) (Dict.values (e :: act)) =
          family_weights (snd st') (Dict.values (e :: act))).
  apply family_weights_agree. intros fc col Hfc Hcol.
  apply Hget. unfold Dict.values in Hfc. apply in_map_iff in Hfc.
  destruct Hfc as [e' [<- He']].
  apply (Hcols e' col); [|exact Hcol].
  rewrite <- Eact in He'. apply filter_In in He'. tauto.
Qed.

End Run.

(** *** Views of weight zero *)

(** The weight the aggregator uses for a view collection. *)
Definition effective_weight (self : pipeline) (col : string) : Q :=
  match Dict.get (active_weights self) col with Some w => w | None => 0%Q end.

(** The search results without those of one view collection. *)
Definition drop_view (col : string)
  (search_results : list (string * list (string * list image_result)))
  : list (string * list (string * list image_result)) :=
  map (fun e => (fst e, del col (snd e))) search_results.

Lemma add_collections_del voting weights k col collection_results scores :
  Qle_bool (match Dict.get weights col with Some w => w | None => 0%Q end) 0 = true ->
  add_collections voting weights k collection_results scores =
  add_collections voting weights k (del col collection_results) scores.
Proof.
  intros Hw. revert scores.
  induction collection_results as [|[name res] rest IH]; intros scores; [reflexivity|].
  cbn [add_collections del filter fst].
  destruct (String.eqb_spec name col) as [-> |Hne]; cbn [negb].
  - rewrite Hw. apply IH.
  - cbn [add_collections].
    destruct (Qle_bool (match Dict.get weights name with Some w => w | None => 0%Q end) 0).
    + apply IH.
    + destruct (add_results voting _ k 1 res scores); [|reflexivity]. cbn [bind]. apply IH.
Qed.

Lemma aggregate_loop_drop voting weights k col search_results final_results :
  Qle_bool (match Dict.get weights col with Some w => w | None => 0%Q end) 0 = true ->
  aggregate_loop voting weights k search_results final_results =
  aggregate_loop voting weights k (drop_view col search_results) final_results.
Proof.
  intros Hw. revert final_results.
  induction search_results as [|[q cr] rest IH]; intros final_results; [reflexivity|].
  cbn [aggregate_loop drop_view map fst snd].
  rewrite <- (add_collections_del voting weights k col cr [] Hw).
  destruct (add_collections voting weights k cr []); [|reflexivity].
  cbn [bind]. apply IH.
Qed.

Lemma NoDup_keys_set {V : Type} (d : list (string * V)) key v :
  NoDup (Dict.keys d) -> NoDup (Dict.keys (Dict.set d key v)).
Proof.
  intros H. rewrite keys_set. destruct (Dict.mem d key) eqn:E; [exact H|].
  assert (Hn : ~ In key (Dict.keys d)).
  { intros Hin. apply mem_keys in Hin. congruence. }
  apply NoDup_app; [exact H | constructor; [intros [] | constructor] |].
  intros x Hx [<-|[]]. contradiction.
Qed.

Lemma NoDup_keys_fold_set {A V : Type} (key : A -> string) (val : A -> V) (es : list A)
  (d : list (string * V)) :
  NoDup (Dict.keys d) ->
  NoDup (Dict.keys (fold_left (fun w e => Dict.set w (key e) (val e)) es d)).
Proof.
  revert d. induction es as [|e es IH]; intros d H; [exact H|].
  cbn [fold_left]. apply IH, NoDup_keys_set, H.
Qed.

Lemma NoDup_weights_build private dbs st :
  NoDup (Dict.keys (snd st)) ->
  NoDup (Dict.keys (snd (fold_left (add_database private) dbs st))).
Proof.
  revert st. induction dbs as [|db dbs IH]; intros st H; [exact H|].
  cbn [fold_left]. apply IH. rewrite add_database_eq. cbn [snd].
  unfold set_views. apply NoDup_keys_fold_set, H.
Qed.

Lemma get_In {V : Type} (d : list (string * V)) key v :
  Dict.get d key = Some v -> In (key, v) d.
Proof.
  induction d as [|[k' x] d IH]; cbn; [discriminate|].
  destruct (String.eqb_spec k' key) as [-> |Hne].
  - intros H. inversion H. auto.
  - intros H. right. apply IH, H.
Qed.

Lemma In_get {V : Type} (d : list (string * V)) key v :
  NoDup (Dict.keys d) -> In (key, v) d -> Dict.get d key = Some v.
Proof.
  unfold Dict.keys. induction d as [|[k' x] d IH]; cbn; intros Hnd Hin; [contradiction|].
  inversion Hnd as [|? ? Hnot Hrest]; subst.
  destruct Hin as [Heq|Hin].
  - inversion Heq; subst. rewrite String.eqb_refl. reflexivity.
  - destruct (String.eqb_spec k' key) as [-> |Hne].
    + exfalso. apply Hnot. apply in_map_iff. exists (key, v). auto.
    + apply IH; assumption.
Qed.

Lemma get_family_weights wts families col x :
  Dict.get (family_weights wts families) col = Some x -> Dict.get wts col = Some x.
Proof.
  unfold family_weights.
  assert (Hgen : forall acc,
    (Dict.get acc col = Some x -> Dict.get wts col = Some x) ->
    Dict.get
      (fold_left
         (fun acc0 fc =>
            fold_left
              (fun acc' c => match Dict.get wts c with
                             | Some w => Dict.set acc' c w | None => acc' end)
              (query_collections fc) acc0)
         families acc) col = Some x ->
    Dict.get wts col = Some x).
  { induction families as [|fc rest IH]; intros acc Hacc; [exact Hacc|].
    cbn [fold_left]. apply IH.
    generalize dependent acc.
    induction (query_collections fc) as [|c cols IHc]; intros acc Hacc; [exact Hacc|].
    cbn [fold_left]. apply IHc.
    destruct (Dict.get wts c) as [w|] eqn:Ec; [|exact Hacc].
    destruct (String.eqb_spec c col) as [-> |Hne].
    - rewrite get_set_same. congruence.
    - rewrite get_set_other by exact Hne. exact Hacc. }
  apply Hgen. cbn. discriminate.
Qed.

Lemma Qle_bool_zero w : (w == 0)%Q -> Qle_bool w 0 = true.
Proof. intros H. apply Qle_bool_iff. rewrite H. apply Qle_refl. Qed.

Lemma NoDup_from_list {V : Type} (l : list (string * V)) : NoDup (Dict.keys (from_list l)).
Proof.
  unfold from_list, Dict.update. apply NoDup_keys_fold_set. constructor.
Qed.

Lemma legacy_weights_NoDup a families weights :
  _build_legacy_config a = Ok (families, weights) -> NoDup (Dict.keys weights).
Proof.
  unfold _build_legacy_config. destruct (arg_enable_multi_model a).
  - destruct (Dict.get database_mapping (arg_primary_checkpoint a)); [|discriminate].
    intros H. inversion H. apply NoDup_from_list.
  - intros H. inversion H. apply NoDup_from_list.
Qed.

(** What [__init__] guarantees of the weight table and the active sets. *)
Lemma init_inv json a self :
  init json a = Ok self ->
  NoDup (Dict.keys (model_weights self)) /\
  ((exists act, active_families self = Some act /\ active_model_weights self = None) \/
   (active_families self = None /\
    active_model_weights self = Some (filter (fun e => gt0 (snd e)) (model_weights self)))).
Proof.
  unfold init.
  destruct (negb (existsb (String.eqb (arg_primary_checkpoint a)) valid_checkpoints));
    [discriminate|].
  set (built := match match json with Some (e :: l) => Some (e :: l) | _ => None end with
                | Some c => _ | None => _ end).
  assert (Hbuilt : forall families weights em,
            built = Ok (families, weights, em) -> NoDup (Dict.keys weights)).
  { subst built. intros families weights em.
    destruct json as [[|e l]|].
    - destruct (_build_legacy_config a) as [[f w]|] eqn:E; [|discriminate].
      cbn [bind fst snd]. intros H. inversion H; subst. eapply legacy_weights_NoDup, E.
    - intros H. inversion H; subst. unfold build_config_from_json.
      apply NoDup_weights_build. constructor.
    - destruct (_build_legacy_config a) as [[f w]|] eqn:E; [|discriminate].
      cbn [bind fst snd]. intros H. inversion H; subst. eapply legacy_weights_NoDup, E. }
  destruct built as [[[families weights] em]|]; [|discriminate].
  specialize (Hbuilt families weights em eq_refl). cbn [bind fst snd].
  destruct (arg_enable_multi_model a).
  - destruct families as [f|]; [|discriminate].
    destruct (filter (fun e => gt0 (family_weight (snd e))) f) as [|e act] eqn:E;
      [discriminate|].
    cbn [bind fst snd]. intros H. inversion H; subst. cbn. split; [exact Hbuilt|].
    left. eauto.
  - destruct (filter (fun e => gt0 (snd e)) weights) as [|e act] eqn:E; [discriminate|].
    cbn [bind fst snd]. intros H. inversion H; subst. cbn. split; [exact Hbuilt|].
    right. rewrite E. auto.
Qed.

(** A view whose weight in the table is zero has no positive weight for
    the aggregator. *)
Lemma init_effective_weight json a self col w :
  init json a = Ok self ->
  Dict.get (model_weights self) col = Some w -> (w == 0)%Q ->
  Qle_bool (effective_weight self col) 0 = true.
Proof.
  intros Hinit Hget Hw. destruct (init_inv json a self Hinit) as [Hnd [[act [Hact Hamw]]|[Hact Hamw]]].
  - unfold effective_weight, active_weights. rewrite Hamw, Hact.
    fold (family_weights (model_weights self) (Dict.values act)).
    destruct (Dict.get (family_weights (model_weights self) (Dict.values act)) col)
      as [x|] eqn:E; [|reflexivity].
    apply get_family_weights in E. rewrite Hget in E. inversion E; subst.
    apply Qle_bool_zero, Hw.
  - unfold effective_weight, active_weights. rewrite Hamw.
    destruct (Dict.get (filter (fun e => gt0 (snd e)) (model_weights self)) col)
      as [x|] eqn:E; [|reflexivity].
    apply get_In, filter_In in E. destruct E as [Hin Hpos].
    apply (In_get _ _ _ Hnd) in Hin. rewrite Hget in Hin. inversion Hin; subst.
    cbn [snd] in Hpos. unfold gt0 in Hpos. rewrite (Qle_bool_zero x Hw) in Hpos.
    discriminate.
Qed.

(** *** The legacy configuration *)

(** The same arguments with the H14 family disabled. *)
Definition without_h14 (a : init_args) : init_args :=
  {| arg_private_test_mode := arg_private_test_mode a;
     arg_primary_checkpoint := arg_primary_checkpoint a;
     arg_enable_h14_laion := false;
     arg_enable_multi_model := arg_enable_multi_model a;
     primary_query_large_weight := primary_query_large_weight a;
     primary_summary_large_weight := primary_summary_large_weight a;
     primary_concise_large_weight := primary_concise_large_weight a;
     primary_query_base_weight := primary_query_base_weight a;
     primary_summary_base_weight := primary_summary_base_weight a;
     primary_concise_base_weight := primary_concise_base_weight a;
     h14_query_weight := h14_query_weight a;
     h14_summary_weight := h14_summary_weight a;
     h14_concise_weight := h14_concise_weight a;
     primary_large_family_weight := primary_large_family_weight a;
     primary_base_family_weight := primary_base_family_weight a;
     h14_laion_family_weight := h14_laion_family_weight a;
     mapping := mapping a;
     arg_rrf_k := arg_rrf_k a;
     arg_multi_model_rrf_k := arg_multi_model_rrf_k a;
     arg_use_voting := arg_use_voting a;
     arg_use_sigmoid_boosting := arg_use_sigmoid_boosting a;
     arg_article_ranking_boost := arg_article_ranking_boost a;
     arg_similarity_weight := arg_similarity_weight a;
     arg_rank_weight := arg_rank_weight a;
     arg_sigmoid_bias := arg_sigmoid_bias a;
     arg_max_boost_factor := arg_max_boost_factor a |}.

Lemma valid_checkpoint_cases cp :
  existsb (String.eqb cp) valid_checkpoints = true ->
  cp = "Initialized" \/ cp = "Flickr30k" \/ cp = "OpenEvents_v1".
Proof.
  intros H. apply existsb_exists in H. destruct H as [x [Hx He]].
  apply String.eqb_eq in He. subst x. cbn in Hx. intuition.
Qed.

Section LegacyRun.

Variable client_scroll : string -> string -> result (list (option (list float))).
Variable client_search : string -> list float -> option (list string) -> nat -> result (list hit).
Variable math_log : Z -> float.
Variable math_exp : float -> result float.

(** The names of the legacy configuration are fixed and the views of the
    three families differ: an H14 family that is not active is as good as
    disabled. *)
Lemma legacy_h14_removed a csv m d f :
  arg_enable_multi_model a = true ->
  gt0 (h14_laion_family_weight a) = false ->
  run client_scroll client_search math_log math_exp None a csv m d f =
  run client_scroll client_search math_log math_exp None (without_h14 a) csv m d f.
Proof.
  intros Hmulti Hw. unfold run, init.
  change (arg_primary_checkpoint (without_h14 a)) with (arg_primary_checkpoint a).
  destruct (existsb (String.eqb (arg_primary_checkpoint a)) valid_checkpoints) eqn:Ecp;
    [|reflexivity].
  cbn [negb]. unfold _build_legacy_config.
  change (arg_enable_multi_model (without_h14 a)) with (arg_enable_multi_model a).
  rewrite Hmulti.
  destruct a as [priv cp h14 mm w1 w2 w3 w4 w5 w6 w7 w8 w9 fw1 fw2 fw3
                   mp k kmm v sg b sw rw bias mx].
  cbn in *. subst mm. apply valid_checkpoint_cases in Ecp.
  destruct h14; [|reflexivity].
  destruct Ecp as [-> |[-> | ->]]; destruct priv; cbn;
    rewrite ?Hw; destruct (gt0 fw1), (gt0 fw2); cbn; try reflexivity;
    apply image_stage_same; repeat split; reflexivity.
Qed.

End LegacyRun.

(** C7, amended.  A view collection whose weight in the flat
    view-to-weight table is zero is ignored by the aggregator: the fused
    lists are those obtained with its results removed.  A family whose
    configured weight is zero is ignored by a run under a JSON
    configuration, which gives the CSV of the run with that family removed
    from the configuration, provided the other databases of the
    configuration (there is at least one) give families of other names and
    have none of its view collections.  Under the legacy configuration an
    H14 family of weight zero gives the CSV of the run with that family
    disabled. *)
Theorem zero_weight_is_ignored
  (client_scroll : string -> string -> result (list (option (list float))))
  (client_search : string -> list float -> option (list string) -> nat -> result (list hit))
  (math_log : Z -> float) (math_exp : float -> result float) :
  (forall json a self col w search_results voting,
     init json a = Ok self ->
     Dict.get (model_weights self) col = Some w -> (w == 0)%Q ->
     _aggregate_final_collections self search_results voting =
     _aggregate_final_collections self (drop_view col search_results) voting) /\
  (forall a pre name db post w csv m d f,
     arg_enable_multi_model a = true ->
     db_weight db = Some w -> (w == 0)%Q ->
     Forall (unrelated (arg_private_test_mode a) (family_name_of name)
               (views_of (arg_private_test_mode a) db)) (pre ++ post) ->
     pre ++ post <> [] ->
     run client_scroll client_search math_log math_exp
       (Some (pre ++ (name, db) :: post)) a csv m d f =
     run client_scroll client_search math_log math_exp
       (Some (pre ++ post)) a csv m d f) /\
  (forall a csv m d f,
     arg_enable_multi_model a = true ->
     (h14_laion_family_weight a == 0)%Q ->
     run client_scroll client_search math_log math_exp None a csv m d f =
     run client_scroll client_search math_log math_exp None (without_h14 a) csv m d f).
Proof.
  split; [|split].
  - intros json a self col w search_results voting Hinit Hget Hw.
    unfold _aggregate_final_collections. apply aggregate_loop_drop.
    apply (init_effective_weight json a self col w Hinit Hget Hw).
  - intros a pre name db post w csv m d f Hmulti Hweight Hw Hall Hne.
    unfold run. rewrite !init_json_eq; try assumption.
    + eapply run_related. apply related_build; try reflexivity; [|exact Hall].
      cbn [family_of family_weight snd]. rewrite Hweight. unfold gt0.
      rewrite (Qle_bool_zero w Hw). reflexivity.
    + destruct pre; discriminate.
  - intros a csv m d f Hmulti Hw. apply legacy_h14_removed; [exact Hmulti|].
    unfold gt0. rewrite (Qle_bool_zero _ Hw). reflexivity.
Qed.

(** *** Scenarios *)

(** The arguments the command line gives [__init__] by default. *)
Definition cli_args : init_args :=
  {| arg_private_test_mode := false;
     arg_primary_checkpoint := "Initialized";
     arg_enable_h14_laion := true;
     arg_enable_multi_model := true;
     primary_query_large_weight := 1;
     primary_summary_large_weight := 0;
     primary_concise_large_weight := 0;
     primary_query_base_weight := 1;
     primary_summary_base_weight := 0;
     primary_concise_base_weight := 0;
     h14_query_weight := 1;
     h14_summary_weight := 0;
     h14_concise_weight := 0;
     primary_large_family_weight := 1;
     primary_base_family_weight := 1;
     h14_laion_family_weight := 1;
     mapping := [];
     arg_rrf_k := 50;
     arg_multi_model_rrf_k := 50;
     arg_use_voting := false;
     arg_use_sigmoid_boosting := true;
     arg_article_ranking_boost := 0.3;
     arg_similarity_weight := 10;
     arg_rank_weight := 2;
     arg_sigmoid_bias := 0;
     arg_max_boost_factor := 0.5 |}.

(** A vector store in which every query has an embedding in every view
    collection and every search finds the one image [img1]. *)
Definition scroll_any (collection query_id : string) : result (list (option (list float))) :=
  Ok [Some [1%float]].

Definition search_img1 (collection : string) (vector : list float)
  (candidates : option (list string)) (limit : nat) : result (list hit) :=
  Ok [{| payload_image_id := Some "img1"; hit_score := 0.9 |}].

Definition log_zero (rank : Z) : float := 0%float.
Definition exp_one (x : float) : result float := Ok 1%float.

(** Two databases sharing the view collection [V]: [G] of weight 1 and
    [F] of weight 0, and a database [H] of weight 0 with a view of its
    own. *)
Definition database_G : string * db_config :=
  ("Database_G", {| db_weight := Some 1%Q; db_query_collections := Some [[("V", 1%Q)]] |}).

Definition database_F : string * db_config :=
  ("Database_F", {| db_weight := Some 0%Q; db_query_collections := Some [[("V", 0%Q)]] |}).

Definition database_H : string * db_config :=
  ("Database_H", {| db_weight := Some 0%Q; db_query_collections := Some [[("W", 1%Q)]] |}).

(** A stage-1 file with one query, without articles. *)
Definition no_article_csv : list (string * list string) := [("q1", ["#"])].

Example zero_weight_family_scenario :
  arg_enable_multi_model cli_args = true /\
  db_weight (snd database_H) = Some 0%Q /\
  run scroll_any search_img1 log_zero exp_one
    (Some [database_G; database_H]) cli_args no_article_csv 15 20 15 =
  run scroll_any search_img1 log_zero exp_one
    (Some [database_G]) cli_args no_article_csv 15 20 15.
Proof.
  split; [reflexivity|]. split; [reflexivity|].
  apply (proj1 (proj2 (zero_weight_is_ignored scroll_any search_img1 log_zero exp_one))
           cli_args [database_G] "Database_H" (snd database_H) [] 0%Q
           no_article_csv 15 20 15).
  - reflexivity.
  - reflexivity.
  - reflexivity.
  - constructor; [|constructor]. split.
    + vm_compute. discriminate.
    + intros col [<-|[]] [H|[]]. vm_compute in H. discriminate.
  - discriminate.
Defined.

(** The family [F] has weight 0, yet the run with it differs from the
    run without it: its entry for the shared view [V] overrides the weight
    [G] gave that view, and the image found through [V] is lost. *)
Lemma zero_weight_family_counterexample :
  db_weight (snd database_F) = Some 0%Q /\
  (exists file,
     run scroll_any search_img1 log_zero exp_one
       (Some [database_G; database_F]) cli_args no_article_csv 15 20 15 = Ok file /\
     map (firstn 2) (data file) = [["q1"; "#"]]) /\
  (exists file,
     run scroll_any search_img1 log_zero exp_one
       (Some [database_G]) cli_args no_article_csv 15 20 15 = Ok file /\
     map (firstn 2) (data file) = [["q1"; "img1"]]).
Proof.
  split; [reflexivity|]. split; eexists; split; vm_compute; reflexivity.
Qed.

(** A vector store in which a query has an embedding in the query-view
    collections only. *)
Definition scroll_query_view (collection query_id : string)
  : result (list (option (list float))) :=
  if String.prefix "Query_" collection then Ok [Some [1%float]] else Ok [].

(** Under every legacy multi-model configuration the filter of the branch
    for queries without articles changes nothing in the view collections of
    an active family: no name the configuration builds starts with
    ["Query-"]. *)
Lemma legacy_keeps_query_views a self families name family :
  arg_enable_multi_model a = true ->
  init None a = Ok self ->
  active_families self = Some families ->
  In (name, family) families ->
  optimized_collections self (query_collections family) = query_collections family.
Proof.
  intros Hmulti Hinit Hact Hin. unfold init in Hinit.
  destruct (existsb (String.eqb (arg_primary_checkpoint a)) valid_checkpoints) eqn:Ecp;
    [|discriminate].
  cbn [negb] in Hinit. unfold _build_legacy_config in Hinit. rewrite Hmulti in Hinit.
  destruct a as [priv cp h14 mm w1 w2 w3 w4 w5 w6 w7 w8 w9 fw1 fw2 fw3
                   mp k kmm v sg b sw rw bias mx].
  cbn in *. subst mm. apply valid_checkpoint_cases in Ecp.
  destruct Ecp as [-> |[-> | ->]]; destruct priv, h14; cbn in Hinit;
    destruct (gt0 fw1), (gt0 fw2); try destruct (gt0 fw3); cbn in Hinit;
    try discriminate;
    injection Hinit as <-; cbn in Hact; injection Hact as <-;
    cbn in Hin; intuition (try discriminate);
    match goal with H : _ = (name, family) |- _ => injection H as <- <- end;
    reflexivity.
Qed.

(** C1, as the code has it.  The branch for queries without articles
    drops the names starting with ["Query-"], and the legacy configuration
    names its collections [Query_<checkpoint>_<size>]: under every legacy
    multi-model configuration the branch searches all the view collections
    of an active family, the query view among them; with the default
    configuration and a store that has embeddings in the query views only,
    the image found through them is the fused result of a query without
    articles. *)
Theorem query_view_not_bypassed :
  (forall a self families name family,
     arg_enable_multi_model a = true ->
     init None a = Ok self ->
     active_families self = Some families ->
     In (name, family) families ->
     optimized_collections self (query_collections family) = query_collections family /\
     exists view, In view (query_collections family) /\
                  (String.prefix "Query_" view = true \/
                   String.prefix "Private_Query_" view = true)) /\
  (exists file,
     run scroll_query_view search_img1 log_zero exp_one
       None cli_args no_article_csv 15 20 15 = Ok file /\
     map (firstn 2) (data file) = [["q1"; "img1"]]).
Proof.
  split.
  - intros a self families name family Hmulti Hinit Hact Hin.
    split; [eapply legacy_keeps_query_views; eassumption|].
    unfold init in Hinit.
    destruct (existsb (String.eqb (arg_primary_checkpoint a)) valid_checkpoints) eqn:Ecp;
      [|discriminate].
    cbn [negb] in Hinit. unfold _build_legacy_config in Hinit. rewrite Hmulti in Hinit.
    destruct a as [priv cp h14 mm w1 w2 w3 w4 w5 w6 w7 w8 w9 fw1 fw2 fw3
                     mp k kmm v sg b sw rw bias mx].
    cbn in *. subst mm. apply valid_checkpoint_cases in Ecp.
    destruct Ecp as [-> |[-> | ->]]; destruct priv, h14; cbn in Hinit;
      destruct (gt0 fw1), (gt0 fw2); try destruct (gt0 fw3); cbn in Hinit;
      try discriminate;
      injection Hinit as <-; cbn in Hact; injection Hact as <-;
      cbn in Hin; intuition (try discriminate);
      match goal with H : _ = (name, family) |- _ => injection H as <- <- end;
      (eexists; split; [left; reflexivity | (left; reflexivity) || (right; reflexivity)]).
  - eexists. split; vm_compute; reflexivity.
Qed.

Definition large_views : list string :=
  ["Query_Initialized_Large"; "Summary_Initialized_Large"; "Concise_Initialized_Large"].

Example default_legacy_views_kept :
  arg_enable_multi_model cli_args = true /\
  exists self families,
    init None cli_args = Ok self /\
    active_families self = Some families /\
    optimized_collections self large_views = large_views.
Proof.
  split; [reflexivity|].
  destruct (init None cli_args) as [self|e] eqn:Einit; [|vm_compute in Einit; discriminate].
  destruct (active_families self) as [families|] eqn:Eact.
  2:{ vm_compute in Einit. injection Einit as <-. discriminate. }
  exists self, families. split; [reflexivity|]. split; [exact Eact|].
  refine (proj1 (proj1 query_view_not_bypassed cli_args self families "Initialized-Large"
                   {| query_collections := large_views;
                      search_collection := "Database_Initialized_Large";
                      family_weight := 1 |} eq_refl Einit Eact _)).
  vm_compute in Einit. injection Einit as <-. cbn in Eact. injection Eact as <-.
  left. reflexivity.
Defined.

(** A stage-1 file with one query whose only article has no image in
    the article mapping. *)
Definition unmapped_article_csv : list (string * list string) := [("q1", ["a1"])].

(** C3, as the code has it.  Whatever the vector store answers, the
    query of [unmapped_article_csv], whose article maps to no candidate
    image, has no row in the stage-2 CSV. *)
Theorem query_without_candidates_dropped
  (client_scroll : string -> string -> result (list (option (list float))))
  (client_search : string -> list float -> option (list string) -> nat -> result (list hit))
  (math_log : Z -> float) (math_exp : float -> result float) :
  In "q1" (map fst unmapped_article_csv) /\
  exists file,
    run client_scroll client_search math_log math_exp
      None cli_args unmapped_article_csv 15 20 15 = Ok file /\
    data file = [].
Proof.
  split; [left; reflexivity|].
  eexists. split; vm_compute; reflexivity.
Qed.

(** Two families with lists for [q1]: [F1] of weight 1 and [F2] of
    weight 4/5. *)
Definition two_families : list (string * family_data) :=
  [ ("F1", {| results := [("q1", ["a"; "b"; "c"])]; weight := 1 |});
    ("F2", {| results := [("q1", ["b"; "a"])]; weight := 4 # 5 |}) ].

Example cross_family_scenario :
  (false = true \/ (0 <= multi_model_rrf_k BoosterFacts.sigmoid_pipeline)%Z) /\
  (exists f, In f two_families /\ In "q1" (Dict.keys (results (snd f)))) /\
  exists final,
    multi_model_rrf BoosterFacts.sigmoid_pipeline two_families 2 false = Ok final /\
    Dict.get final "q1" = Some ["a"; "b"].
Proof.
  assert (H1 : false = true \/ (0 <= multi_model_rrf_k BoosterFacts.sigmoid_pipeline)%Z).
  { right. cbn. lia. }
  assert (H2 : exists f, In f two_families /\ In "q1" (Dict.keys (results (snd f)))).
  { eexists. split; [left; reflexivity | left; reflexivity]. }
  split; [exact H1|]. split; [exact H2|].
  destruct (cross_family_fusion BoosterFacts.sigmoid_pipeline two_families 2 false "q1" H1 H2)
    as (final & ranked & Hrun & _).
  exists final. split; [exact Hrun|].
  vm_compute in Hrun. injection Hrun as <-. reflexivity.
Defined.

End PipelineFacts.

(** ** The entity-weighted article search *)

Module EntitySearchFacts.

Import EntitySearch.

(** An entity whose text, when present, is a string. *)
Definition well_typed (e : entity) : Prop :=
  match text e with
  | None | Some (JStr _) => True
  | Some _ => False
  end.

(** An entity without text, or whose text is blank. *)
Definition empty_text (e : entity) : Prop :=
  match text e with
  | None => True
  | Some (JStr s) => PyStr.strip s = ""
  | Some _ => False
  end.

(** The index call fails: a transport error, or a response whose status
    is not 200. *)
Definition fails (outcome : result response) : Prop :=
  match outcome with
  | Raise _ => True
  | Ok resp => status_code resp <> 200%Z
  end.

Section Facts.

Variable post : search_query -> result response.
Variable weights : list (string * Q).
Hypothesis has_default : Dict.get weights "DEFAULT" <> None.

Lemma entity_clauses_empty e : empty_text e -> entity_clauses weights e = Ok [].
Proof.
  unfold empty_text, entity_clauses. destruct (text e) as [[s| |z]|]; try contradiction.
  - intros ->. reflexivity.
  - reflexivity.
Qed.

Lemma entity_clauses_ok e : well_typed e -> exists cs, entity_clauses weights e = Ok cs.
Proof.
  unfold well_typed, entity_clauses.
  destruct (Dict.get weights "DEFAULT") as [w|]; [|contradiction].
  destruct (text e) as [[s| |z]|]; try contradiction; intros _; cbn [bind].
  - destruct (String.eqb (PyStr.strip s) ""); eauto.
  - cbn. eauto.
Qed.

Lemma should_queries_empty es : Forall empty_text es -> should_queries weights es = Ok [].
Proof.
  induction 1 as [|e es He Hes IH]; [reflexivity|].
  cbn [should_queries]. rewrite (entity_clauses_empty e He), IH. reflexivity.
Qed.

Lemma should_queries_ok es :
  Forall well_typed es -> exists cs, should_queries weights es = Ok cs.
Proof.
  induction 1 as [|e es He Hes [cs IH]]; [cbn; eauto|].
  cbn [should_queries]. destruct (entity_clauses_ok e He) as [c Hc].
  rewrite Hc, IH. cbn. eauto.
Qed.

Lemma request_fails q : fails (post q) -> request_articles post q = Ok [] \/
                                          exists e, request_articles post q = Raise e.
Proof.
  unfold fails, request_articles. destruct (post q) as [resp|e]; cbn [bind].
  - intros H. destruct (Z.eqb_spec (status_code resp) 200); [contradiction | auto].
  - eauto.
Qed.

(** C9.  With a weight table that has a [DEFAULT] entry: the search of
    an empty entity list, or of entities whose texts are all blank, returns
    the empty list; for entities whose texts are strings the search always
    returns a list, never an exception, whatever the index does, and the
    list is empty when the index call fails by a transport error or a
    status other than 200. *)
Theorem search_failures_yield_empty (query_entities : list entity) (top_k : nat) :
  search_articles_for_query post weights [] top_k = Ok [] /\
  (Forall empty_text query_entities ->
   search_articles_for_query post weights query_entities top_k = Ok []) /\
  (Forall well_typed query_entities ->
   (exists r, search_articles_for_query post weights query_entities top_k = Ok r) /\
   ((forall q, fails (post q)) ->
    search_articles_for_query post weights query_entities top_k = Ok [])).
Proof.
  split; [reflexivity|]. split.
  - intros H. unfold search_articles_for_query.
    destruct query_entities; [reflexivity|].
    rewrite (should_queries_empty _ H). reflexivity.
  - intros H. unfold search_articles_for_query.
    destruct query_entities as [|e es]; [split; eauto|].
    destruct (should_queries_ok _ H) as [cs Hcs]. rewrite Hcs. cbn [bind].
    destruct cs as [|c cs]; [split; eauto|]. split.
    + destruct (request_articles post _); eauto.
    + intros Hfail.
      destruct (request_fails {| should := c :: cs; size := top_k |} (Hfail _))
        as [-> |[e' ->]]; reflexivity.
Qed.

End Facts.

(** An index that is down, and the query entity [("Messi", PERSON)]. *)
Definition post_down (q : search_query) : result response := Raise TransportError.

Definition messi : entity :=
  {| text := Some (JStr "Messi"); label := Some (JStr "PERSON") |}.

Example index_down_scenario :
  Dict.get entity_weights "DEFAULT" <> None /\
  Forall well_typed [messi] /\
  (forall q, fails (post_down q)) /\
  search_articles_for_query post_down entity_weights [messi] 10 = Ok [].
Proof.
  assert (H1 : Dict.get entity_weights "DEFAULT" <> None) by discriminate.
  assert (H2 : Forall well_typed [messi]) by (constructor; [exact I | constructor]).
  assert (H3 : forall q, fails (post_down q)) by (intros q; exact I).
  split; [exact H1|]. split; [exact H2|]. split; [exact H3|].
  exact (proj2 (proj2 (proj2 (search_failures_yield_empty post_down entity_weights H1
                                [messi] 10)) H2) H3).
Defined.

End EntitySearchFacts.

(** * Further properties *)

(** ** The standalone reranker: shape, order and fixed points *)

Module RRFMore.

Import RRF DictFacts RRFFacts.

(** *** The order of the query ids *)

Definition string_lt (a b : string) : Prop := String.compare a b = Lt.

Lemma compare_as_OT a b : String.compare a b = OrdersEx.String_as_OT.compare a b.
Proof.
  revert b. induction a as [|c a IH]; intros [|c' b];
    cbn [String.compare OrdersEx.String_as_OT.compare]; try reflexivity.
Qed.

Lemma string_lt_trans a b c : string_lt a b -> string_lt b c -> string_lt a c.
Proof.
  unfold string_lt. rewrite !compare_as_OT.
  apply (@StrictOrder_Transitive _ _ OrdersEx.String_as_OT.lt_strorder).
Qed.

Lemma string_lt_irrefl a : ~ string_lt a a.
Proof.
  unfold string_lt. rewrite compare_as_OT.
  apply (@StrictOrder_Irreflexive _ _ OrdersEx.String_as_OT.lt_strorder).
Qed.

Lemma insert_uniq_sorted x l :
  StronglySorted string_lt l -> StronglySorted string_lt (insert_uniq x l).
Proof.
  induction 1 as [|y r Hr IH Hy]; cbn [insert_uniq].
  - constructor; constructor.
  - destruct (String.compare x y) eqn:E.
    + constructor; assumption.
    + constructor; [constructor; assumption|].
      constructor; [exact E|].
      rewrite Forall_forall in Hy |- *. intros z Hz.
      eapply string_lt_trans; [exact E | apply Hy, Hz].
    + constructor; [exact IH|].
      rewrite Forall_forall in Hy |- *. intros z Hz.
      apply In_insert_uniq in Hz. destruct Hz as [-> |Hz]; [|apply Hy, Hz].
      unfold string_lt. rewrite String.compare_antisym, E. reflexivity.
Qed.

Lemma all_query_ids_sorted dfs : StronglySorted string_lt (all_query_ids dfs).
Proof.
  unfold all_query_ids.
  induction (flat_map (fun df => map fst (rows df)) dfs) as [|x l IH]; cbn [fold_right].
  - constructor.
  - apply insert_uniq_sorted, IH.
Qed.

Lemma sorted_NoDup l : StronglySorted string_lt l -> NoDup l.
Proof.
  induction 1 as [|x l Hl IH Hx]; constructor; [|exact IH].
  intros Hin. rewrite Forall_forall in Hx. apply (string_lt_irrefl x), Hx, Hin.
Qed.

(** Sorting rows that already come in ascending order of query id
    changes nothing. *)
Lemma sort_values_sorted (row : string -> list string) ids :
  StronglySorted string_lt ids ->
  sort_values (map (fun q => (q, row q)) ids) = map (fun q => (q, row q)) ids.
Proof.
  induction 1 as [|x l Hl IH Hx]; [reflexivity|].
  cbn [map sort_values fold_right]. fold (sort_values (map (fun q => (q, row q)) l)).
  rewrite IH. destruct l as [|y l']; [reflexivity|].
  cbn [map insert_row fst]. inversion Hx as [|? ? Hxy _]; subst.
  unfold String.leb. unfold string_lt in Hxy. rewrite Hxy. reflexivity.
Qed.

Lemma rerank_all_sorted (body : string -> result (list string * bool))
  (row : string -> list string) (skip : string -> bool) ids :
  ids <> [] -> StronglySorted string_lt ids ->
  (forall q, In q ids -> body q = Ok (row q, skip q)) ->
  rerank_all body ids =
  Ok (map (fun q => (q, row q)) ids, List.length (filter skip ids)).
Proof.
  intros Hne Hs Hbody. unfold rerank_all.
  rewrite (rerank_loop_total body row skip ids [] 0 Hbody). cbn [bind fst snd app].
  destruct ids as [|q rest]; [contradiction|].
  rewrite sort_values_sorted by exact Hs. reflexivity.
Qed.

(** *** The shape of the reranked frame *)

Lemma rerank_query_adaptive_total k n dfs :
  (0 <= k)%Z -> dfs <> [] ->
  exists row,
    forall q, rerank_query_adaptive k n dfs q =
              Ok (row q, negb (forallb (fun b => b) (valid_files dfs q))) /\
              List.length (row q) = n.
Proof.
  intros Hk Hdfs.
  exists (fun q =>
    if forallb (fun b => b) (valid_files dfs q)
    then fill n (ranking (add_all []
           (capped_entries k
              (match dynamic_limit (query_article_counts dfs q) with
               | Ok c => c | Raise _ => 0 end) dfs q)))
    else repeat sentinel n).
  intros q. destruct (forallb (fun b => b) (valid_files dfs q)) eqn:E; cbn [negb].
  - split; [|apply PipelineFacts.fill_length].
    assert (Hc : query_article_counts dfs q <> []).
    { unfold query_article_counts. destruct dfs; [contradiction | discriminate]. }
    destruct (dynamic_limit_spec _ Hc) as [m [_ Hm]]. rewrite Hm.
    apply rerank_query_adaptive_eq; assumption.
  - split; [|apply repeat_length].
    unfold rerank_query_adaptive. rewrite E. reflexivity.
Qed.

Lemma rerank_query_total k n dfs :
  (0 <= k)%Z ->
  exists row,
    forall q, rerank_query k n dfs q =
              Ok (row q, negb (query_has_results_in_all_files dfs q)) /\
              List.length (row q) = n.
Proof.
  intros Hk.
  exists (fun q =>
    if query_has_results_in_all_files dfs q
    then fill n (ranking (add_all [] (all_entries k dfs q)))
    else repeat sentinel n).
  intros q. rewrite rerank_query_eq by exact Hk.
  destruct (query_has_results_in_all_files dfs q); cbn [negb].
  - split; [reflexivity | apply PipelineFacts.fill_length].
  - split; [reflexivity | apply repeat_length].
Qed.

(** X1.  Both modes, for [k >= 0] and input files with at least one
    row: the reranker returns one row per query id of the input files, in
    strictly ascending order of the ids, every row with exactly the output
    size of cells (the given [top_n], or the largest column count of the
    files), and the count of skipped queries is the number of queries some
    file is empty for (normal mode) or has no leading valid entry for
    (adaptive mode). *)
Theorem reranked_frame_shape (dfs : list DataFrame) (k : Z) (top_n : option nat) :
  (0 <= k)%Z ->
  (exists df q, In df dfs /\ find_row df q <> None) ->
  exists n,
    output_size dfs top_n = Ok n /\
    n = match top_n with Some t => t | None => list_max (map n_cols dfs) end /\
    (exists out skipped,
       perform_rrf_reranking dfs k top_n = Ok (out, skipped) /\
       StronglySorted string_lt (map fst out) /\
       (forall q, In q (map fst out) <-> exists df, In df dfs /\ find_row df q <> None) /\
       (forall r, In r out -> List.length (snd r) = n) /\
       skipped = List.length
                   (filter (fun q => negb (query_has_results_in_all_files dfs q))
                      (map fst out))) /\
    (exists out skipped,
       perform_rrf_reranking_adaptive dfs k top_n = Ok (out, skipped) /\
       StronglySorted string_lt (map fst out) /\
       (forall q, In q (map fst out) <-> exists df, In df dfs /\ find_row df q <> None) /\
       (forall r, In r out -> List.length (snd r) = n) /\
       skipped = List.length
                   (filter (fun q => negb (forallb (fun b => b) (valid_files dfs q)))
                      (map fst out))).
Proof.
  intros Hk [df0 [q0 [Hdf0 Hrow0]]].
  assert (Hdfs : dfs <> []) by (intros ->; contradiction).
  destruct (output_size_ok dfs top_n Hdfs) as [n Hn].
  assert (Hids : all_query_ids dfs <> []).
  { intros E. assert (H : In q0 (all_query_ids dfs)).
    { apply In_all_query_ids. exists df0. split; [exact Hdf0|]. apply find_row_In, Hrow0. }
    rewrite E in H. contradiction. }
  assert (Hmem : forall q, In q (all_query_ids dfs) <->
                           exists df, In df dfs /\ find_row df q <> None).
  { intros q. rewrite In_all_query_ids. split; intros [df [Hdf H]]; exists df;
      (split; [exact Hdf|]); apply find_row_In, H. }
  assert (Hshape : forall (body : string -> result (list string * bool)) row skip,
    (forall q, body q = Ok (row q, skip q) /\ List.length (row q) = n) ->
    exists out skipped,
      rerank_all body (all_query_ids dfs) = Ok (out, skipped) /\
      StronglySorted string_lt (map fst out) /\
      (forall q, In q (map fst out) <-> exists df, In df dfs /\ find_row df q <> None) /\
      (forall r, In r out -> List.length (snd r) = n) /\
      skipped = List.length (filter skip (map fst out))).
  { intros body row skip Hbody.
    exists (map (fun q => (q, row q)) (all_query_ids dfs)),
           (List.length (filter skip (all_query_ids dfs))).
    assert (Hfst : map fst (map (fun q => (q, row q)) (all_query_ids dfs)) = all_query_ids dfs).
    { rewrite map_map. cbn [fst]. apply map_id. }
    rewrite Hfst. split; [|split; [|split; [|split]]].
    - apply rerank_all_sorted; [exact Hids | apply all_query_ids_sorted |].
      intros q _. apply Hbody.
    - apply all_query_ids_sorted.
    - exact Hmem.
    - intros r Hr. apply in_map_iff in Hr. destruct Hr as [q [<- _]]. apply Hbody.
    - reflexivity. }
  exists n. split; [exact Hn|]. split.
  { unfold output_size in Hn. destruct top_n; [congruence|].
    destruct dfs; [contradiction | congruence]. }
  split.
  - destruct (rerank_query_total k n dfs Hk) as [row Hrow].
    unfold perform_rrf_reranking. rewrite Hn. cbn [bind]. eapply Hshape, Hrow.
  - destruct (rerank_query_adaptive_total k n dfs Hk Hdfs) as [row Hrow].
    unfold perform_rrf_reranking_adaptive. rewrite Hn. cbn [bind]. eapply Hshape, Hrow.
Qed.

Example reranked_frame_shape_scenario :
  (0 <= 60)%Z /\
  (exists df q, In df [wide_A; wide_B] /\ find_row df q <> None) /\
  exists out skipped,
    perform_rrf_reranking_adaptive [wide_A; wide_B] 60 None = Ok (out, skipped) /\
    (forall r, In r out -> List.length (snd r) = 7).
Proof.
  assert (H1 : (0 <= 60)%Z) by lia.
  assert (H2 : exists df q, In df [wide_A; wide_B] /\ find_row df q <> None).
  { exists wide_A, "Q1". split; [left; reflexivity | discriminate]. }
  split; [exact H1|]. split; [exact H2|].
  destruct (reranked_frame_shape [wide_A; wide_B] 60 None H1 H2)
    as (n & _ & Hn & _ & (out & skipped & Hrun & _ & _ & Hlen & _)).
  exists out, skipped. split; [exact Hrun|].
  change (list_max (map n_cols [wide_A; wide_B])) with 7 in Hn. subst n. exact Hlen.
Defined.

(** *** The score of a rank *)

Lemma rrf_term_pos k r : (0 <= k)%Z -> 0 < r -> (0 < rrf_term k r)%Q.
Proof.
  intros Hk Hr. unfold rrf_term, Qdiv. rewrite Qmult_1_l.
  apply Qinv_lt_0_compat. unfold Qlt. cbn. lia.
Qed.

Lemma rrf_term_strict k r1 r2 :
  (0 <= k)%Z -> 0 < r1 -> r1 < r2 -> (rrf_term k r2 < rrf_term k r1)%Q.
Proof.
  intros Hk Hr Hlt. unfold rrf_term, Qdiv. rewrite !Qmult_1_l.
  assert (H1 : (0 < inject_Z (k + Z.of_nat r1))%Q) by (unfold Qlt; cbn; lia).
  assert (H2 : (0 < inject_Z (k + Z.of_nat r2))%Q) by (unfold Qlt; cbn; lia).
  apply -> Qinv_lt_contravar; [|exact H2|exact H1].
  rewrite <- Zlt_Qlt. lia.
Qed.

Lemma rrf_term_decreasing k r1 r2 :
  (0 <= k)%Z -> 0 < r1 -> r1 <= r2 -> (rrf_term k r2 <= rrf_term k r1)%Q.
Proof.
  intros Hk Hr Hle. destruct (Nat.eq_dec r1 r2) as [-> | Hne].
  - apply Qle_refl.
  - apply Qlt_le_weak, rrf_term_strict; [assumption | assumption | lia].
Qed.

(** X2.  [rrf_score]: for [k >= 0] the score of a rank [r >= 1] is
    [1 / (k + r)], positive, at most 1 and strictly smaller at a later
    rank; rank 0 scores 0 whatever [k] is; and a rank [r >= 1] with
    [k = -r] raises [ZeroDivisionError]. *)
Theorem rrf_score_decreasing (k : Z) (r1 r2 : nat) :
  (0 <= k)%Z -> 0 < r1 -> r1 < r2 ->
  exists s1 s2,
    rrf_score r1 k = Ok s1 /\ rrf_score r2 k = Ok s2 /\
    (0 < s2)%Q /\ (s2 < s1)%Q /\ (s1 <= 1)%Q /\
    (forall k', rrf_score 0 k' = Ok 0%Q) /\
    rrf_score r1 (- Z.of_nat r1) = Raise ZeroDivisionError.
Proof.
  intros Hk Hr Hlt. exists (rrf_term k r1), (rrf_term k r2).
  split; [apply rrf_score_ok; assumption|].
  split; [apply rrf_score_ok; [assumption | lia]|].
  split; [apply rrf_term_pos; [assumption | lia]|].
  split; [apply rrf_term_strict; assumption|].
  split.
  - unfold rrf_term, Qdiv. rewrite Qmult_1_l.
    assert (H1 : (0 < inject_Z (k + Z.of_nat r1))%Q) by (unfold Qlt; cbn; lia).
    apply Qle_shift_inv_r; [exact H1|]. rewrite Qmult_1_l.
    change 1%Q with (inject_Z 1). rewrite <- Zle_Qle. lia.
  - split; [reflexivity|]. unfold rrf_score.
    destruct (Nat.eqb_spec r1 0); [lia|].
    replace (- Z.of_nat r1 + Z.of_nat r1)%Z with 0%Z by lia. reflexivity.
Qed.

Example rrf_score_scenario :
  (0 <= 60)%Z /\ 0 < 1 /\ 1 < 2 /\
  rrf_score 1 60 = Ok (rrf_term 60 1) /\ (rrf_term 60 1 == 1 # 61)%Q.
Proof.
  assert (H1 : (0 <= 60)%Z) by lia.
  assert (H2 : 0 < 1) by lia.
  assert (H3 : 1 < 2) by lia.
  split; [exact H1|]. split; [exact H2|]. split; [exact H3|].
  destruct (rrf_score_decreasing 60 1 2 H1 H2 H3) as (s1 & s2 & Hs1 & _).
  split; [|reflexivity]. rewrite Hs1. cbn in Hs1. injection Hs1 as <-. reflexivity.
Defined.

(** *** Fusing copies of one file *)

(** The valid items of a row, in column order. *)
Definition items (cells : list cell) : list string :=
  map cell_text (filter (fun c => negb (is_missing c)) cells).

Lemma keys_entries_from k rank cells :
  map fst (entries_from k rank cells) = items cells.
Proof.
  revert rank. induction cells as [|c rest IH]; intros rank; [reflexivity|].
  unfold items. cbn [entries_from filter]. destruct (is_missing c); cbn [negb map fst].
  - apply IH.
  - f_equal. apply IH.
Qed.

Lemma entries_from_bound k rank rank' cells :
  (0 <= k)%Z -> 0 < rank' -> rank' <= rank ->
  Forall (fun e => (snd e <= rrf_term k rank')%Q) (entries_from k rank cells).
Proof.
  intros Hk Hpos. revert rank. induction cells as [|c rest IH]; intros rank Hle.
  - constructor.
  - cbn [entries_from]. destruct (is_missing c).
    + apply IH. lia.
    + constructor; [apply rrf_term_decreasing; assumption | apply IH; lia].
Qed.

Lemma entries_from_sorted k rank cells :
  (0 <= k)%Z -> 0 < rank -> StronglySorted above (entries_from k rank cells).
Proof.
  intros Hk. revert rank. induction cells as [|c rest IH]; intros rank Hpos.
  - constructor.
  - cbn [entries_from]. destruct (is_missing c).
    + apply IH. lia.
    + constructor; [apply IH; lia|].
      apply (entries_from_bound k (S rank) rank rest Hk Hpos). lia.
Qed.

Lemma add_fresh front key v :
  ~ In key (Dict.keys front) -> Dict.add front key v = front ++ [(key, (0 + v)%Q)].
Proof.
  induction front as [|[k' x] rest IH]; intros Hn; [reflexivity|].
  cbn [Dict.add app]. destruct (String.eqb_spec k' key) as [-> | Hne].
  - exfalso. apply Hn. left. reflexivity.
  - f_equal. apply IH. intros H. apply Hn. right. exact H.
Qed.

Lemma add_at front key x v rest :
  ~ In key (Dict.keys front) ->
  Dict.add (front ++ (key, x) :: rest) key v = front ++ (key, (x + v)%Q) :: rest.
Proof.
  induction front as [|[k' y] front' IH]; intros Hn.
  - cbn [app Dict.add]. rewrite String.eqb_refl. reflexivity.
  - cbn [app Dict.add]. destruct (String.eqb_spec k' key) as [-> | Hne].
    + exfalso. apply Hn. left. reflexivity.
    + f_equal. apply IH. intros H. apply Hn. right. exact H.
Qed.

Lemma add_all_fresh es : forall front,
  NoDup (Dict.keys front ++ map fst es) ->
  add_all front es = front ++ map (fun e => (fst e, (0 + snd e)%Q)) es.
Proof.
  induction es as [|[key v] rest IH]; intros front Hnd.
  - cbn. rewrite app_nil_r. reflexivity.
  - cbn [add_all fold_left map fst snd]. fold (add_all (Dict.add front key v) rest).
    cbn [map fst] in Hnd.
    assert (Hkey : ~ In key (Dict.keys front)).
    { apply NoDup_remove_2 in Hnd. intros H. apply Hnd, in_or_app. left. exact H. }
    rewrite add_fresh by exact Hkey. rewrite IH.
    + rewrite <- app_assoc. reflexivity.
    + unfold Dict.keys. rewrite map_app. cbn [map fst]. rewrite <- app_assoc. exact Hnd.
Qed.

Lemma add_all_zip (f : string * Q -> Q) es : forall front,
  NoDup (Dict.keys front ++ map fst es) ->
  add_all (front ++ map (fun e => (fst e, f e)) es) es =
  front ++ map (fun e => (fst e, (f e + snd e)%Q)) es.
Proof.
  induction es as [|[key v] rest IH]; intros front Hnd.
  - reflexivity.
  - cbn [add_all fold_left map fst snd].
    fold (add_all (Dict.add (front ++ (key, f (key, v)) :: map (fun e => (fst e, f e)) rest) key v) rest).
    cbn [map fst] in Hnd.
    assert (Hkey : ~ In key (Dict.keys front)).
    { apply NoDup_remove_2 in Hnd. intros H. apply Hnd, in_or_app. left. exact H. }
    rewrite add_at by exact Hkey.
    change (front ++ (key, (f (key, v) + v)%Q) :: map (fun e => (fst e, f e)) rest)
      with (front ++ [(key, (f (key, v) + v)%Q)] ++ map (fun e => (fst e, f e)) rest).
    rewrite app_assoc, IH.
    + rewrite <- app_assoc. reflexivity.
    + unfold Dict.keys. rewrite map_app. cbn [map fst]. rewrite <- app_assoc. exact Hnd.
Qed.

(** What [copies + 1] additions of [v] leave in a fresh entry. *)
Fixpoint accumulated (copies : nat) (v : Q) : Q :=
  match copies with
  | 0 => (0 + v)%Q
  | S c => (accumulated c v + v)%Q
  end.

Lemma accumulated_le copies v w : (v <= w)%Q -> (accumulated copies v <= accumulated copies w)%Q.
Proof.
  intros H. induction copies as [|c IH]; cbn [accumulated].
  - apply Qplus_le_compat; [apply Qle_refl | exact H].
  - apply Qplus_le_compat; assumption.
Qed.

Lemma add_all_copies es copies :
  NoDup (map fst es) ->
  add_all [] (List.concat (repeat es (S copies))) =
  map (fun e => (fst e, accumulated copies (snd e))) es.
Proof.
  intros Hnd. induction copies as [|c IH].
  - cbn [repeat List.concat]. rewrite app_nil_r. apply (add_all_fresh es []). exact Hnd.
  - replace (repeat es (S (S c))) with (repeat es (S c) ++ [es]).
    + rewrite concat_app, add_all_app, IH. cbn [List.concat]. rewrite app_nil_r.
      apply (add_all_zip (fun e => accumulated c (snd e)) es []). exact Hnd.
    + change [es] with (repeat es 1). rewrite <- repeat_app. f_equal. lia.
Qed.

Lemma sorted_desc_id l : StronglySorted above l -> Dict.sorted_desc l = l.
Proof.
  induction 1 as [|x l Hs IH Hall]; [reflexivity|].
  cbn [Dict.sorted_desc fold_right]. fold (Dict.sorted_desc l). rewrite IH.
  destruct l as [|y r]; [reflexivity|]. cbn [Dict.insert_desc].
  inversion Hall as [|? ? Hy _]; subst. unfold above in Hy.
  apply Qle_bool_iff in Hy. rewrite Hy. reflexivity.
Qed.

Lemma sorted_map_accumulated copies es :
  StronglySorted above es ->
  StronglySorted above (map (fun e => (fst e, accumulated copies (snd e))) es).
Proof.
  induction 1 as [|x l Hs IH Hall]; cbn [map]; constructor; [exact IH|].
  apply Forall_map. eapply Forall_impl; [|exact Hall].
  intros y Hy. unfold above in *. cbn [snd]. apply accumulated_le, Hy.
Qed.

Lemma all_entries_repeat k df copies q :
  all_entries k (repeat df copies) q = List.concat (repeat (entries k (row_of df q)) copies).
Proof.
  unfold all_entries. induction copies as [|c IH]; [reflexivity|].
  cbn [repeat flat_map List.concat]. rewrite IH. reflexivity.
Qed.

Lemma ranking_copies k df copies q :
  (0 <= k)%Z -> NoDup (items (row_of df q)) ->
  ranking (add_all [] (all_entries k (repeat df (S copies)) q)) = items (row_of df q).
Proof.
  intros Hk Hnd. rewrite all_entries_repeat, <- entries_from_1.
  assert (Hkeys := keys_entries_from k 1 (row_of df q)).
  rewrite add_all_copies by (rewrite Hkeys; exact Hnd).
  unfold ranking. rewrite sorted_desc_id.
  - rewrite map_map. cbn [fst]. exact Hkeys.
  - apply sorted_map_accumulated, entries_from_sorted; [exact Hk | lia].
Qed.

Lemma items_none cells : has_valid_articles cells = false -> items cells = [].
Proof.
  unfold has_valid_articles, items. induction cells as [|c rest IH]; [reflexivity|].
  cbn [existsb filter]. destruct (negb (is_missing c)); [discriminate|].
  cbn [orb]. exact IH.
Qed.

Lemma list_max_repeat x copies : list_max (repeat x (S copies)) = x.
Proof.
  induction copies as [|c IH]; [cbn; lia|].
  change (repeat x (S (S c))) with (x :: repeat x (S c)).
  cbn [list_max fold_right]. fold (list_max (repeat x (S c))). rewrite IH. lia.
Qed.

(** X3.  Normal mode, [k >= 0]: fusing one or more copies of the same
    file gives the file back.  The frame has one row per query of the
    file, and the row of a query whose valid items are pairwise distinct
    lists exactly these items in their column order, sentinels squeezed
    out, cut or padded to the output size; nothing is skipped but the
    queries without a valid item. *)
Theorem same_file_fixed_point (df : DataFrame) (copies : nat) (k : Z) (top_n : option nat) :
  (0 <= k)%Z -> rows df <> [] ->
  exists out skipped,
    perform_rrf_reranking (repeat df (S copies)) k top_n = Ok (out, skipped) /\
    (forall q, In q (map fst out) <-> find_row df q <> None) /\
    (forall q r cells,
       In (q, r) out -> find_row df q = Some cells -> NoDup (items cells) ->
       r = fill (match top_n with Some t => t | None => n_cols df end) (items cells)) /\
    skipped = List.length (filter (fun q => negb (file_has_valid_articles q df)) (map fst out)).
Proof.
  intros Hk Hrows.
  set (dfs := repeat df (S copies)).
  set (n := match top_n with Some t => t | None => n_cols df end).
  assert (Hn : output_size dfs top_n = Ok n).
  { unfold output_size, n, dfs. destruct top_n; [reflexivity|].
    cbn [repeat]. f_equal. change (df :: repeat df copies) with (repeat df (S copies)).
    rewrite map_repeat. apply list_max_repeat. }
  assert (Hin : forall d, In d dfs <-> d = df).
  { intros d. unfold dfs. split.
    - intros H. apply repeat_spec in H. exact H.
    - intros ->. left. reflexivity. }
  assert (Hall : forall q, query_has_results_in_all_files dfs q = file_has_valid_articles q df).
  { intros q. destruct (file_has_valid_articles q df) eqn:E.
    - apply all_files_valid. intros d Hd. apply Hin in Hd. subst d. exact E.
    - unfold dfs, query_has_results_in_all_files. cbn [repeat forallb]. rewrite E. reflexivity. }
  assert (Hdom : forall q, In q (all_query_ids dfs) <-> find_row df q <> None).
  { intros q. rewrite In_all_query_ids, find_row_In. split.
    - intros [d [Hd Hq]]. apply Hin in Hd. subst d. exact Hq.
    - intros Hq. exists df. split; [apply Hin; reflexivity | exact Hq]. }
  assert (Hids : all_query_ids dfs <> []).
  { destruct (rows df) as [|[q0 c0] rest] eqn:Er; [contradiction|].
    assert (H0 : In q0 (all_query_ids dfs)).
    { apply Hdom, find_row_In. rewrite Er. left. reflexivity. }
    intros E. rewrite E in H0. exact H0. }
  set (row := fun q =>
    if query_has_results_in_all_files dfs q
    then fill n (ranking (add_all [] (all_entries k dfs q)))
    else repeat sentinel n).
  assert (Hbody : forall q, In q (all_query_ids dfs) ->
            rerank_query k n dfs q = Ok (row q, negb (query_has_results_in_all_files dfs q))).
  { intros q _. rewrite rerank_query_eq by exact Hk. unfold row.
    destruct (query_has_results_in_all_files dfs q); reflexivity. }
  exists (map (fun q => (q, row q)) (all_query_ids dfs)),
         (List.length (filter (fun q => negb (query_has_results_in_all_files dfs q))
                         (all_query_ids dfs))).
  assert (Hfst : map fst (map (fun q => (q, row q)) (all_query_ids dfs)) = all_query_ids dfs).
  { rewrite map_map. cbn [fst]. apply map_id. }
  split; [|split; [|split]].
  - unfold perform_rrf_reranking. rewrite Hn. cbn [bind].
    apply rerank_all_sorted; [exact Hids | apply all_query_ids_sorted | exact Hbody].
  - intros q. rewrite Hfst. apply Hdom.
  - intros q r cells Hr Hcells Hnd. apply In_row_of_map in Hr. destruct Hr as [_ ->].
    unfold row. rewrite Hall. unfold file_has_valid_articles. rewrite Hcells.
    assert (Hrow : row_of df q = cells) by (unfold row_of; rewrite Hcells; reflexivity).
    destruct (has_valid_articles cells) eqn:Ev.
    + unfold dfs. rewrite ranking_copies by (try rewrite Hrow; assumption).
      rewrite Hrow. reflexivity.
    + rewrite (items_none cells Ev). unfold fill. cbn [firstn List.length app].
      rewrite Nat.sub_0_r. destruct n; reflexivity.
  - rewrite Hfst. f_equal. apply filter_ext. intros q. rewrite Hall. reflexivity.
Qed.

Example same_file_scenario :
  (0 <= 60)%Z /\ rows wide_A <> [] /\
  exists out, perform_rrf_reranking [wide_A; wide_A; wide_A] 60 None = Ok (out, 0).
Proof.
  assert (H1 : (0 <= 60)%Z) by lia.
  assert (H2 : rows wide_A <> []) by discriminate.
  split; [exact H1|]. split; [exact H2|].
  destruct (same_file_fixed_point wide_A 2 60 None H1 H2) as (out & skipped & Hout & _ & _ & Hs).
  cbn [repeat] in Hout. exists out. rewrite Hout. f_equal. f_equal. rewrite Hs.
  vm_compute in Hout. injection Hout as <- _. reflexivity.
Defined.

(** *** When the adaptive cap does not bite *)

Lemma rerank_loop_ext (body body' : string -> result (list string * bool)) ids :
  (forall q, In q ids -> body q = body' q) ->
  forall acc n, rerank_loop body ids acc n = rerank_loop body' ids acc n.
Proof.
  induction ids as [|q rest IH]; intros Hb acc n; [reflexivity|].
  cbn [rerank_loop]. rewrite (Hb q) by (left; reflexivity).
  destruct (body' q) as [r|e]; [|reflexivity]. cbn [bind].
  apply IH. intros q' Hq'. apply Hb. right. exact Hq'.
Qed.

Lemma rerank_all_ext (body body' : string -> result (list string * bool)) ids :
  (forall q, In q ids -> body q = body' q) ->
  rerank_all body ids = rerank_all body' ids.
Proof.
  intros Hb. unfold rerank_all. rewrite (rerank_loop_ext body body' ids Hb). reflexivity.
Qed.

Lemma trailing_has_valid cells :
  trailing_only cells -> (0 <? valid_article_count cells) = has_valid_articles cells.
Proof.
  unfold has_valid_articles. destruct cells as [|c rest]; [reflexivity|].
  cbn [trailing_only valid_article_count existsb]. destruct (is_missing c); cbn [negb orb].
  - intros Hall. symmetry. apply not_true_is_false. intros H.
    apply existsb_exists in H. destruct H as [c' [Hin Hc']].
    rewrite Forall_forall in Hall. rewrite (Hall c' Hin) in Hc'. discriminate.
  - reflexivity.
Qed.

Lemma trailing_entries_length k cells :
  trailing_only cells -> List.length (entries k cells) = valid_article_count cells.
Proof.
  intros Ht. unfold entries. rewrite length_map, <- valid_from_1.
  rewrite (valid_from_trailing 1 cells Ht). apply length_seq.
Qed.

Lemma flat_map_ext_In {A B : Type} (f g : A -> list B) (l : list A) :
  (forall a, In a l -> f a = g a) -> flat_map f l = flat_map g l.
Proof.
  induction l as [|a l IH]; intros H; [reflexivity|].
  cbn [flat_map]. rewrite (H a) by (left; reflexivity).
  rewrite IH; [reflexivity|]. intros b Hb. apply H. right. exact Hb.
Qed.

Lemma forallb_ext_In {A : Type} (f g : A -> bool) (l : list A) :
  (forall a, In a l -> f a = g a) -> forallb f l = forallb g l.
Proof.
  induction l as [|a l IH]; intros H; [reflexivity|].
  cbn [forallb]. rewrite (H a) by (left; reflexivity).
  rewrite IH; [reflexivity|]. intros b Hb. apply H. right. exact Hb.
Qed.

Lemma forallb_id_map {A : Type} (f : A -> bool) (l : list A) :
  forallb (fun b => b) (map f l) = forallb f l.
Proof.
  induction l as [|a l IH]; [reflexivity|]. cbn [map forallb]. rewrite IH. reflexivity.
Qed.

(** X4.  For [k >= 0], when in every row the valid cells come first
    (nothing but sentinels and blanks after the first one) and, for every
    query, no file has more than twice the valid entries of another, the
    adaptive mode does what the normal mode does: same frame, same count
    of skipped queries, same error. *)
Theorem adaptive_agrees_with_normal (dfs : list DataFrame) (k : Z) (top_n : option nat) :
  (0 <= k)%Z ->
  (forall df q cells, In df dfs -> find_row df q = Some cells -> trailing_only cells) ->
  (forall q df df', In q (all_query_ids dfs) -> In df dfs -> In df' dfs ->
     query_article_count q df <= 2 * query_article_count q df') ->
  perform_rrf_reranking_adaptive dfs k top_n = perform_rrf_reranking dfs k top_n.
Proof.
  intros Hk Htrail Hbal.
  unfold perform_rrf_reranking_adaptive, perform_rrf_reranking.
  destruct (output_size dfs top_n) as [n|e]; [|reflexivity]. cbn [bind].
  apply rerank_all_ext. intros q Hq.
  assert (Hvalid : forallb (fun b => b) (valid_files dfs q) =
                   query_has_results_in_all_files dfs q).
  { unfold valid_files, query_has_results_in_all_files. rewrite forallb_id_map.
    apply forallb_ext_In. intros df Hdf.
    unfold query_article_count, file_has_valid_articles.
    destruct (find_row df q) as [cells|] eqn:Er; [|reflexivity].
    apply trailing_has_valid. exact (Htrail df q cells Hdf Er). }
  rewrite rerank_query_eq by exact Hk.
  destruct (query_has_results_in_all_files dfs q) eqn:Eall.
  - assert (Hc : query_article_counts dfs q <> []).
    { unfold query_article_counts. destruct dfs as [|d ds]; [|discriminate].
      cbn in Hq. contradiction. }
    destruct (dynamic_limit_spec _ Hc) as [m [[Hm _] Hcap]].
    rewrite (rerank_query_adaptive_eq k n dfs q _ Hk Hvalid Hcap).
    do 4 f_equal. unfold capped_entries, all_entries. f_equal.
    apply flat_map_ext_In. intros df Hdf. apply firstn_all2.
    assert (Hlen : List.length (entries k (row_of df q)) = query_article_count q df).
    { unfold row_of, query_article_count.
      destruct (find_row df q) as [cells|] eqn:Er; [|reflexivity].
      apply trailing_entries_length. exact (Htrail df q cells Hdf Er). }
    rewrite Hlen. apply Nat.min_glb.
    + unfold query_article_counts in Hm. apply in_map_iff in Hm.
      destruct Hm as [df' [<- Hdf']]. apply Hbal; assumption.
    + assert (Hle : Forall (fun c => c <= list_max (query_article_counts dfs q))
                      (query_article_counts dfs q)).
      { apply list_max_le. apply Nat.le_refl. }
      rewrite Forall_forall in Hle. apply Hle.
      unfold query_article_counts. apply in_map. exact Hdf.
  - unfold rerank_query_adaptive. rewrite Hvalid. reflexivity.
Qed.

Example adaptive_agrees_scenario :
  perform_rrf_reranking_adaptive [gap_A_blanked; gap_B] 60 (Some 4) =
  perform_rrf_reranking [gap_A_blanked; gap_B] 60 (Some 4).
Proof.
  apply adaptive_agrees_with_normal.
  - lia.
  - intros df q cells [<- | [<- | []]] Hr; unfold find_row in Hr;
      cbn [rows gap_A_blanked gap_B find fst snd] in Hr;
      destruct (String.eqb "Q1" q); try discriminate;
      injection Hr as <-; cbn; repeat constructor.
  - intros q df df' Hq Hdf Hdf'. vm_compute in Hq. destruct Hq as [<- | []].
    destruct Hdf as [<- | [<- | []]]; destruct Hdf' as [<- | [<- | []]];
      vm_compute; repeat constructor.
Defined.

End RRFMore.

Module PipelineMore.

Import Pipeline DictFacts PipelineFacts.

(** *** Reading the stage-1 file *)

(** [if article_id and article_id != '#'] *)
Definition valid_id (article_id : string) : bool :=
  negb (String.eqb article_id "") && negb (String.eqb article_id "#").

(** The stripped cells of a row that hold an identifier. *)
Definition valid_ids (cells : list string) : list string :=
  filter valid_id (map PyStr.strip cells).

(** What the reading loop keeps of a row: the first [max_articles]
    identifiers; with [max_articles = 0] the test that ends the loop comes
    after the first cell was read, and that cell is kept when it holds an
    identifier. *)
Definition kept (max_articles : nat) (cells : list string) : list string :=
  if max_articles =? 0 then valid_ids (firstn 1 cells)
  else firstn max_articles (valid_ids cells).

Lemma extract_articles_below m cells : forall acc,
  List.length acc < m ->
  extract_articles m cells acc = firstn m (acc ++ valid_ids cells).
Proof.
  induction cells as [|c rest IH]; intros acc Hlen.
  - cbn [extract_articles]. unfold valid_ids. cbn [map filter].
    rewrite app_nil_r. symmetry. apply firstn_all2. lia.
  - cbn [extract_articles]. unfold valid_ids. cbn [map filter].
    fold (valid_id (PyStr.strip c)). fold (valid_ids rest).
    destruct (valid_id (PyStr.strip c)).
    + destruct (Nat.leb_spec m (List.length (acc ++ [PyStr.strip c]))) as [Hle | Hlt].
      * rewrite length_app in Hle. cbn [List.length] in Hle.
        change (acc ++ PyStr.strip c :: valid_ids rest)
          with (acc ++ [PyStr.strip c] ++ valid_ids rest).
        rewrite app_assoc, firstn_app.
        replace (m - List.length (acc ++ [PyStr.strip c])) with 0
          by (rewrite length_app; cbn [List.length]; lia).
        cbn [firstn]. rewrite app_nil_r. symmetry. apply firstn_all2.
        rewrite length_app. cbn [List.length]. lia.
      * rewrite IH by exact Hlt. rewrite <- app_assoc. reflexivity.
    + destruct (Nat.leb_spec m (List.length acc)) as [Hle | Hlt]; [lia|].
      apply IH. exact Hlen.
Qed.

Lemma extract_articles_kept m cells : extract_articles m cells [] = kept m cells.
Proof.
  unfold kept. destruct m as [|m'].
  - destruct cells as [|c rest]; [reflexivity|].
    cbn [extract_articles Nat.leb Nat.eqb firstn]. unfold valid_ids. cbn [map filter].
    fold (valid_id (PyStr.strip c)). destruct (valid_id (PyStr.strip c)); reflexivity.
  - cbn [Nat.eqb]. apply (extract_articles_below (S m') cells []). cbn. lia.
Qed.

Lemma valid_ids_spec cells a :
  In a (valid_ids cells) <->
  (exists c, In c cells /\ a = PyStr.strip c) /\ a <> "" /\ a <> "#".
Proof.
  unfold valid_ids, valid_id. rewrite filter_In, in_map_iff, andb_true_iff, !negb_true_iff.
  rewrite !String.eqb_neq. split.
  - intros [[c [Hc Hin]] [H1 H2]]. split; [exists c; split; [exact Hin | symmetry; exact Hc]|].
    split; assumption.
  - intros [[c [Hin Hc]] [H1 H2]]. split; [exists c; split; [symmetry; exact Hc | exact Hin]|].
    split; assumption.
Qed.

Lemma kept_spec m cells :
  List.length (kept m cells) <= Nat.max m 1 /\
  (forall a, In a (kept m cells) -> In a (valid_ids cells)) /\
  (kept m cells = [] <->
   if m =? 0 then valid_ids (firstn 1 cells) = [] else valid_ids cells = []).
Proof.
  unfold kept. destruct m as [|m']; cbn [Nat.eqb].
  - split; [|split; [|reflexivity]].
    + destruct cells as [|c rest]; [cbn; lia|]. cbn [firstn]. unfold valid_ids.
      cbn [map filter]. destruct (valid_id (PyStr.strip c)); cbn; lia.
    + intros a. destruct cells as [|c rest]; [intros []|]. cbn [firstn]. unfold valid_ids.
      cbn [map filter]. destruct (valid_id (PyStr.strip c)); [|intros []].
      intros [<- | []]. left. reflexivity.
  - split; [|split].
    + rewrite length_firstn. lia.
    + intros a. apply In_firstn.
    + destruct (valid_ids cells); cbn [firstn]; split; intros H; try reflexivity;
        discriminate.
Qed.

(** The dictionary part of the fold, and the two lists. *)
Definition has_articles (max_articles : nat) (row : string * list string) : bool :=
  match kept max_articles (snd row) with [] => false | _ => true end.

Lemma classify_fold m csv : forall d w wo,
  fold_left (classify_row m) csv (d, w, wo) =
  (fold_left (fun acc row => Dict.set acc (fst row) (kept m (snd row))) csv d,
   w ++ map fst (filter (has_articles m) csv),
   wo ++ map fst (filter (fun row => negb (has_articles m row)) csv)).
Proof.
  induction csv as [|row rest IH]; intros d w wo.
  - cbn. rewrite !app_nil_r. reflexivity.
  - cbn [fold_left classify_row]. rewrite extract_articles_kept, IH. cbn [filter].
    assert (Hh : has_articles m row =
                 match kept m (snd row) with [] => false | _ => true end) by reflexivity.
    rewrite Hh. destruct (kept m (snd row)); cbn [negb map];
      rewrite <- ?app_assoc; reflexivity.
Qed.

Lemma get_fold_last {A V : Type} (g : string * A -> V)
  (l : list (string * A)) (d : list (string * V)) key :
  Dict.get (fold_left (fun acc row => Dict.set acc (fst row) (g row)) l d) key =
  match find (fun row => String.eqb (fst row) key) (rev l) with
  | Some row => Some (g row)
  | None => Dict.get d key
  end.
Proof.
  induction l as [|row l IH] using rev_ind; [reflexivity|].
  rewrite fold_left_app, rev_app_distr. cbn [fold_left rev app find].
  destruct (String.eqb_spec (fst row) key) as [<- | Hne].
  - apply get_set_same.
  - rewrite get_set_other by exact Hne. exact IH.
Qed.

Lemma keys_fold_set {A V : Type} (g : string * A -> V)
  (l : list (string * A)) (d : list (string * V)) key :
  In key (Dict.keys (fold_left (fun acc row => Dict.set acc (fst row) (g row)) l d)) <->
  In key (Dict.keys d) \/ In key (map fst l).
Proof.
  revert d. induction l as [|row l IH]; intros d.
  - cbn. tauto.
  - cbn [fold_left map]. rewrite IH, In_keys_set. cbn [In]. intuition auto.
Qed.

(** X5.  [load_and_classify_queries]: every row of the stage-1 file
    puts its query id in exactly one of the two lists, in file order, by
    whether the row keeps an identifier; the dictionary holds, for every
    query id of the file and no other, what the last row with that id
    keeps; what a row keeps are the first [max_articles] stripped cells
    that are neither empty nor the sentinel, and with [max_articles = 0]
    the first cell when it is one: never more than [max(max_articles, 1)]
    identifiers. *)
Theorem classified_queries (csv : list (string * list string)) (max_articles : nat) :
  exists query_to_articles,
    load_and_classify_queries csv max_articles =
      (query_to_articles,
       map fst (filter (has_articles max_articles) csv),
       map fst (filter (fun row => negb (has_articles max_articles row)) csv)) /\
    (forall q, In q (Dict.keys query_to_articles) <-> In q (map fst csv)) /\
    (forall q,
       Dict.get query_to_articles q =
       match find (fun row => String.eqb (fst row) q) (rev csv) with
       | Some row => Some (kept max_articles (snd row))
       | None => None
       end) /\
    (forall q article_ids,
       Dict.get query_to_articles q = Some article_ids ->
       List.length article_ids <= Nat.max max_articles 1 /\
       forall a, In a article_ids -> a <> "" /\ a <> "#") /\
    (forall row,
       has_articles max_articles row = true <->
       if max_articles =? 0 then valid_ids (firstn 1 (snd row)) <> []
       else valid_ids (snd row) <> []).
Proof.
  unfold load_and_classify_queries. rewrite classify_fold. cbn [app].
  eexists. split; [reflexivity|]. split; [|split; [|split]].
  - intros q. rewrite keys_fold_set. cbn. tauto.
  - intros q. apply (get_fold_last (fun row => kept max_articles (snd row)) csv [] q).
  - intros q ids Hget. rewrite (get_fold_last (fun row => kept max_articles (snd row)) csv [] q) in Hget.
    destruct (find _ (rev csv)) as [row|]; [|discriminate]. injection Hget as <-.
    destruct (kept_spec max_articles (snd row)) as [Hlen [Hin _]].
    split; [exact Hlen|]. intros a Ha. apply Hin, valid_ids_spec in Ha.
    destruct Ha as [_ [H1 H2]]. split; assumption.
  - intros row. unfold has_articles.
    destruct (kept_spec max_articles (snd row)) as [_ [_ Hnil]].
    destruct (kept max_articles (snd row)) eqn:E.
    + split; [discriminate|]. intros H. exfalso.
      destruct (max_articles =? 0); apply H, Hnil; reflexivity.
    + split; [|reflexivity]. intros _.
      destruct (max_articles =? 0); intros H; apply Hnil in H; discriminate.
Qed.

(** *** The candidate images of a query *)

Definition images_of (a2i : list (string * list string)) (article_id : string)
  : list string :=
  match Dict.get a2i article_id with Some images => images | None => [] end.

(** The rank the loop leaves for an image: that of the last article,
    counted from [rank], whose images hold it. *)
Fixpoint last_rank (a2i : list (string * list string)) (image : string) (rank : nat)
  (article_ids : list string) : option nat :=
  match article_ids with
  | [] => None
  | article_id :: rest =>
      match last_rank a2i image (S rank) rest with
      | Some r => Some r
      | None =>
          if existsb (String.eqb image) (images_of a2i article_id) then Some rank else None
      end
  end.

Lemma candidate_loop_spec a2i article_ids : forall rank candidates rank_map,
  fst (candidate_loop a2i rank article_ids candidates rank_map) =
    candidates ++ flat_map (images_of a2i) article_ids /\
  forall image,
    Dict.get (snd (candidate_loop a2i rank article_ids candidates rank_map)) image =
    match last_rank a2i image rank article_ids with
    | Some r => Some (Z.of_nat r)
    | None => Dict.get rank_map image
    end.
Proof.
  induction article_ids as [|a rest IH]; intros rank candidates rank_map.
  - cbn. rewrite app_nil_r. split; [reflexivity | intros; reflexivity].
  - cbn [candidate_loop flat_map last_rank].
    destruct (Dict.get a2i a) as [images|] eqn:Ea.
    + assert (Him : images_of a2i a = images) by (unfold images_of; rewrite Ea; reflexivity).
      rewrite Him.
      destruct (IH (S rank) (candidates ++ images)
                  (fold_left (fun m image_id => Dict.set m image_id (Z.of_nat rank))
                     images rank_map)) as [H1 H2].
      split; [rewrite H1, <- app_assoc; reflexivity|].
      intros image. rewrite H2.
      destruct (last_rank a2i image (S rank) rest); [reflexivity|].
      rewrite (get_fold_set (fun _ => Z.of_nat rank)).
      destruct (existsb (String.eqb image) images); reflexivity.
    + assert (Him : images_of a2i a = []) by (unfold images_of; rewrite Ea; reflexivity).
      rewrite Him.
      destruct (IH (S rank) candidates rank_map) as [H1 H2].
      split; [exact H1|]. intros image. rewrite H2. cbn [existsb].
      destruct (last_rank a2i image (S rank) rest); reflexivity.
Qed.

Lemma last_rank_none a2i image article_ids : forall rank,
  last_rank a2i image rank article_ids = None <->
  ~ In image (flat_map (images_of a2i) article_ids).
Proof.
  induction article_ids as [|a rest IH]; intros rank.
  - cbn. tauto.
  - cbn [last_rank flat_map]. rewrite in_app_iff.
    destruct (last_rank a2i image (S rank) rest) eqn:E.
    + split; [discriminate|]. intros H. exfalso.
      assert (Hn : last_rank a2i image (S rank) rest <> None) by (rewrite E; discriminate).
      apply Hn, IH. tauto.
    + apply IH in E.
      destruct (existsb (String.eqb image) (images_of a2i a)) eqn:Ex.
      * split; [discriminate|]. intros H. exfalso. apply H. left.
        apply existsb_exists in Ex. destruct Ex as [x [Hx Hxe]].
        apply String.eqb_eq in Hxe. subst x. exact Hx.
      * split; [|reflexivity]. intros _ [H | H]; [|exact (E H)].
        assert (Ht : existsb (String.eqb image) (images_of a2i a) = true).
        { apply existsb_exists. exists image. split; [exact H | apply String.eqb_refl]. }
        rewrite Ht in Ex. discriminate.
Qed.

Lemma last_rank_some a2i image article_ids : forall rank r,
  last_rank a2i image rank article_ids = Some r ->
  rank <= r /\
  (exists a, nth_error article_ids (r - rank) = Some a /\ In image (images_of a2i a)) /\
  (forall r' a', r < r' -> nth_error article_ids (r' - rank) = Some a' ->
                 ~ In image (images_of a2i a')).
Proof.
  induction article_ids as [|a rest IH]; intros rank r Hr; [discriminate|].
  cbn [last_rank] in Hr.
  destruct (last_rank a2i image (S rank) rest) as [r0|] eqn:E.
  - injection Hr as <-. destruct (IH (S rank) r0 E) as [Hle [[a0 [Hn Hin]] Hlater]].
    split; [lia|]. split.
    + exists a0. split; [|exact Hin].
      replace (r0 - rank) with (S (r0 - S rank)) by lia. exact Hn.
    + intros r' a' Hlt Hn'. apply (Hlater r' a' Hlt).
      replace (r' - rank) with (S (r' - S rank)) in Hn' by lia. exact Hn'.
  - destruct (existsb (String.eqb image) (images_of a2i a)) eqn:Ex; [|discriminate].
    injection Hr as <-. split; [lia|]. split.
    + exists a. rewrite Nat.sub_diag. split; [reflexivity|].
      apply existsb_exists in Ex. destruct Ex as [x [Hx Hxe]].
      apply String.eqb_eq in Hxe. subst x. exact Hx.
    + intros r' a' Hlt Hn' Hin.
      replace (r' - rank) with (S (r' - S rank)) in Hn' by lia. cbn [nth_error] in Hn'.
      apply (proj1 (last_rank_none a2i image rest (S rank)) E).
      apply in_flat_map. exists a'. split; [|exact Hin].
      apply nth_error_In in Hn'. exact Hn'.
Qed.

Lemma NoDup_unique l : forall seen, NoDup (unique seen l).
Proof.
  induction l as [|x r IH]; intros seen; [constructor|].
  cbn [unique]. destruct (existsb (String.eqb x) seen); [apply IH|].
  constructor; [|apply IH]. rewrite In_unique. intros [_ H]. apply H. left. reflexivity.
Qed.

(** X6.  The candidates of a query with articles: the images of its
    ranked articles that the article mapping knows, in article order; the
    list searched is this list without repetitions; and the rank recorded
    for a candidate image is the rank (from 1) of the {e last} article of
    the list that holds the image, not of the first.  An image that is no
    candidate has no recorded rank. *)
Theorem candidate_images_and_ranks
  (a2i : list (string * list string)) (article_ids : list string) :
  exists candidate_images article_rank_map,
    candidate_loop a2i 1 article_ids [] [] = (candidate_images, article_rank_map) /\
    candidate_images = flat_map (images_of a2i) article_ids /\
    NoDup (unique [] candidate_images) /\
    (forall image, In image (unique [] candidate_images) <-> In image candidate_images) /\
    (forall image, In image candidate_images ->
       exists r a,
         Dict.get article_rank_map image = Some (Z.of_nat r) /\
         1 <= r /\ nth_error article_ids (r - 1) = Some a /\
         In image (images_of a2i a) /\
         forall r' a', r < r' -> nth_error article_ids (r' - 1) = Some a' ->
                       ~ In image (images_of a2i a')) /\
    (forall image, ~ In image candidate_images ->
       Dict.get article_rank_map image = None).
Proof.
  destruct (candidate_loop_spec a2i article_ids 1 [] []) as [H1 H2].
  destruct (candidate_loop a2i 1 article_ids [] []) as [cands rmap] eqn:E.
  cbn [fst snd app] in H1, H2. exists cands, rmap.
  split; [reflexivity|]. split; [exact H1|]. split; [apply NoDup_unique|].
  split; [|split].
  - intros image. rewrite In_unique. cbn. tauto.
  - intros image Hin. rewrite H2.
    destruct (last_rank a2i image 1 article_ids) as [r|] eqn:Er.
    + destruct (last_rank_some a2i image article_ids 1 r Er) as [Hle [[a [Hn Ha]] Hlater]].
      exists r, a. repeat split; assumption.
    + exfalso. apply (proj1 (last_rank_none a2i image article_ids 1) Er).
      rewrite <- H1. exact Hin.
  - intros image Hin. rewrite H2.
    destruct (last_rank a2i image 1 article_ids) as [r|] eqn:Er; [|reflexivity].
    exfalso. apply Hin. rewrite H1.
    destruct (last_rank_some a2i image article_ids 1 r Er) as [_ [[a [Hn Ha]] _]].
    apply in_flat_map. exists a. split; [|exact Ha]. apply nth_error_In in Hn. exact Hn.
Qed.

(** *** Fusion over the view collections *)

Definition view_weight (weights : list (string * Q)) (collection_name : string) : Q :=
  match Dict.get weights collection_name with Some w => w | None => 0%Q end.

(** What the views of one query contribute: for each view of positive
    weight, the terms of its ranked list. *)
Definition view_entries (voting : bool) (weights : list (string * Q)) (k : Z)
  (collection_results : list (string * list image_result)) : list (string * Q) :=
  flat_map (fun cr =>
              if Qle_bool (view_weight weights (fst cr)) 0 then []
              else list_entries voting (view_weight weights (fst cr)) k 1
                     (map image_id (snd cr)))
    collection_results.

(** The fused score of an image: the sum, over the views of positive
    weight, of the terms of the ranks at which the image stands in the
    view's list. *)
Definition view_score (voting : bool) (weights : list (string * Q)) (k : Z)
  (collection_results : list (string * list image_result)) (image : string) : Q :=
  qsum (map (fun cr =>
               if Qle_bool (view_weight weights (fst cr)) 0 then 0%Q
               else qsum (map (fun p => if String.eqb (snd p) image
                                        then term voting (view_weight weights (fst cr)) k (fst p)
                                        else 0%Q)
                            (enumerate_from 1 (map image_id (snd cr)))))
          collection_results).

Lemma add_results_entries voting w k results : forall rank scores,
  voting = true \/ (0 <= k)%Z -> 0 < rank ->
  add_results voting w k rank results scores =
  Ok (add_all scores (list_entries voting w k rank (map image_id results))).
Proof.
  induction results as [|r rest IH]; intros rank scores Hk Hrank; [reflexivity|].
  cbn [add_results map list_entries]. rewrite vote_score_ok by assumption. cbn [bind].
  rewrite IH by (try assumption; lia). reflexivity.
Qed.

Lemma add_collections_entries voting weights k collection_results : forall scores,
  voting = true \/ (0 <= k)%Z ->
  add_collections voting weights k collection_results scores =
  Ok (add_all scores (view_entries voting weights k collection_results)).
Proof.
  induction collection_results as [|[col results] rest IH]; intros scores Hk; [reflexivity|].
  cbn [add_collections view_entries flat_map fst snd].
  fold (view_weight weights col). fold (view_entries voting weights k rest).
  destruct (Qle_bool (view_weight weights col) 0).
  - cbn [app]. apply IH. exact Hk.
  - rewrite add_results_entries by (try assumption; lia). cbn [bind].
    rewrite IH by exact Hk. rewrite add_all_app. reflexivity.
Qed.

Lemma aggregate_loop_eq voting weights k search_results : forall final_results,
  voting = true \/ (0 <= k)%Z ->
  aggregate_loop voting weights k search_results final_results =
  Ok (fold_left
        (fun acc e =>
           Dict.set acc (fst e)
             (firstn 50 (ranking (add_all [] (view_entries voting weights k (snd e))))))
        search_results final_results).
Proof.
  induction search_results as [|[q crs] rest IH]; intros final_results Hk; [reflexivity|].
  cbn [aggregate_loop fold_left fst snd]. rewrite add_collections_entries by exact Hk.
  cbn [bind]. apply IH. exact Hk.
Qed.

Lemma total_view_entries voting weights k collection_results image :
  (total (view_entries voting weights k collection_results) image ==
   view_score voting weights k collection_results image)%Q.
Proof.
  unfold view_entries, view_score.
  rewrite RRFFacts.total_flat_map. apply RRFFacts.qsum_ext. intros cr.
  destruct (Qle_bool (view_weight weights (fst cr)) 0); [reflexivity|].
  rewrite list_entries_enumerate. apply total_map.
Qed.

Lemma Qle_bool_false w : Qle_bool w 0 = false <-> (0 < w)%Q.
Proof.
  split.
  - intros H. apply Qnot_le_lt. intros Hle. apply Qle_bool_iff in Hle.
    rewrite Hle in H. discriminate.
  - intros H. destruct (Qle_bool w 0) eqn:E; [|reflexivity].
    apply Qle_bool_iff in E. exfalso. exact (Qlt_not_le _ _ H E).
Qed.

Lemma In_view_entries voting weights k collection_results image :
  In image (map fst (view_entries voting weights k collection_results)) <->
  exists col results,
    In (col, results) collection_results /\ (0 < view_weight weights col)%Q /\
    In image (map image_id results).
Proof.
  unfold view_entries. rewrite flat_map_concat_map, concat_map, map_map. split.
  - intros H. apply in_concat in H. destruct H as [l [Hl Hin]].
    apply in_map_iff in Hl. destruct Hl as [[col results] [<- Hcr]].
    cbn [fst snd] in Hin.
    destruct (Qle_bool (view_weight weights col) 0) eqn:E; [destruct Hin|].
    rewrite list_entries_keys in Hin. exists col, results.
    split; [exact Hcr|]. split; [apply Qle_bool_false; exact E | exact Hin].
  - intros [col [results [Hcr [Hw Hin]]]]. apply in_concat.
    exists (map image_id results). split; [|exact Hin].
    apply in_map_iff. exists (col, results). split; [|exact Hcr].
    cbn [fst snd]. apply Qle_bool_false in Hw. rewrite Hw. apply list_entries_keys.
Qed.

Lemma find_last_NoDup {A : Type} (l : list (string * A)) key x :
  NoDup (map fst l) -> In (key, x) l ->
  find (fun row => String.eqb (fst row) key) (rev l) = Some (key, x).
Proof.
  intros Hnd Hin.
  destruct (find (fun row => String.eqb (fst row) key) (rev l)) as [[key' y]|] eqn:E.
  - apply find_some in E. destruct E as [Hy Hk]. cbn [fst] in Hk.
    apply String.eqb_eq in Hk. subst key'. apply in_rev in Hy.
    f_equal. f_equal. clear -Hnd Hin Hy.
    induction l as [|[k0 v0] l IH]; [destruct Hin|].
    cbn [map fst] in Hnd. inversion Hnd as [|? ? Hnot Hnd']; subst.
    destruct Hin as [Hin | Hin], Hy as [Hy | Hy].
    + congruence.
    + injection Hin as -> ->. exfalso. apply Hnot.
      apply in_map_iff. exists (key, y). split; [reflexivity | exact Hy].
    + injection Hy as -> ->. exfalso. apply Hnot.
      apply in_map_iff. exists (key, x). split; [reflexivity | exact Hin].
    + apply IH; assumption.
  - exfalso. apply in_rev in Hin. apply (find_none _ _ E (key, x)) in Hin.
    cbn [fst] in Hin. rewrite String.eqb_refl in Hin. discriminate.
Qed.

Lemma keys_fold_fresh {A V : Type} (g : string * A -> V) (l : list (string * A)) :
  forall d : list (string * V),
  NoDup (Dict.keys d ++ map fst l) ->
  Dict.keys (fold_left (fun acc row => Dict.set acc (fst row) (g row)) l d) =
  Dict.keys d ++ map fst l.
Proof.
  induction l as [|row l IH]; intros d Hnd.
  - cbn. rewrite app_nil_r. reflexivity.
  - cbn [fold_left map]. cbn [map] in Hnd.
    assert (Hfresh : Dict.mem d (fst row) = false).
    { destruct (Dict.mem d (fst row)) eqn:E; [|reflexivity].
      apply mem_keys in E. apply NoDup_remove_2 in Hnd. exfalso. apply Hnd.
      apply in_or_app. left. exact E. }
    rewrite IH; rewrite keys_set, Hfresh.
    + rewrite <- app_assoc. reflexivity.
    + rewrite <- app_assoc. exact Hnd.
Qed.

(** X7.  Fusion over the views of one family (or of the single-model
    run), with [rrf_k >= 0] in RRF mode, for a dictionary of search
    results: the aggregator returns a list for every query of the
    dictionary, in the same order; the list of a query is the first 50 of
    the images found in its views of positive weight, without repetition,
    in descending order of fused score, the sum over those views of
    [w_view / (rrf_k + rank)] (or [w_view] when voting) over the ranks at
    which the image stands in the view's list. *)
Theorem view_fusion
  (self : pipeline) (search_results : list (string * list (string * list image_result)))
  (voting : bool) (query_id : string)
  (collection_results : list (string * list image_result)) :
  voting = true \/ (0 <= rrf_k self)%Z ->
  NoDup (Dict.keys search_results) ->
  In (query_id, collection_results) search_results ->
  exists final ranked,
    _aggregate_final_collections self search_results voting = Ok final /\
    Dict.keys final = Dict.keys search_results /\
    Dict.get final query_id = Some (firstn 50 ranked) /\
    NoDup ranked /\
    (forall image,
       In image ranked <->
       exists col results,
         In (col, results) collection_results /\
         (0 < view_weight (active_weights self) col)%Q /\
         In image (map image_id results)) /\
    descending (view_score voting (active_weights self) (rrf_k self) collection_results)
      ranked.
Proof.
  intros Hk Hnd Hin.
  unfold _aggregate_final_collections. rewrite aggregate_loop_eq by exact Hk.
  set (g := fun e : string * list (string * list image_result) =>
              firstn 50 (ranking (add_all []
                (view_entries voting (active_weights self) (rrf_k self) (snd e))))).
  exists (fold_left (fun acc e => Dict.set acc (fst e) (g e)) search_results []),
         (ranking (add_all []
            (view_entries voting (active_weights self) (rrf_k self) collection_results))).
  split; [reflexivity|]. split.
  { apply (keys_fold_fresh g search_results []). exact Hnd. }
  split.
  { rewrite (get_fold_last g search_results [] query_id).
    rewrite (find_last_NoDup search_results query_id collection_results Hnd Hin).
    reflexivity. }
  destruct (RRFFacts.ranked_entries
              (view_score voting (active_weights self) (rrf_k self) collection_results)
              (view_entries voting (active_weights self) (rrf_k self) collection_results))
    as [Hnodup [Hmem Hdesc]].
  { intros item. apply total_view_entries. }
  split; [exact Hnodup|]. split; [|exact Hdesc].
  intros image. rewrite Hmem. apply In_view_entries.
Qed.

(** A single-model object with two views of weights 1 and 1/2 and a
    third of weight 0, and the results of one query in them. *)
Definition view_pipeline : pipeline :=
  {| use_voting := false;
     enable_multi_model := false;
     private_test_mode := true;
     primary_checkpoint := "Initialized";
     model_weights := [("V1", 1%Q); ("V2", (1 # 2)%Q); ("V3", 0%Q)];
     model_families := None;
     active_families := None;
     active_model_weights := Some [("V1", 1%Q); ("V2", (1 # 2)%Q)];
     article_to_images := [];
     rrf_k := 60;
     multi_model_rrf_k := 50;
     use_sigmoid_boosting := true;
     article_ranking_boost := 0.3;
     similarity_weight := 10;
     rank_weight := 2.5;
     sigmoid_bias := 0;
     max_boost_factor := 0.5 |}.

Definition found (image : string) : image_result :=
  {| image_id := image; score := 0.9; boost_detail := None |}.

Definition view_results : list (string * list image_result) :=
  [("V1", [found "a"; found "b"]); ("V2", [found "b"; found "c"]); ("V3", [found "z"])].

Example view_fusion_scenario :
  (false = true \/ (0 <= rrf_k view_pipeline)%Z) /\
  NoDup (Dict.keys [("q1", view_results)]) /\
  In ("q1", view_results) [("q1", view_results)] /\
  exists final,
    _aggregate_final_collections view_pipeline [("q1", view_results)] false = Ok final /\
    Dict.get final "q1" = Some ["b"; "a"; "c"].
Proof.
  assert (H1 : false = true \/ (0 <= rrf_k view_pipeline)%Z) by (right; cbn; lia).
  assert (H2 : NoDup (Dict.keys [("q1", view_results)])).
  { cbn. constructor; [intros [] | constructor]. }
  assert (H3 : In ("q1", view_results) [("q1", view_results)]) by (left; reflexivity).
  split; [exact H1|]. split; [exact H2|]. split; [exact H3|].
  destruct (view_fusion view_pipeline [("q1", view_results)] false "q1" view_results H1 H2 H3)
    as (final & ranked & Hfinal & _ & Hget & _).
  exists final. split; [exact Hfinal|].
  vm_compute in Hfinal. injection Hfinal as <-. reflexivity.
Defined.

(** *** The single-model run and its default views *)

Section SingleModel.

Variable client_scroll : string -> string -> result (list (option (list float))).
Variable client_search : string -> list float -> option (list string) -> nat -> result (list hit).
Variable math_log : Z -> float.
Variable math_exp : float -> result float.

(** X8.  The legacy single-model configuration names its view
    collections [<View>_<checkpoint>_Large], with the prefix [Private_] in
    private test mode and no prefix otherwise, while the default views of
    [image_search_pipeline] carry [Private_] or [Public_].  So without
    private test mode no default view is active: the search returns the
    empty dictionary and the stage-2 CSV has a header and no row, whatever
    the stage-1 file and the vector store hold.  In private test mode the
    default views are filtered down to the active views, those of positive
    weight. *)
Theorem single_model_default_views
  (a : init_args) (self : pipeline) (csv : list (string * list string)) (m d f : nat) :
  arg_enable_multi_model a = false ->
  init None a = Ok self ->
  enable_multi_model self = false /\
  (arg_private_test_mode a = false ->
   image_search_pipeline client_scroll client_search math_log math_exp
     self csv None None m d f = Ok [] /\
   exists file,
     image_stage client_scroll client_search math_log math_exp self csv m d f = Ok file /\
     data file = []) /\
  (arg_private_test_mode a = true ->
   exists active,
     active_model_weights self = Some active /\ active <> [] /\
     (forall view w, In (view, w) active -> (0 < w)%Q) /\
     image_search_pipeline client_scroll client_search math_log math_exp
       self csv None None m d f =
     image_search_pipeline client_scroll client_search math_log math_exp
       self csv (Some (Dict.keys active)) None m d f).
Proof.
  intros Hmulti Hinit. unfold init in Hinit.
  destruct (existsb (String.eqb (arg_primary_checkpoint a)) valid_checkpoints) eqn:Ecp;
    [|discriminate].
  cbn [negb] in Hinit. unfold _build_legacy_config in Hinit. rewrite Hmulti in Hinit.
  destruct a as [priv cp h14 mm w1 w2 w3 w4 w5 w6 w7 w8 w9 fw1 fw2 fw3
                   mp k kmm v sg b sw rw bias mx].
  cbn in Hmulti. subst mm. cbn [arg_private_test_mode].
  cbn [arg_primary_checkpoint] in Ecp. apply valid_checkpoint_cases in Ecp.
  assert (Hpos : forall w, gt0 w = true -> (0 < w)%Q).
  { intros w Hw. unfold gt0 in Hw. apply negb_true_iff in Hw.
    apply Qle_bool_false. exact Hw. }
  destruct Ecp as [-> | [-> | ->]]; destruct priv; cbn in Hinit;
    destruct (gt0 w1) eqn:E1, (gt0 w2) eqn:E2, (gt0 w3) eqn:E3; cbn in Hinit;
    try discriminate; injection Hinit as <-;
    (split; [reflexivity|]); (split; intros Hp; try discriminate Hp);
    try (split; [reflexivity | eexists; split; [reflexivity | reflexivity]]);
    (eexists; split; [reflexivity|]; split; [discriminate|]; split;
     [ intros view w Hin; cbn in Hin;
       repeat (destruct Hin as [Hin | Hin]; [injection Hin as <- <-; auto|]);
       destruct Hin
     | reflexivity ]).
Qed.

End SingleModel.

(** The single-model run of the command line defaults, outside private
    test mode, over a mapping that knows the article of the query. *)
Definition public_single_args : init_args :=
  {| arg_private_test_mode := false;
     arg_primary_checkpoint := "Initialized";
     arg_enable_h14_laion := true;
     arg_enable_multi_model := false;
     primary_query_large_weight := 1;
     primary_summary_large_weight := 1;
     primary_concise_large_weight := 1;
     primary_query_base_weight := 1;
     primary_summary_base_weight := 1;
     primary_concise_base_weight := 1;
     h14_query_weight := 1;
     h14_summary_weight := 1;
     h14_concise_weight := 1;
     primary_large_family_weight := 1;
     primary_base_family_weight := 1;
     h14_laion_family_weight := 1;
     mapping := [("a1", ["img1"])];
     arg_rrf_k := 60;
     arg_multi_model_rrf_k := 50;
     arg_use_voting := false;
     arg_use_sigmoid_boosting := true;
     arg_article_ranking_boost := 0.3;
     arg_similarity_weight := 10;
     arg_rank_weight := 2.5;
     arg_sigmoid_bias := 0;
     arg_max_boost_factor := 0.5 |}.

Example single_model_scenario :
  arg_enable_multi_model public_single_args = false /\
  exists self,
    init None public_single_args = Ok self /\
    image_search_pipeline scroll_any search_img1 log_zero exp_one
      self [("q1", ["a1"])] None None 15 20 10 = Ok [].
Proof.
  split; [reflexivity|].
  destruct (init None public_single_args) as [self|e] eqn:Einit;
    [|vm_compute in Einit; discriminate].
  exists self. split; [reflexivity|].
  exact (proj1 (proj1 (proj2 (single_model_default_views scroll_any search_img1 log_zero
           exp_one public_single_args self [("q1", ["a1"])] 15 20 10 eq_refl Einit))
           eq_refl)).
Defined.

(** *** The rows of the stage-2 file *)

Lemma In_keys_fold_ids {V : Type} (g : string -> V) (ids : list string) :
  forall (d : list (string * V)) key,
  In key (Dict.keys (fold_left (fun acc q => Dict.set acc q (g q)) ids d)) <->
  In key (Dict.keys d) \/ In key ids.
Proof.
  induction ids as [|q ids IH]; intros d key.
  - cbn. tauto.
  - cbn [fold_left]. rewrite IH, In_keys_set. cbn [In]. intuition auto.
Qed.

Lemma In_keys_update {V : Type} (d e : list (string * V)) key :
  In key (Dict.keys (Dict.update d e)) <-> In key (Dict.keys d) \/ In key (Dict.keys e).
Proof. unfold Dict.update. apply (keys_fold_set (fun kv : string * V => snd kv)). Qed.

Lemma set_fresh {V : Type} (d : list (string * V)) key v :
  ~ In key (Dict.keys d) -> Dict.set d key v = d ++ [(key, v)].
Proof.
  induction d as [|[k' x] rest IH]; intros Hn; [reflexivity|].
  cbn [Dict.set app]. destruct (String.eqb_spec k' key) as [-> | Hne].
  - exfalso. apply Hn. left. reflexivity.
  - f_equal. apply IH. intros H. apply Hn. right. exact H.
Qed.

Lemma fold_set_fresh {A V : Type} (g : string * A -> V) (l : list (string * A)) :
  forall d : list (string * V),
  NoDup (Dict.keys d ++ map fst l) ->
  fold_left (fun acc row => Dict.set acc (fst row) (g row)) l d =
  d ++ map (fun row => (fst row, g row)) l.
Proof.
  induction l as [|row l IH]; intros d Hnd.
  - cbn. rewrite app_nil_r. reflexivity.
  - cbn [fold_left map]. cbn [map] in Hnd.
    assert (Hfresh : ~ In (fst row) (Dict.keys d)).
    { apply NoDup_remove_2 in Hnd. intros H. apply Hnd, in_or_app. left. exact H. }
    rewrite set_fresh by exact Hfresh. rewrite IH.
    + rewrite <- app_assoc. reflexivity.
    + unfold Dict.keys. rewrite map_app. cbn [map fst]. rewrite <- app_assoc. exact Hnd.
Qed.

Lemma In_sorted_keys (final_results : list (string * list string)) q :
  In q (sorted_keys final_results) <-> In q (Dict.keys final_results).
Proof.
  unfold sorted_keys. induction (Dict.keys final_results) as [|x l IH]; [reflexivity|].
  cbn [fold_right]. rewrite RRFFacts.In_insert_uniq, IH. cbn [In]. intuition auto.
Qed.

Lemma sorted_keys_sorted (final_results : list (string * list string)) :
  StronglySorted RRFMore.string_lt (sorted_keys final_results).
Proof.
  unfold sorted_keys. induction (Dict.keys final_results) as [|x l IH]; [constructor|].
  cbn [fold_right]. apply RRFMore.insert_uniq_sorted, IH.
Qed.

Lemma data_query_ids (final_results : list (string * list string)) :
  map (hd "") (data (save_final_image_results final_results)) = sorted_keys final_results.
Proof.
  unfold save_final_image_results. cbn [data]. rewrite map_map. cbn [image_row hd].
  apply map_id.
Qed.

Section Rows.

Variable client_scroll : string -> string -> result (list (option (list float))).
Variable client_search : string -> list float -> option (list string) -> nat -> result (list hit).
Variable math_log : Z -> float.
Variable math_exp : float -> result float.

(** The articles kept for the query lead to a candidate image. *)
Definition has_candidates (self : pipeline) (query_to_articles : list (string * list string))
  (query_id : string) : bool :=
  match Dict.get query_to_articles query_id with
  | Some article_ids =>
      match flat_map (images_of (article_to_images self)) article_ids with
      | [] => false
      | _ => true
      end
  | None => false
  end.

Lemma with_loop_keys self q2a cols db top_k queries : forall acc,
  (forall q, In q queries -> Dict.get q2a q <> None) ->
  exists out,
    search_queries_with_articles_loop client_scroll client_search math_log math_exp
      self queries q2a cols db top_k acc = Ok out /\
    forall q, In q (Dict.keys out) <->
              In q (Dict.keys acc) \/ (In q queries /\ has_candidates self q2a q = true).
Proof.
  induction queries as [|q0 rest IH]; intros acc Hall.
  - exists acc. split; [reflexivity|]. intros q. cbn. tauto.
  - cbn [search_queries_with_articles_loop].
    destruct (Dict.get q2a q0) as [ids|] eqn:Eq;
      [|exfalso; apply (Hall q0); [left; reflexivity | exact Eq]].
    destruct (candidate_loop_spec (article_to_images self) ids 1 [] []) as [Hc _].
    destruct (candidate_loop (article_to_images self) 1 ids [] []) as [cands rmap] eqn:Ec.
    cbn [fst app] in Hc.
    assert (Hq0 : has_candidates self q2a q0 = match cands with [] => false | _ => true end).
    { unfold has_candidates. rewrite Eq, <- Hc. reflexivity. }
    assert (Hrest : forall q, In q rest -> Dict.get q2a q <> None).
    { intros q Hq. apply Hall. right. exact Hq. }
    destruct cands as [|c cs].
    + destruct (IH acc Hrest) as [out [Hout Hkeys]]. exists out. split; [exact Hout|].
      intros q. rewrite Hkeys. cbn [In]. split.
      * intros [H | [H1 H2]]; [left; exact H | right; split; [right; exact H1 | exact H2]].
      * intros [H | [[H1 | H1] H2]]; [left; exact H | | right; split; assumption].
        subst q0. rewrite Hq0 in H2. discriminate.
    + match goal with
      | |- context [search_queries_with_articles_loop _ _ _ _ _ rest _ _ _ _ ?acc'] =>
          destruct (IH acc' Hrest) as [out [Hout Hkeys]]
      end.
      exists out. split; [exact Hout|].
      intros q. rewrite Hkeys, In_keys_set. cbn [In]. split.
      * intros [[H | H] | [H1 H2]];
          [left; exact H | right; split; [left; symmetry; exact H | subst q; exact Hq0]
          | right; split; [right; exact H1 | exact H2]].
      * intros [H | [[H1 | H1] H2]];
          [left; left; exact H | left; right; symmetry; exact H1 | right; split; assumption].
Qed.

Lemma without_keys self queries cols db d f q :
  In q (Dict.keys (search_queries_without_articles client_scroll client_search
                     self queries cols db d f)) <->
  In q queries /\ optimized_collections self cols <> [].
Proof.
  unfold search_queries_without_articles.
  destruct (optimized_collections self cols) as [|c cs] eqn:E.
  - cbn. split; [intros [] | intros [_ H]; apply H; reflexivity].
  - rewrite (In_keys_fold_ids
               (fun query_id =>
                  fold_left (search_without_articles_collection client_scroll client_search
                               query_id db d) (c :: cs) [])).
    cbn [Dict.keys map In]. split.
    + intros [[] | H]. split; [exact H | discriminate].
    + intros [H _]. right. exact H.
Qed.

Lemma family_search_keys self q2a w wo cols db d f :
  (forall q, In q w -> Dict.get q2a q <> None) ->
  exists out,
    family_search client_scroll client_search math_log math_exp
      self q2a w wo cols db d f = Ok out /\
    forall q, In q (Dict.keys out) <->
              (In q w /\ has_candidates self q2a q = true) \/
              (In q wo /\ optimized_collections self cols <> []).
Proof.
  intros Hall. unfold family_search, search_queries_with_articles.
  destruct (with_loop_keys self q2a cols db f w [] Hall) as [rw [Hrw Hkeys]].
  assert (Hw : match w with
               | [] => Ok []
               | _ => search_queries_with_articles_loop client_scroll client_search
                        math_log math_exp self w q2a cols db f []
               end = Ok rw).
  { destruct w; [cbn in Hrw; exact Hrw | exact Hrw]. }
  rewrite Hw. cbn [bind]. eexists. split; [reflexivity|].
  intros q. rewrite !In_keys_update, Hkeys. cbn [Dict.keys map In].
  assert (Hwo : In q (Dict.keys
                        match wo with
                        | [] => []
                        | _ => search_queries_without_articles client_scroll client_search
                                 self wo cols db d f
                        end) <->
                In q wo /\ optimized_collections self cols <> []).
  { destruct wo as [|x l] eqn:Ewo.
    - cbn. split; [intros [] | intros [[] _]].
    - rewrite <- Ewo. apply without_keys. }
  rewrite Hwo. tauto.
Qed.

Lemma aggregate_keys self search_results voting :
  voting = true \/ (0 <= rrf_k self)%Z ->
  exists final,
    _aggregate_final_collections self search_results voting = Ok final /\
    forall q, In q (Dict.keys final) <-> In q (Dict.keys search_results).
Proof.
  intros Hk. unfold _aggregate_final_collections. rewrite aggregate_loop_eq by exact Hk.
  eexists. split; [reflexivity|]. intros q.
  rewrite (keys_fold_set
             (fun e : string * list (string * list image_result) =>
                firstn 50 (ranking (add_all []
                  (view_entries voting (active_weights self) (rrf_k self) (snd e)))))).
  cbn. tauto.
Qed.

(** What one family contributes to a run. *)
Definition family_results_of (self : pipeline) (q2a : list (string * list string))
  (w wo : list string) (d f : nat) (family : string * family_config) : family_data :=
  {| results :=
       match
         (sr <- family_search client_scroll client_search math_log math_exp
                  self q2a w wo (query_collections (snd family))
                  (search_collection (snd family)) d f ;;
          _aggregate_final_collections self sr (use_voting self))
       with
       | Ok r => r
       | Raise _ => []
       end;
     weight := family_weight (snd family) |}.

Lemma family_results_keys self q2a w wo d f family q :
  (forall q', In q' w -> Dict.get q2a q' <> None) ->
  use_voting self = true \/ (0 <= rrf_k self)%Z ->
  (sr <- family_search client_scroll client_search math_log math_exp
           self q2a w wo (query_collections (snd family))
           (search_collection (snd family)) d f ;;
   _aggregate_final_collections self sr (use_voting self)) =
    Ok (results (family_results_of self q2a w wo d f family)) /\
  (In q (Dict.keys (results (family_results_of self q2a w wo d f family))) <->
   (In q w /\ has_candidates self q2a q = true) \/
   (In q wo /\ optimized_collections self (query_collections (snd family)) <> [])).
Proof.
  intros Hall Hk. unfold family_results_of. cbn [results].
  destruct (family_search_keys self q2a w wo (query_collections (snd family))
              (search_collection (snd family)) d f Hall) as [sr [Hsr Hkeys]].
  rewrite Hsr. cbn [bind].
  destruct (aggregate_keys self sr (use_voting self) Hk) as [final [Hfinal Hkf]].
  rewrite Hfinal. split; [reflexivity|]. rewrite Hkf. apply Hkeys.
Qed.

Lemma family_loop_eq self q2a w wo d f families : forall acc,
  (forall q, In q w -> Dict.get q2a q <> None) ->
  use_voting self = true \/ (0 <= rrf_k self)%Z ->
  family_loop client_scroll client_search math_log math_exp
    self q2a w wo d f families acc =
  Ok (fold_left
        (fun acc' family =>
           Dict.set acc' (fst family) (family_results_of self q2a w wo d f family))
        families acc).
Proof.
  induction families as [|[name config] rest IH]; intros acc Hall Hk; [reflexivity|].
  cbn [family_loop fold_left fst].
  destruct (family_results_keys self q2a w wo d f (name, config) "" Hall Hk) as [Heq _].
  cbn [snd] in Heq.
  destruct (family_search client_scroll client_search math_log math_exp
              self q2a w wo (query_collections config) (search_collection config) d f)
    as [sr|e]; [|discriminate Heq].
  cbn [bind] in Heq |- *. rewrite Heq. cbn [bind].
  rewrite IH by assumption. reflexivity.
Qed.

(** X9.  The multi-model image stage, for an object with families of
    distinct names and, in RRF mode, fusion constants [>= 0]: whatever the
    vector store answers or raises, the stage returns a file; its rows
    come in strictly ascending order of query id, one per query; and a
    query has a row exactly when, for some active family, it is listed
    with articles and its kept articles lead to a candidate image, or it
    is listed without articles and the family has a view left after the
    filter of that branch. *)
Theorem image_stage_rows
  (self : pipeline) (families : list (string * family_config))
  (csv : list (string * list string)) (m d f : nat) :
  enable_multi_model self = true ->
  active_families self = Some families ->
  NoDup (Dict.keys families) ->
  use_voting self = true \/ ((0 <= rrf_k self)%Z /\ (0 <= multi_model_rrf_k self)%Z) ->
  exists file query_to_articles,
    image_stage client_scroll client_search math_log math_exp self csv m d f = Ok file /\
    fst (fst (load_and_classify_queries csv m)) = query_to_articles /\
    StronglySorted RRFMore.string_lt (map (hd "") (data file)) /\
    forall q,
      In q (map (hd "") (data file)) <->
      exists family,
        In family families /\
        ((In q (map fst (filter (has_articles m) csv)) /\
          has_candidates self query_to_articles q = true) \/
         (In q (map fst (filter (fun row => negb (has_articles m row)) csv)) /\
          optimized_collections self (query_collections (snd family)) <> [])).
Proof.
  intros Hmulti Hact Hnd Hk.
  set (q2a := fold_left (fun acc row => Dict.set acc (fst row) (kept m (snd row))) csv []).
  assert (Hload : load_and_classify_queries csv m =
                  (q2a, map fst (filter (has_articles m) csv),
                   map fst (filter (fun row => negb (has_articles m row)) csv))).
  { unfold load_and_classify_queries. rewrite classify_fold. reflexivity. }
  assert (Hdom : forall q, In q (Dict.keys q2a) <-> In q (map fst csv)).
  { intros q. unfold q2a.
    rewrite (keys_fold_set (fun row : string * list string => kept m (snd row))).
    cbn. tauto. }
  set (w := map fst (filter (has_articles m) csv)) in *.
  set (wo := map fst (filter (fun row => negb (has_articles m row)) csv)) in *.
  assert (Hall : forall q, In q w -> Dict.get q2a q <> None).
  { intros q Hq Hnone.
    assert (Hin : In q (Dict.keys q2a)).
    { apply Hdom. unfold w in Hq. apply in_map_iff in Hq.
      destruct Hq as [row [<- Hrow]]. apply filter_In in Hrow.
      apply in_map. exact (proj1 Hrow). }
    apply mem_keys in Hin. unfold Dict.mem in Hin. rewrite Hnone in Hin. discriminate. }
  assert (Hk1 : use_voting self = true \/ (0 <= rrf_k self)%Z) by tauto.
  assert (Hk2 : use_voting self = true \/ (0 <= multi_model_rrf_k self)%Z) by tauto.
  set (frs := map (fun family => (fst family, family_results_of self q2a w wo d f family))
                families).
  set (final := fold_left
         (fun acc q =>
            Dict.set acc q
              (firstn f (ranking (add_all []
                 (cross_family_entries (use_voting self) (multi_model_rrf_k self) f frs q)))))
         (family_query_ids frs) []).
  assert (Hstage : image_stage client_scroll client_search math_log math_exp self csv m d f =
                   Ok (save_final_image_results final)).
  { unfold image_stage. rewrite Hmulti. unfold multi_model_image_search_pipeline.
    rewrite Hmulti, Hact. cbn [negb]. rewrite Hload.
    rewrite family_loop_eq by assumption. cbn [bind].
    rewrite (fold_set_fresh (family_results_of self q2a w wo d f) families [])
      by exact Hnd.
    cbn [app]. fold frs. unfold multi_model_rrf.
    rewrite multi_model_loop_eq by exact Hk2. reflexivity. }
  exists (save_final_image_results final), q2a.
  split; [exact Hstage|]. split; [rewrite Hload; reflexivity|].
  rewrite data_query_ids. split; [apply sorted_keys_sorted|].
  intros q. rewrite In_sorted_keys. unfold final.
  rewrite (In_keys_fold_ids
             (fun q0 => firstn f (ranking (add_all []
                (cross_family_entries (use_voting self) (multi_model_rrf_k self) f frs q0))))).
  cbn [Dict.keys map In]. unfold family_query_ids. rewrite In_unique, in_flat_map. split.
  - intros [[] | [[fr [Hfr Hq]] _]]. unfold frs in Hfr. apply in_map_iff in Hfr.
    destruct Hfr as [family [<- Hfam]]. cbn [snd] in Hq.
    exists family. split; [exact Hfam|].
    apply (family_results_keys self q2a w wo d f family q Hall Hk1). exact Hq.
  - intros [family [Hfam Hq]]. right. split; [|intros []].
    exists (fst family, family_results_of self q2a w wo d f family). split.
    + unfold frs. apply in_map_iff. exists family. split; [reflexivity | exact Hfam].
    + cbn [snd]. apply (family_results_keys self q2a w wo d f family q Hall Hk1). exact Hq.
Qed.

End Rows.

Example image_stage_rows_scenario :
  exists self families file,
    init None cli_args = Ok self /\
    enable_multi_model self = true /\
    active_families self = Some families /\
    NoDup (Dict.keys families) /\
    (use_voting self = true \/ ((0 <= rrf_k self)%Z /\ (0 <= multi_model_rrf_k self)%Z)) /\
    image_stage scroll_any search_img1 log_zero exp_one self no_article_csv 15 20 15
      = Ok file /\
    map (hd "") (data file) = ["q1"].
Proof.
  destruct (init None cli_args) as [self|e] eqn:Einit; [|vm_compute in Einit; discriminate].
  assert (Hs := Einit). vm_compute in Hs. injection Hs as Hs.
  destruct (active_families self) as [families|] eqn:Eact;
    [|rewrite <- Hs in Eact; cbn in Eact; discriminate].
  assert (Hf := Eact). rewrite <- Hs in Hf. vm_compute in Hf. injection Hf as Hf.
  assert (Hm : enable_multi_model self = true) by (rewrite <- Hs; reflexivity).
  assert (Hn : NoDup (Dict.keys families)).
  { rewrite <- Hf. cbn. repeat constructor; cbn; intuition discriminate. }
  assert (Hk : use_voting self = true \/
               ((0 <= rrf_k self)%Z /\ (0 <= multi_model_rrf_k self)%Z)).
  { rewrite <- Hs. right. split; cbn; lia. }
  destruct (image_stage_rows scroll_any search_img1 log_zero exp_one self families
              no_article_csv 15 20 15 Hm Eact Hn Hk)
    as (file & q2a & Hfile & _).
  exists self, families, file. split; [reflexivity|]. split; [exact Hm|].
  split; [exact Eact|]. split; [exact Hn|]. split; [exact Hk|]. split; [exact Hfile|].
  rewrite <- Hs in Hfile. vm_compute in Hfile. injection Hfile as <-. reflexivity.
Defined.

(** *** The validated multi-model configuration *)







(** *** Boosting the hits of a view *)

Definition hit_image (h : hit) : string :=
  match payload_image_id h with Some i => i | None => "unknown" end.

(** [article_rank_map.get(image_id, 999)] *)
Definition rank_of (article_rank_map : list (string * Z)) (image : string) : Z :=
  match Dict.get article_rank_map image with Some r => r | None => 999%Z end.

Lemma insert_by_score_perm x l : Permutation (insert_by_score x l) (x :: l).
Proof.
  induction l as [|y r IH]; [apply Permutation_refl|].
  cbn [insert_by_score]. destruct (PrimFloat.leb (score y) (score x)).
  - apply Permutation_refl.
  - apply perm_trans with (y :: x :: r); [apply perm_skip, IH | apply perm_swap].
Qed.

Lemma sort_by_score_perm l : Permutation (sort_by_score l) l.
Proof.
  unfold sort_by_score. induction l as [|x l IH]; [apply Permutation_refl|].
  cbn [fold_right]. apply perm_trans with (x :: fold_right insert_by_score [] l).
  - apply insert_by_score_perm.
  - apply perm_skip, IH.
Qed.

Lemma map_result_total {A B : Type} (f : A -> result B) (g : A -> B) (l : list A) :
  (forall x, In x l -> f x = Ok (g x)) -> map_result f l = Ok (map g l).
Proof.
  induction l as [|x l IH]; intros H; [reflexivity|].
  cbn [map_result map]. rewrite (H x) by (left; reflexivity). cbn [bind].
  rewrite IH by (intros y Hy; apply H; right; exact Hy). reflexivity.
Qed.

Lemma map_result_raise {A B : Type} (f : A -> result B) (l : list A) x e :
  In x l -> f x = Raise e -> exists e', map_result f l = Raise e'.
Proof.
  induction l as [|y l IH]; intros Hin Hx; [destruct Hin|].
  cbn [map_result]. destruct (f y) as [b|e0] eqn:Ey; [|eexists; reflexivity].
  cbn [bind]. destruct Hin as [-> | Hin]; [congruence|].
  destruct (IH Hin Hx) as [e' ->]. eexists. reflexivity.
Qed.

Section Boost.

Variable client_search : string -> list float -> option (list string) -> nat -> result (list hit).
Variable math_log : Z -> float.
Variable math_exp : float -> result float.

(** X16.  The article-filtered search of one view, when the vector
    store answers with a list of hits: if the boost of every hit is
    computed, the results are the hits reordered, none added and none
    dropped, each with its similarity as base score, the boost of the rank
    recorded for its image (999 when none is) and their sum as score; if
    the boost of one hit raises, all the hits of the view are dropped.
    The search without article filter returns the hits in the order of the
    store with their similarity as score. *)
Theorem boosting_only_reorders
  (self : pipeline) (collection_name : string) (query_vector : list float)
  (candidate_image_ids : list string) (article_rank_map : list (string * Z))
  (top_k : nat) (hits : list hit) :
  client_search collection_name query_vector (Some candidate_image_ids) top_k = Ok hits ->
  let boost h :=
    calculate_sigmoid_boost math_log math_exp self (hit_score h)
      (rank_of article_rank_map (hit_image h)) in
  let results :=
    search_similar_images_with_ranking_boost client_search math_log math_exp self
      collection_name query_vector candidate_image_ids article_rank_map top_k in
  ((forall h, In h hits -> exists b, boost h = Ok b) ->
   Permutation (map image_id results) (map hit_image hits) /\
   forall r, In r results ->
     exists h b,
       In h hits /\ boost h = Ok b /\
       image_id r = hit_image h /\
       score r = (hit_score h + b)%float /\
       boost_detail r = Some (hit_score h, b, rank_of article_rank_map (hit_image h))) /\
  ((exists h e, In h hits /\ boost h = Raise e) -> results = []) /\
  (forall direct,
     client_search collection_name query_vector None top_k = Ok direct ->
     let plain := search_similar_images_no_filter client_search collection_name
                    query_vector top_k in
     map image_id plain = map hit_image direct /\
     map score plain = map hit_score direct).
Proof.
  intros Hsearch boost results.
  assert (Hbody : forall h,
            boosted_result math_log math_exp self article_rank_map h =
            (b <- boost h ;;
             Ok {| image_id := hit_image h;
                   score := (hit_score h + b)%float;
                   boost_detail :=
                     Some (hit_score h, b, rank_of article_rank_map (hit_image h)) |})).
  { intros h. reflexivity. }
  split; [|split].
  - intros Hall.
    set (g := fun h =>
           let b := match boost h with Ok b => b | Raise _ => 0%float end in
           {| image_id := hit_image h;
              score := (hit_score h + b)%float;
              boost_detail :=
                Some (hit_score h, b, rank_of article_rank_map (hit_image h)) |}).
    assert (Hres : results = sort_by_score (map g hits)).
    { unfold results, search_similar_images_with_ranking_boost. rewrite Hsearch.
      cbn [bind].
      rewrite (map_result_total (boosted_result math_log math_exp self article_rank_map)
                 g hits); [reflexivity|].
      intros h Hh. rewrite Hbody. destruct (Hall h Hh) as [b Hb]. unfold g.
      rewrite Hb. reflexivity. }
    rewrite Hres. split.
    + apply perm_trans with (map image_id (map g hits)).
      * apply Permutation_map, sort_by_score_perm.
      * rewrite map_map. apply Permutation_refl.
    + intros r Hr.
      apply (Permutation_in _ (sort_by_score_perm (map g hits))) in Hr.
      apply in_map_iff in Hr. destruct Hr as [h [<- Hh]].
      destruct (Hall h Hh) as [b Hb]. exists h, b. unfold g. rewrite Hb.
      repeat split; try reflexivity; assumption.
  - intros [h [e [Hh He]]].
    unfold results, search_similar_images_with_ranking_boost. rewrite Hsearch. cbn [bind].
    destruct (map_result_raise (boosted_result math_log math_exp self article_rank_map)
                hits h e Hh) as [e' He'].
    { rewrite Hbody. fold (boost h). rewrite He. reflexivity. }
    rewrite He'. reflexivity.
  - intros direct Hdirect plain. unfold plain, search_similar_images_no_filter.
    rewrite Hdirect. rewrite !map_map. split; reflexivity.
Qed.

End Boost.

Example boosting_scenario :
  search_img1 "Database_Initialized_Large" [1%float] (Some ["img1"]) 20 =
    Ok [{| payload_image_id := Some "img1"; hit_score := 0.9 |}] /\
  map image_id
    (search_similar_images_with_ranking_boost search_img1 log_zero exp_one
       BoosterFacts.sigmoid_pipeline "Database_Initialized_Large" [1%float] ["img1"]
       [("img1", 1%Z)] 20) = ["img1"].
Proof.
  split; [reflexivity|].
  destruct (boosting_only_reorders search_img1 log_zero exp_one
              BoosterFacts.sigmoid_pipeline "Database_Initialized_Large" [1%float] ["img1"]
              [("img1", 1%Z)] 20 [{| payload_image_id := Some "img1"; hit_score := 0.9 |}]
              eq_refl) as [Hperm _].
  assert (Hall : forall h,
            In h [{| payload_image_id := Some "img1"; hit_score := 0.9 |}] ->
            exists b,
              calculate_sigmoid_boost log_zero exp_one BoosterFacts.sigmoid_pipeline
                (hit_score h) (rank_of [("img1", 1%Z)] (hit_image h)) = Ok b).
  { intros h [<- | []]. eexists. vm_compute. reflexivity. }
  destruct (Hperm Hall) as [Hp _].
  apply Permutation_sym, Permutation_length_1_inv in Hp. exact Hp.
Defined.

End PipelineMore.

Module EntityMore.

Import EntitySearch EntitySearchFacts.

(** *** Reading the hits of the index *)

(** A hit with a source, an article id and a score. *)
Definition complete (h : es_hit) : bool :=
  match _source h with
  | Some article_data =>
      match article_id article_data, _score h with
      | Some _, Some _ => true
      | _, _ => false
      end
  | None => false
  end.

Definition hit_article_id (h : es_hit) : string :=
  match _source h with
  | Some article_data => match article_id article_data with Some a => a | None => "" end
  | None => ""
  end.

Lemma read_hits_complete hits : forall i,
  forallb complete hits = true ->
  exists rs,
    read_hits i hits = Ok rs /\
    map result_article_id rs = map hit_article_id hits /\
    map rank rs = seq i (List.length hits).
Proof.
  induction hits as [|h rest IH]; intros i Hall.
  - exists []. repeat split.
  - cbn [forallb] in Hall. apply andb_true_iff in Hall. destruct Hall as [Hh Hrest].
    destruct (IH (S i) Hrest) as [rs [Hrs [Hids Hranks]]].
    cbn [read_hits]. unfold read_hit. unfold complete in Hh.
    destruct (_source h) as [article_data|] eqn:Es; [|discriminate].
    destruct (article_id article_data) as [a|] eqn:Ea; [|discriminate].
    destruct (_score h) as [sc|]; [|discriminate].
    cbn [bind]. rewrite Hrs. cbn [bind]. eexists. split; [reflexivity|].
    cbn [map result_article_id rank List.length seq]. rewrite Hids, Hranks.
    unfold hit_article_id at 2. rewrite Es, Ea. split; reflexivity.
Qed.

Lemma read_hits_incomplete hits : forall i,
  forallb complete hits = false -> read_hits i hits = Raise KeyError.
Proof.
  induction hits as [|h rest IH]; intros i Hall; [discriminate|].
  cbn [forallb] in Hall. cbn [read_hits]. unfold read_hit.
  unfold complete in Hall at 1.
  destruct (_source h) as [article_data|]; [|reflexivity].
  destruct (article_id article_data) as [a|]; [|reflexivity].
  destruct (_score h) as [sc|]; [|reflexivity].
  cbn [andb] in Hall. cbn [bind]. rewrite (IH (S i) Hall). reflexivity.
Qed.

(** X10.  When the entities give at least one clause and the index
    answers 200 with a list of hits: if every hit has a source, an article
    id and a score, the search returns one result per hit, in the order of
    the hits, ranked 1, 2, ... (as many as the index sent, whatever
    [top_k] is); if one hit lacks any of them, the results of all the
    other hits are lost with it and the search returns the empty list. *)
Theorem hits_all_or_nothing
  (post : search_query -> result response) (weights : list (string * Q))
  (query_entities : list entity) (top_k : nat)
  (clauses : list clause) (resp : response) (hits : list es_hit) :
  should_queries weights query_entities = Ok clauses ->
  clauses <> [] ->
  post {| should := clauses; size := top_k |} = Ok resp ->
  status_code resp = 200%Z ->
  json resp = Ok (Some hits) ->
  exists search_results,
    search_articles_for_query post weights query_entities top_k = Ok search_results /\
    if forallb complete hits
    then map result_article_id search_results = map hit_article_id hits /\
         map rank search_results = seq 1 (List.length hits)
    else search_results = [].
Proof.
  intros Hclauses Hne Hpost Hstatus Hjson.
  unfold search_articles_for_query.
  destruct query_entities as [|e es].
  { cbn in Hclauses. injection Hclauses as <-. contradiction. }
  rewrite Hclauses. cbn [bind].
  destruct clauses as [|c cs]; [contradiction|].
  unfold request_articles. rewrite Hpost. cbn [bind]. rewrite Hstatus, Hjson.
  cbn [Z.eqb Pos.eqb bind].
  destruct (forallb complete hits) eqn:E.
  - destruct (read_hits_complete hits 1 E) as [rs [Hrs [Hids Hranks]]].
    rewrite Hrs. exists rs. split; [reflexivity|]. split; assumption.
  - rewrite (read_hits_incomplete hits 1 E). exists []. split; reflexivity.
Qed.

(** An index that answers every search with two hits, the second one
    without a score. *)
Definition hit_of (a : string) (sc : option Q) : es_hit :=
  {| _source := Some {| article_id := Some a; source_entities := None |};
     _score := sc;
     highlight := None |}.

Definition post_two (q : search_query) : result response :=
  Ok {| status_code := 200; json := Ok (Some [hit_of "a1" (Some 2%Q); hit_of "a2" None]) |}.

Example hits_all_or_nothing_scenario :
  search_articles_for_query post_two entity_weights [messi] 10 = Ok [].
Proof.
  destruct (hits_all_or_nothing post_two entity_weights [messi] 10
              [weighted_query "Messi" "messi" (43 # 10);
               bonus_weighted_query "Messi" (JStr "PERSON") ((43 # 10) * (13 # 10))]
              {| status_code := 200;
                 json := Ok (Some [hit_of "a1" (Some 2%Q); hit_of "a2" None]) |}
              [hit_of "a1" (Some 2%Q); hit_of "a2" None]
              eq_refl ltac:(discriminate) eq_refl eq_refl eq_refl)
    as [rs [Hrs Hcase]].
  cbn in Hcase. rewrite Hrs, Hcase. reflexivity.
Defined.

End EntityMore.

(** ** The stage-1 driver *)

Module Stage1Facts.

Import EntitySearch Stage1.

(** *** Scrolling the queries index *)

Section Scroll.

Variable first_search : result reply.
Variable scroll : nat -> option string -> result reply.
Variable clear_scroll : option string -> result unit.

(** A scroll call answered 200 with a page of hits that all read well. *)
Definition clean_page (outcome : result reply) (scroll_id : option string)
  (page_hits : list query_hit) (batch : list query) : Prop :=
  outcome = Ok {| reply_status := 200;
                  reply_json := Ok {| _scroll_id := scroll_id; hits := Some page_hits |} |} /\
  Pipeline.map_result read_query page_hits = Ok batch.

Lemma scroll_loop_step fuel n sid h rest acc sid' next_hits batch :
  clean_page (scroll n sid) sid' next_hits batch ->
  scroll_loop scroll (S fuel) n sid (h :: rest) acc =
  scroll_loop scroll fuel (S n) sid' next_hits (acc ++ batch).
Proof.
  intros [Hs Hb]. cbn [scroll_loop]. rewrite Hs. cbn. rewrite Hb. reflexivity.
Qed.

Lemma scroll_loop_pages (ids : nat -> option string) (pages : nat -> list query_hit)
  (docs : nat -> list query) N : forall fuel n sid current acc,
  current <> [] ->
  (forall i sid', i < N ->
     clean_page (scroll (n + i) sid') (ids (n + i)) (pages (n + i)) (docs (n + i)) /\
     pages (n + i) <> []) ->
  scroll_loop scroll (N + fuel) n sid current acc =
  scroll_loop scroll fuel (n + N)
    (match N with 0 => sid | S k => ids (n + k) end)
    (match N with 0 => current | S k => pages (n + k) end)
    (acc ++ flat_map docs (seq n N)).
Proof.
  induction N as [|N IH]; intros fuel n sid current acc Hcur Hpages.
  - cbn. rewrite Nat.add_0_r, app_nil_r. reflexivity.
  - destruct current as [|h rest]; [contradiction|].
    destruct (Hpages 0 sid ltac:(lia)) as [Hclean Hne]. rewrite Nat.add_0_r in Hclean, Hne.
    change (S N + fuel) with (S (N + fuel)).
    rewrite (scroll_loop_step _ _ _ _ _ _ _ _ _ Hclean).
    rewrite IH.
    + cbn [seq flat_map]. rewrite <- app_assoc.
      replace (S n + N) with (n + S N) by lia.
      destruct N as [|k].
      * rewrite Nat.add_0_r. reflexivity.
      * replace (S n + k) with (n + S k) by lia. reflexivity.
    + exact Hne.
    + intros i sid' Hi. replace (S n + i) with (n + S i) by lia. apply Hpages. lia.
Qed.

(** X11.  [get_all_queries], after a first page and [N] scroll pages
    that were all answered 200 with hits that read well: a scroll call
    that raises loses everything collected so far, the result is the empty
    list; a scroll call answered with another status keeps it, the result
    is the queries of the pages read, in order; an empty page ends the
    scroll with the same result; and in both cases a failure of the call
    that clears the scroll turns the result into the empty list. *)
Theorem scroll_outcomes
  (N : nat) (sid0 : option string) (first_hits : list query_hit) (docs0 : list query)
  (ids : nat -> option string) (pages : nat -> list query_hit) (docs : nat -> list query)
  (fuel : nat) :
  clean_page first_search sid0 first_hits docs0 ->
  first_hits <> [] ->
  (forall i sid, i < N ->
     clean_page (scroll i sid) (ids i) (pages i) (docs i) /\ pages i <> []) ->
  N < fuel ->
  let sid := match N with 0 => sid0 | S k => ids k end in
  let collected := docs0 ++ flat_map docs (seq 0 N) in
  let cleared sid' :=
    if has_scroll sid'
    then match clear_scroll sid' with Ok _ => collected | Raise _ => [] end
    else collected in
  (forall e, scroll N sid = Raise e ->
     get_all_queries first_search scroll clear_scroll fuel = Some []) /\
  (forall r, scroll N sid = Ok r -> reply_status r <> 200%Z ->
     get_all_queries first_search scroll clear_scroll fuel = Some (cleared sid)) /\
  (forall sid',
     scroll N sid = Ok {| reply_status := 200;
                          reply_json := Ok {| _scroll_id := sid'; hits := Some [] |} |} ->
     get_all_queries first_search scroll clear_scroll fuel = Some (cleared sid')).
Proof.
  intros [Hfirst Hdocs0] Hne Hpages Hfuel sid collected cleared.
  assert (Hloop : forall f,
            scroll_loop scroll (N + S f) 0 sid0 first_hits docs0 =
            scroll_loop scroll (S f) N sid
              (match N with 0 => first_hits | S k => pages k end) collected).
  { intros f. apply (scroll_loop_pages ids pages docs N (S f) 0 sid0 first_hits docs0 Hne).
    intros i sid' Hi. apply Hpages. exact Hi. }
  assert (Hcur : match N with 0 => first_hits | S k => pages k end <> []).
  { destruct N as [|k]; [exact Hne|]. apply (Hpages k None). lia. }
  destruct (match N with 0 => first_hits | S k => pages k end) as [|h rest] eqn:Ecur;
    [contradiction|].
  assert (Hgen : forall fu,
            get_all_queries first_search scroll clear_scroll fu =
            match scroll_loop scroll fu 0 sid0 first_hits docs0 with
            | None => None
            | Some (Raise _) => Some []
            | Some (Ok (all_queries, scroll_id)) =>
                if has_scroll scroll_id
                then match clear_scroll scroll_id with
                     | Ok _ => Some all_queries
                     | Raise _ => Some []
                     end
                else Some all_queries
            end).
  { intros fu. unfold get_all_queries, collect_queries. rewrite Hfirst.
    cbn [reply_status reply_json hits _scroll_id Z.eqb Pos.eqb]. rewrite Hdocs0.
    destruct (scroll_loop scroll fu 0 sid0 first_hits docs0) as [[[qs s]|e]|];
      try reflexivity.
    destruct (has_scroll s); [|reflexivity]. destruct (clear_scroll s); reflexivity. }
  assert (Hget : forall f,
            get_all_queries first_search scroll clear_scroll (N + S f) =
            match scroll_loop scroll (S f) N sid (h :: rest) collected with
            | None => None
            | Some (Raise _) => Some []
            | Some (Ok (all_queries, scroll_id)) =>
                if has_scroll scroll_id
                then match clear_scroll scroll_id with
                     | Ok _ => Some all_queries
                     | Raise _ => Some []
                     end
                else Some all_queries
            end).
  { intros f. rewrite Hgen, Hloop. reflexivity. }
  replace fuel with (N + S (fuel - N - 1)) by lia.
  split; [|split].
  - intros e He. rewrite Hget. cbn [scroll_loop]. rewrite He. reflexivity.
  - intros r Hr Hstatus. rewrite Hget. cbn [scroll_loop]. rewrite Hr.
    destruct (Z.eqb_spec (reply_status r) 200) as [H | _]; [contradiction|].
    unfold cleared. destruct (has_scroll sid); [|reflexivity].
    destruct (clear_scroll sid); reflexivity.
  - intros sid' Hr. rewrite Hget. cbn [scroll_loop]. rewrite Hr. cbn.
    destruct (fuel - N - 1); cbn [scroll_loop]; rewrite app_nil_r;
      unfold cleared; (destruct (has_scroll sid'); [|reflexivity]);
      destruct (clear_scroll sid'); reflexivity.
Qed.

End Scroll.

(** An index with one page of one query, whose scroll endpoint is down
    or answers with status 500. *)
Definition one_query : query_hit :=
  {| hit_source := Some {| src_query_id := Some "q1";
                           src_query_text := None;
                           src_entities := Some [EntitySearchFacts.messi] |} |}.

Definition first_page : result reply :=
  Ok {| reply_status := 200;
        reply_json := Ok {| _scroll_id := Some "s0"; hits := Some [one_query] |} |}.

Definition scroll_down (n : nat) (scroll_id : option string) : result reply :=
  Raise TransportError.

Definition scroll_500 (n : nat) (scroll_id : option string) : result reply :=
  Ok {| reply_status := 500; reply_json := Raise ValueError |}.

Definition scroll_end (n : nat) (scroll_id : option string) : result reply :=
  Ok {| reply_status := 200;
        reply_json := Ok {| _scroll_id := scroll_id; hits := Some [] |} |}.

Definition clear_ok (scroll_id : option string) : result unit := Ok tt.

Example scroll_outcomes_scenario :
  get_all_queries first_page scroll_down clear_ok 1 = Some [] /\
  get_all_queries first_page scroll_500 clear_ok 1 =
    Some [{| query_id := "q1"; query_text := "";
             query_entities := [EntitySearchFacts.messi] |}].
Proof.
  assert (H1 : clean_page first_page (Some "s0") [one_query]
                 [{| query_id := "q1"; query_text := "";
                     query_entities := [EntitySearchFacts.messi] |}]).
  { split; reflexivity. }
  assert (H2 : [one_query] <> []) by discriminate.
  assert (H4 : 0 < 1) by lia.
  split.
  - refine (proj1 (scroll_outcomes first_page scroll_down clear_ok 0 (Some "s0") [one_query]
                     _ (fun _ => None) (fun _ => []) (fun _ => []) 1 H1 H2 _ H4)
              TransportError eq_refl).
    intros i sid Hi. lia.
  - refine (proj1 (proj2 (scroll_outcomes first_page scroll_500 clear_ok 0 (Some "s0")
                            [one_query] _ (fun _ => None) (fun _ => []) (fun _ => []) 1
                            H1 H2 _ H4))
              _ eq_refl _).
    + intros i sid Hi. lia.
    + cbn. discriminate.
Defined.

(** *** The rows of the stage-1 file *)

(** [all_queries[:max_queries]] under [if max_queries and ...]. *)
Definition limited (max_queries : option nat) (all_queries : list query) : list query :=
  match max_queries with
  | Some (S n) => firstn (S n) all_queries
  | _ => all_queries
  end.

(** The name of the file written, whatever name the caller gave. *)
Definition written_name (timestamp postfix : string) : string :=
  if String.eqb postfix "" then String.append "submission_" (String.append timestamp ".csv")
  else String.append "submission_" (String.append postfix ".csv").

Definition filled (c : string) : string := if String.eqb c "" then "#" else c.

Lemma submission_row_width top_k query_id search_results :
  List.length (snd (submission_row top_k query_id search_results)) = top_k.
Proof. unfold submission_row. cbn [snd]. rewrite length_map, length_seq. reflexivity. Qed.

Lemma submission_row_cells top_k query_id search_results j :
  j < top_k ->
  nth j (snd (submission_row top_k query_id search_results)) "" =
  nth j (map result_article_id search_results) "".
Proof.
  intros Hj. unfold submission_row. cbn [snd].
  rewrite (nth_indep _ ""
             (match nth_error search_results (0 - 1) with
              | Some r => result_article_id r | None => "" end))
    by (rewrite length_map, length_seq; exact Hj).
  rewrite (map_nth (fun j0 => match nth_error search_results (j0 - 1) with
                              | Some r => result_article_id r | None => "" end)
             (seq 1 top_k) 0 j).
  rewrite seq_nth by exact Hj. cbn [Nat.add Nat.sub]. rewrite Nat.sub_0_r.
  destruct (nth_error search_results j) as [r|] eqn:E.
  - symmetry. rewrite (nth_indep _ "" (result_article_id r)).
    + rewrite map_nth. f_equal. apply nth_error_nth. exact E.
    + rewrite length_map. apply nth_error_Some. rewrite E. discriminate.
  - symmetry. apply nth_overflow. rewrite length_map. apply nth_error_None. exact E.
Qed.

Section Rows.

Variable first_search : result reply.
Variable scroll : nat -> option string -> result reply.
Variable clear_scroll : option string -> result unit.
Variable post : search_query -> result response.
Variable weights : list (string * Q).
Variable writable : string -> bool.
Variable timestamp : string.

Lemma search_row_spec top_k q :
  fst (search_row post weights top_k q) = query_id q /\
  List.length (snd (search_row post weights top_k q)) = top_k /\
  forall j, j < top_k ->
    nth j (snd (search_row post weights top_k q)) "" =
    match search_articles_for_query post weights (query_entities q) top_k with
    | Ok search_results => nth j (map result_article_id search_results) ""
    | Raise _ => ""
    end.
Proof.
  unfold search_row.
  destruct (search_articles_for_query post weights (query_entities q) top_k) as [[|r rs]|e].
  - split; [reflexivity|]. split; [apply submission_row_width|].
    intros j Hj. rewrite submission_row_cells by exact Hj. reflexivity.
  - split; [reflexivity|]. split; [apply submission_row_width|].
    intros j Hj. apply submission_row_cells. exact Hj.
  - split; [reflexivity|]. split; [apply submission_row_width|].
    intros j Hj. rewrite submission_row_cells by exact Hj. destruct j; reflexivity.
Qed.

(** What the call returns and writes, for an index that lists a query. *)
Lemma save_eq
  (files : list (string * file)) (output_submission_csv : string) (top_k : nat)
  (max_queries : option nat) (postfix : string) (fuel : nat)
  (q0 : query) (more : list query) :
  get_all_queries first_search scroll clear_scroll fuel = Some (q0 :: more) ->
  search_all_queries_and_save first_search scroll clear_scroll post weights writable
    timestamp files output_submission_csv top_k true max_queries postfix fuel =
  Some
    ((if writable (written_name timestamp postfix)
      then Dict.set files (written_name timestamp postfix)
             (CsvFile {| RRF.n_cols := top_k;
                         RRF.rows :=
                           map (fun row => (filled (fst row),
                                            map (fun c => RRF.Str (filled c)) (snd row)))
                             (map (search_row post weights top_k)
                                (limited max_queries (q0 :: more))) |})
      else files),
     Some (map (search_row post weights top_k) (limited max_queries (q0 :: more)),
           written_name timestamp postfix)).
Proof.
  intros Hget. unfold search_all_queries_and_save. rewrite Hget.
  assert (Hname : (if negb (String.eqb postfix "")
                   then String.append "submission_" (String.append postfix ".csv")
                   else String.append "submission_" (String.append timestamp ".csv")) =
                  written_name timestamp postfix).
  { unfold written_name. destruct (String.eqb postfix ""); reflexivity. }
  rewrite Hname.
  assert (Hlim : match max_queries with
                 | Some (S n) =>
                     if S n <? List.length (q0 :: more)
                     then firstn (S n) (q0 :: more) else q0 :: more
                 | _ => q0 :: more
                 end = limited max_queries (q0 :: more)).
  { unfold limited. destruct max_queries as [[|n]|]; try reflexivity.
    destruct (Nat.ltb_spec (S n) (List.length (q0 :: more))); [reflexivity|].
    symmetry. apply firstn_all2. assumption. }
  rewrite Hlim. f_equal. f_equal.
  destruct (writable (written_name timestamp postfix)); [|reflexivity].
  f_equal. f_equal. unfold auto_fill_empty_cells, submission_frame.
  cbn [RRF.n_cols RRF.rows]. rewrite Nat.max_id, Nat.sub_diag. cbn [repeat].
  f_equal. rewrite map_map. apply map_ext. intros row. cbn [fst snd].
  rewrite app_nil_r, map_map. unfold filled. f_equal.
  apply map_ext. intros c. cbn [fill_cell]. destruct (String.eqb c ""); reflexivity.
Qed.

(** X12.  [search_all_queries_and_save] on an index that lists at least
    one query: whatever the articles index does and however the entities
    are typed, the call returns one row per query, in the order of the
    index and cut to [max_queries], each with exactly [top_k] cells, the
    [j]-th being the id of the [j]-th article found and the empty string
    past the results or when the search raised.  The name given by the
    caller is never used: the file is [submission_<postfix>.csv], or
    [submission_<timestamp>.csv] without a postfix.  When that path can be
    written it holds, with [auto_fill], the same rows with every empty
    cell (and an empty query id) replaced by the sentinel; otherwise the
    store is left as it was. *)
Theorem stage1_rows
  (files : list (string * file)) (output_submission_csv : string) (top_k : nat)
  (max_queries : option nat) (postfix : string) (fuel : nat)
  (q0 : query) (more : list query) :
  get_all_queries first_search scroll clear_scroll fuel = Some (q0 :: more) ->
  exists files' submission_data,
    search_all_queries_and_save first_search scroll clear_scroll post weights writable
      timestamp files output_submission_csv top_k true max_queries postfix fuel =
      Some (files', Some (submission_data, written_name timestamp postfix)) /\
    List.length submission_data = List.length (limited max_queries (q0 :: more)) /\
    (forall i q,
       nth_error (limited max_queries (q0 :: more)) i = Some q ->
       exists cells,
         nth_error submission_data i = Some (query_id q, cells) /\
         List.length cells = top_k /\
         forall j, j < top_k ->
           nth j cells "" =
           match search_articles_for_query post weights (query_entities q) top_k with
           | Ok search_results => nth j (map result_article_id search_results) ""
           | Raise _ => ""
           end) /\
    files' =
      (if writable (written_name timestamp postfix)
       then Dict.set files (written_name timestamp postfix)
              (CsvFile {| RRF.n_cols := top_k;
                          RRF.rows :=
                            map (fun row => (filled (fst row),
                                             map (fun c => RRF.Str (filled c)) (snd row)))
                              submission_data |})
       else files).
Proof.
  intros Hget.
  rewrite (save_eq files output_submission_csv top_k max_queries postfix fuel q0 more Hget).
  set (data := map (search_row post weights top_k) (limited max_queries (q0 :: more))).
  eexists. exists data. split; [reflexivity|].
  split; [unfold data; apply length_map|]. split; [|reflexivity].
  intros i q Hq. unfold data. rewrite nth_error_map, Hq. cbn [option_map].
  destruct (search_row_spec top_k q) as [Hid [Hlen Hcells]].
  destruct (search_row post weights top_k q) as [id cells]. cbn [fst snd] in *.
  subst id. exists cells. split; [reflexivity|]. split; assumption.
Qed.

End Rows.

Definition post_a1 (q : search_query) : result response :=
  Ok {| status_code := 200;
        json := Ok (Some [EntityMore.hit_of "a1" (Some 2%Q)]) |}.

Example stage1_rows_scenario :
  exists files',
    search_all_queries_and_save first_page scroll_end clear_ok post_a1 entity_weights
      (fun _ => true) "20250101_000000" [] "out.csv" 3 true None "run" 2 =
    Some (files', Some ([("q1", ["a1"; ""; ""])], "submission_run.csv")) /\
    Dict.get files' "submission_run.csv" =
      Some (CsvFile {| RRF.n_cols := 3;
                       RRF.rows := [("q1", [RRF.Str "a1"; RRF.Str "#"; RRF.Str "#"])] |}) /\
    Dict.get files' "out.csv" = None.
Proof.
  destruct (stage1_rows first_page scroll_end clear_ok post_a1 entity_weights
              (fun _ => true) "20250101_000000" [] "out.csv" 3 None "run" 2
              {| query_id := "q1"; query_text := "";
                 query_entities := [EntitySearchFacts.messi] |} [] eq_refl)
    as (files' & data & Hcall & _ & _ & Hfiles).
  exists files'. assert (Hc := Hcall). vm_compute in Hc.
  injection Hc as _ Hdata. subst data.
  split; [exact Hcall|]. rewrite Hfiles. split; reflexivity.
Defined.

(** *** The path returned and the file written *)

Lemma append_length a b :
  String.length (String.append a b) = String.length a + String.length b.
Proof. induction a as [|c a IH]; [reflexivity|]. cbn. rewrite IH. reflexivity. Qed.

Lemma append_inv_head a x y : String.append a x = String.append a y -> x = y.
Proof.
  induction a as [|c a IH]; intros H; [exact H|]. cbn in H. injection H as H. apply IH, H.
Qed.

Lemma append_assoc a b c :
  String.append (String.append a b) c = String.append a (String.append b c).
Proof. induction a as [|x a IH]; [reflexivity|]. cbn. rewrite IH. reflexivity. Qed.

Lemma ends_with_sep_single a :
  ends_with_sep a = true -> String.length a = 1 -> a = "/".
Proof.
  destruct a as [|c [|c' a']]; cbn; try discriminate.
  - intros H _. apply Ascii.eqb_eq in H. subst c. reflexivity.
Qed.

(** [os.path.join] of a non-empty directory and a relative name puts a
    non-empty prefix before the name. *)
Lemma os_path_join_prefix dir name :
  dir <> "" -> PyStr.startswith name "/" = false ->
  exists prefix,
    prefix <> "" /\ (String.length prefix = 1 -> prefix = "/") /\
    forall name', PyStr.startswith name' "/" = false ->
                  os_path_join dir name' = String.append prefix name'.
Proof.
  intros Hdir _. destruct (ends_with_sep dir) eqn:E.
  - exists dir. split; [exact Hdir|]. split; [apply ends_with_sep_single; exact E|].
    intros name' Hn. unfold os_path_join. rewrite Hn, E, orb_true_r. reflexivity.
  - exists (String.append dir "/"). split.
    + destruct dir; [contradiction | discriminate].
    + split.
      * rewrite append_length. cbn. destruct dir; [contradiction|]. cbn. lia.
      * intros name' Hn. unfold os_path_join. rewrite Hn, E.
        destruct (String.eqb_spec dir "") as [-> | _]; [contradiction|].
        cbn [orb]. symmetry. apply append_assoc.
Qed.

Fixpoint last_char (s : string) : option ascii :=
  match s with
  | EmptyString => None
  | String c EmptyString => Some c
  | String _ rest => last_char rest
  end.

Lemma last_char_append a b : b <> "" -> last_char (String.append a b) = last_char b.
Proof.
  intros Hb. induction a as [|c a IH]; [reflexivity|].
  cbn [String.append last_char]. rewrite <- IH.
  destruct (String.append a b) eqn:E; [|reflexivity].
  destruct a; cbn in E; [contradiction | discriminate].
Qed.

Definition submission_path (filename_suffix : string) : string :=
  String.append "submission_" (String.append filename_suffix ".csv").

Definition stage_1_path (filename_suffix : string) : string :=
  String.append "stage_1_" (String.append filename_suffix ".json").

Lemma written_differs filename_suffix prefix :
  (String.length prefix = 1 -> prefix = "/") ->
  String.append prefix (submission_path filename_suffix) <>
  written_name "" (String.append "_" filename_suffix).
Proof.
  intros Hsingle Heq.
  assert (Hlen := f_equal String.length Heq).
  unfold written_name, submission_path in *. cbn [String.eqb String.append] in *.
  rewrite !append_length in Hlen. cbn [String.length] in Hlen.
  rewrite !append_length in Hlen. cbn [String.length] in Hlen.
  destruct prefix as [|c [|c' p]].
  - cbn in Hlen. lia.
  - specialize (Hsingle eq_refl). injection Hsingle as ->. cbn in Heq. discriminate.
  - cbn [String.length] in Hlen. lia.
Qed.

Lemma written_name_postfix timestamp filename_suffix :
  written_name timestamp (String.append "_" filename_suffix) =
  written_name "" (String.append "_" filename_suffix).
Proof. reflexivity. Qed.

Section Paths.

Variable first_search : result reply.
Variable scroll : nat -> option string -> result reply.
Variable clear_scroll : option string -> result unit.
Variable post : search_query -> result response.
Variable weights : list (string * Q).
Variable writable : string -> bool.
Variable timestamp : string.

(** X13.  [text_search_pipeline] hands [search_all_queries_and_save]
    the postfix [_<suffix>], so the stage-1 rows go to
    [submission__<suffix>.csv] in the working directory, while the path it
    returns for them is [submission_<suffix>.csv], inside the output
    directory when one is given.  The two never coincide: after the call
    the store holds at the returned path what it held before, and the rows
    (when the file can be written) at the other.  With an output directory
    and an index that lists no query, the call raises [AttributeError]. *)
Theorem stage1_path_mismatch
  (files : list (string * file)) (output_dir : option string) (filename_suffix : string)
  (top_k : nat) (max_queries : option nat) (fuel : nat) (all_queries : list query) :
  get_all_queries first_search scroll clear_scroll fuel = Some all_queries ->
  let run :=
    text_search_pipeline first_search scroll clear_scroll post weights writable timestamp
      files output_dir filename_suffix top_k max_queries fuel in
  let written := String.append "submission__" (String.append filename_suffix ".csv") in
  match all_queries with
  | [] =>
      match output_dir with
      | Some (String _ _) => run = Some (Raise AttributeError)
      | _ => run = Some (Ok (files, (submission_path filename_suffix,
                                      Some (stage_1_path filename_suffix))))
      end
  | _ :: _ =>
      exists files' csv_path json_path,
        run = Some (Ok (files', (csv_path, json_path))) /\
        csv_path =
          match output_dir with
          | Some (String c d) => os_path_join (String c d) (submission_path filename_suffix)
          | _ => submission_path filename_suffix
          end /\
        csv_path <> written /\
        Dict.get files' csv_path = Dict.get files csv_path /\
        (writable written = true ->
         exists df, Dict.get files' written = Some (CsvFile df) /\
                    List.length (RRF.rows df) =
                    List.length (limited max_queries all_queries))
  end.
Proof.
  intros Hget run written.
  assert (Hwritten : written = written_name timestamp (String.append "_" filename_suffix))
    by reflexivity.
  destruct all_queries as [|q0 more].
  - unfold run, text_search_pipeline, search_all_queries_and_save. rewrite Hget.
    destruct output_dir as [[|c d]|]; reflexivity.
  - assert (Hsave : forall out,
              exists files' data,
                search_all_queries_and_save first_search scroll clear_scroll post weights
                  writable timestamp files out top_k true max_queries
                  (String.append "_" filename_suffix) fuel =
                  Some (files', Some (data, written)) /\
                List.length data = List.length (limited max_queries (q0 :: more)) /\
                files' = (if writable written
                          then Dict.set files written
                                 (CsvFile {| RRF.n_cols := top_k;
                                             RRF.rows :=
                                               map (fun row =>
                                                      (filled (fst row),
                                                       map (fun c => RRF.Str (filled c))
                                                         (snd row)))
                                                 data |})
                          else files)).
    { intros out. eexists. eexists. rewrite Hwritten.
      split; [apply (save_eq first_search scroll clear_scroll post weights writable timestamp
                       files out top_k max_queries (String.append "_" filename_suffix) fuel
                       q0 more Hget)|].
      split; [apply length_map | reflexivity]. }
    assert (Hcsv : forall csv_path files' data,
              csv_path <> written ->
              files' = (if writable written
                        then Dict.set files written
                               (CsvFile {| RRF.n_cols := top_k;
                                           RRF.rows :=
                                             map (fun row =>
                                                    (filled (fst row),
                                                     map (fun c => RRF.Str (filled c))
                                                       (snd row)))
                                               data |})
                        else files) ->
              List.length data = List.length (limited max_queries (q0 :: more)) ->
              Dict.get files' csv_path = Dict.get files csv_path /\
              (writable written = true ->
               exists df, Dict.get files' written = Some (CsvFile df) /\
                          List.length (RRF.rows df) =
                          List.length (limited max_queries (q0 :: more)))).
    { intros csv_path files' data Hne -> Hlen. destruct (writable written).
      - split.
        + apply PipelineFacts.get_set_other. intros H. apply Hne. symmetry. exact H.
        + intros _. eexists. split; [apply PipelineFacts.get_set_same|].
          cbn [RRF.rows]. rewrite length_map. exact Hlen.
      - split; [reflexivity | discriminate]. }
    unfold run, text_search_pipeline.
    fold (submission_path filename_suffix). fold (stage_1_path filename_suffix).
    destruct output_dir as [[|c d]|].
    + destruct (Hsave (submission_path filename_suffix)) as (files' & data & Hcall & Hlen & Hf).
      rewrite Hcall. exists files', (submission_path filename_suffix), (Some (stage_1_path filename_suffix)).
      split; [reflexivity|]. split; [reflexivity|].
      assert (Hne : submission_path filename_suffix <> written).
      { rewrite Hwritten, written_name_postfix.
        apply (written_differs filename_suffix ""). cbn. discriminate. }
      split; [exact Hne|]. apply (Hcsv _ _ data Hne Hf Hlen).
    + destruct (os_path_join_prefix (String c d) (submission_path filename_suffix))
        as (prefix & Hp & Hsingle & Hjoin); [discriminate | reflexivity|].
      assert (Hne : os_path_join (String c d) (submission_path filename_suffix) <> written).
      { rewrite Hjoin by reflexivity. rewrite Hwritten, written_name_postfix.
        apply written_differs. exact Hsingle. }
      destruct (Hsave (os_path_join (String c d) (submission_path filename_suffix)))
        as (files' & data & Hcall & Hlen & Hf).
      rewrite Hcall.
      destruct (Hcsv _ _ data Hne Hf Hlen) as [Hsame Hw].
      destruct (writable (os_path_join (String c d) (stage_1_path filename_suffix))) eqn:Ej.
      * eexists. eexists. eexists. split; [reflexivity|]. split; [reflexivity|].
        split; [exact Hne|].
        assert (Hjson : os_path_join (String c d) (stage_1_path filename_suffix) <>
                        os_path_join (String c d) (submission_path filename_suffix)).
        { rewrite !Hjoin by reflexivity. intros H. apply append_inv_head in H.
          discriminate H. }
        assert (Hjw : os_path_join (String c d) (stage_1_path filename_suffix) <> written).
        { rewrite Hjoin by reflexivity. unfold written, stage_1_path. intros H.
          apply (f_equal last_char) in H. rewrite <- !append_assoc in H.
          rewrite !last_char_append in H by discriminate. discriminate H. }
        split.
        { rewrite PipelineFacts.get_set_other by exact Hjson. exact Hsame. }
        intros Hwr. destruct (Hw Hwr) as [df [Hdf Hrows]]. exists df.
        split; [|exact Hrows].
        rewrite PipelineFacts.get_set_other by exact Hjw. exact Hdf.
      * eexists. eexists. eexists. split; [reflexivity|]. split; [reflexivity|].
        split; [exact Hne|]. split; assumption.
    + destruct (Hsave (submission_path filename_suffix)) as (files' & data & Hcall & Hlen & Hf).
      rewrite Hcall. exists files', (submission_path filename_suffix), (Some (stage_1_path filename_suffix)).
      split; [reflexivity|]. split; [reflexivity|].
      assert (Hne : submission_path filename_suffix <> written).
      { rewrite Hwritten, written_name_postfix.
        apply (written_differs filename_suffix ""). cbn. discriminate. }
      split; [exact Hne|]. apply (Hcsv _ _ data Hne Hf Hlen).
Qed.

End Paths.

Example stage1_path_mismatch_scenario :
  exists files',
    text_search_pipeline first_page scroll_end clear_ok post_a1 entity_weights
      (fun _ => true) "20250101_000000" [] (Some "app_results/run1") "cascade" 3 None 2 =
    Some (Ok (files', ("app_results/run1/submission_cascade.csv",
                       Some "app_results/run1/stage_1_cascade.json"))) /\
    Dict.get files' "app_results/run1/submission_cascade.csv" = None /\
    exists df, Dict.get files' "submission__cascade.csv" = Some (CsvFile df).
Proof.
  pose proof (stage1_path_mismatch first_page scroll_end clear_ok post_a1 entity_weights
                (fun _ => true) "20250101_000000" [] (Some "app_results/run1") "cascade"
                3 None 2
                [{| query_id := "q1"; query_text := "";
                    query_entities := [EntitySearchFacts.messi] |}] eq_refl) as H.
  cbv beta zeta iota in H.
  destruct H as (files' & csv_path & json_path & Hrun & Hcsv & _ & Hsame & Hw).
  exists files'. vm_compute in Hcsv. subst csv_path.
  assert (Hj : json_path = Some "app_results/run1/stage_1_cascade.json").
  { assert (Hr := Hrun). vm_compute in Hr. injection Hr as _ Hr. symmetry. exact Hr. }
  subst json_path. split; [exact Hrun|]. split; [exact Hsame|].
  destruct (Hw eq_refl) as [df [Hdf _]]. exists df. exact Hdf.
Defined.

(** *** Reading a stage-1 row back *)

(** An identifier that survives the reader: no blank around it, not
    empty and not the sentinel. *)
Definition clean_id (a : string) : Prop :=
  PyStr.strip a = a /\ a <> "" /\ a <> "#".

Lemma submission_row_app top_k query_id search_results :
  snd (submission_row top_k query_id search_results) =
  firstn top_k (map result_article_id search_results)
  ++ repeat "" (top_k - List.length search_results).
Proof.
  apply (nth_ext _ _ "" "").
  - rewrite submission_row_width, length_app, length_firstn, length_map, repeat_length. lia.
  - intros j Hj. rewrite submission_row_width in Hj.
    rewrite submission_row_cells by exact Hj.
    destruct (Nat.lt_ge_cases j (List.length search_results)) as [Hlt | Hge].
    + rewrite app_nth1 by (rewrite length_firstn, length_map; lia).
      rewrite <- (firstn_skipn top_k (map result_article_id search_results)) at 1.
      apply app_nth1. rewrite length_firstn, length_map. lia.
    + rewrite nth_overflow by (rewrite length_map; exact Hge).
      rewrite app_nth2 by (rewrite length_firstn, length_map; lia).
      symmetry. apply nth_repeat.
Qed.

Lemma extract_clean m ids : forall acc n,
  Forall clean_id ids -> List.length acc < m ->
  Pipeline.extract_articles m (map filled ids ++ repeat "#" n) acc = firstn m (acc ++ ids).
Proof.
  induction ids as [|a ids IH]; intros acc n Hclean Hlen.
  - cbn [map app]. rewrite app_nil_r. induction n as [|n IHn].
    + cbn. symmetry. apply firstn_all2. lia.
    + cbn [repeat Pipeline.extract_articles].
      change (PyStr.strip "#") with "#". cbn [String.eqb Ascii.eqb Bool.eqb negb andb].
      destruct (Nat.leb_spec m (List.length acc)); [lia | exact IHn].
  - inversion Hclean as [|? ? [Hs [He Hh]] Hrest]; subst.
    assert (E1 : String.eqb a "" = false) by (apply String.eqb_neq; exact He).
    assert (E2 : String.eqb a "#" = false) by (apply String.eqb_neq; exact Hh).
    assert (Hf : filled a = a) by (unfold filled; rewrite E1; reflexivity).
    cbn [map app Pipeline.extract_articles]. rewrite Hf, Hs, E1, E2.
    cbn [negb andb].
    destruct (Nat.leb_spec m (List.length (acc ++ [a]))) as [Hle | Hlt].
    + rewrite length_app in Hle. cbn [List.length] in Hle.
      change (acc ++ a :: ids) with (acc ++ [a] ++ ids).
      rewrite app_assoc, firstn_app.
      replace (m - List.length (acc ++ [a])) with 0
        by (rewrite length_app; cbn [List.length]; lia).
      cbn [firstn]. rewrite app_nil_r. symmetry. apply firstn_all2.
      rewrite length_app. cbn [List.length]. lia.
    + rewrite IH by assumption. rewrite <- app_assoc. reflexivity.
Qed.

(** X14.  What stage 2 reads from a row that stage 1 wrote.  When the
    article ids found for a query are clean (no blank around them, not
    empty, not the sentinel), the row written with [auto_fill] and read
    back by the loop of [load_and_classify_queries] with
    [max_articles >= 1] gives the first [min(max_articles, top_k)] ids
    found, in order: the padding disappears and nothing else is lost. *)
Theorem stage1_row_read_back
  (top_k max_articles : nat) (query_id : string) (search_results : list search_result) :
  1 <= max_articles ->
  Forall clean_id (map result_article_id search_results) ->
  Pipeline.extract_articles max_articles
    (map filled (snd (submission_row top_k query_id search_results))) [] =
  firstn max_articles (firstn top_k (map result_article_id search_results)).
Proof.
  intros Hm Hclean. rewrite submission_row_app, map_app.
  assert (Hpad : forall n, map filled (repeat "" n) = repeat "#" n).
  { intros n. induction n as [|n IH]; [reflexivity|]. cbn [repeat map]. rewrite IH.
    reflexivity. }
  rewrite Hpad.
  apply (extract_clean max_articles (firstn top_k (map result_article_id search_results)) []).
  - apply Forall_forall. intros a Ha. rewrite Forall_forall in Hclean.
    apply Hclean. apply (DictFacts.In_firstn top_k). exact Ha.
  - cbn. lia.
Qed.

Definition found_article (i : nat) (a : string) : search_result :=
  {| rank := i; result_article_id := a; score := 1; entities := []; highlights := [] |}.

Example stage1_row_read_back_scenario :
  Pipeline.extract_articles 2
    (map filled (snd (submission_row 5 "q1"
                        [found_article 1 "a1"; found_article 2 "a2"; found_article 3 "a3"])))
    [] = ["a1"; "a2"].
Proof.
  apply (stage1_row_read_back 5 2 "q1"
           [found_article 1 "a1"; found_article 2 "a2"; found_article 3 "a3"]).
  - lia.
  - repeat constructor; cbn; discriminate.
Defined.

End Stage1Facts.
